(** * rwgen.rainfall.simulation: discretisation kernels, block sizing,
      domain bounds, variogram bins and catchment averages.

    A shallow embedding of [src/rwgen/rainfall/simulation.py].

    Numbers.  The NumPy float64 values of the source are idealised as exact
    rationals ([Q]); equalities between computed depths are therefore stated
    with [==] ([Qeq]).  Python integers are [Z].  [int(np.floor(x))] is
    [Qfloor x].  [np.sqrt] has no rational counterpart and is a parameter of
    the functions that call it.

    Arrays.  A one-dimensional NumPy array is a [list Q]; the two-dimensional
    accumulation buffer (timesteps x locations) is a list of rows.

    Errors.  Python exceptions are the constructors of [exn]; a computation
    that may raise returns [result A]. *)

From Stdlib Require Import ZArith QArith Qround Qminmax List Bool Lia Lqa.
From Stdlib Require String Ascii DecimalString.
Import ListNotations.

Open Scope Q_scope.

(** ** Exceptions and the error monad *)

Inductive exn : Type :=
| TypeError
| IndexError
| UnboundLocalError
| ZeroDivisionError
| ValueError
| MemoryError
| NotImplementedError.

Inductive result (A : Type) : Type :=
| Ok (a : A)
| Raise (e : exn).
Arguments Ok {A} a.
Arguments Raise {A} e.

Definition bind {A B : Type} (m : result A) (k : A -> result B) : result B :=
  match m with
  | Ok a => k a
  | Raise e => Raise e
  end.

Notation "x <- m ;; k" := (bind m (fun x => k))
  (at level 61, m at next level, right associativity).

(** ** One-dimensional arrays *)

Definition array := list Q.

(** [a.shape[0]] *)
Definition shape0 {A : Type} (a : list A) : Z := Z.of_nat (length a).

(** [np.zeros(n)] and [a.fill(0.0)] *)
Definition zeros (n : nat) : array := repeat 0 n.
Definition fill0 (a : array) : array := zeros (length a).

(** [sum(a)] *)
Definition asum (a : array) : Q := fold_right Qplus 0 a.

(** Pointwise equality of arrays up to [Qeq]. *)
Definition aeq (a b : array) : Prop := Forall2 Qeq a b.

(** A decision procedure for [aeq], for concrete arrays. *)
Fixpoint aeqb (a b : array) : bool :=
  match a, b with
  | [], [] => true
  | x :: a', y :: b' => Qeq_bool x y && aeqb a' b'
  | _, _ => false
  end.

(** Functional update of position [i]. *)
Fixpoint upd (a : array) (i : nat) (f : Q -> Q) : array :=
  match a, i with
  | [], _ => []
  | x :: a', O => f x :: a'
  | x :: a', S i' => x :: upd a' i' f
  end.

(** [a[i] += v] with Python's index rule, which the compiled kernel keeps:
    [0 <= i < n] addresses position [i], [-n <= i < 0] wraps round to
    position [n + i].  Any other index is out of range; the interpreter
    raises [IndexError] there, and the compiled kernel, which does not check
    bounds, has no defined result, so the model stops with the error. *)
Definition add_at (a : array) (i : Z) (v : Q) : result array :=
  let n := shape0 a in
  if ((0 <=? i) && (i <? n))%Z then Ok (upd a (Z.to_nat i) (fun x => x + v))
  else if ((- n <=? i) && (i <? 0))%Z then Ok (upd a (Z.to_nat (n + i)) (fun x => x + v))
  else Raise IndexError.

(** [a[i]] for a non-negative loop index. *)
Definition get (a : array) (i : nat) : result Q :=
  match nth_error a i with
  | Some x => Ok x
  | None => Raise IndexError
  end.

(** ** The point discretisation kernel ([discretise_point]) *)

(** The body of [for timestep in range(rc_arrival_timestep, rc_end_timestep+1)]:
    [k] iterations remain, [timestep] is the current value. *)
Fixpoint timestep_loop (k : nat) (timestep : Z)
    (timestep_length rc_arrival_time rc_end_time rc_intensity : Q)
    (discrete_rainfall : array) : result array :=
  match k with
  | O => Ok discrete_rainfall
  | S k' =>
      let timestep_start_time := inject_Z timestep * timestep_length in
      let timestep_end_time := inject_Z (timestep + 1) * timestep_length in
      let effective_start := Qmax rc_arrival_time timestep_start_time in
      let effective_end := Qmin rc_end_time timestep_end_time in
      let timestep_coverage := effective_end - effective_start in
      dr <- (if (timestep <? shape0 discrete_rainfall)%Z
             then add_at discrete_rainfall timestep (rc_intensity * timestep_coverage)
             else Ok discrete_rainfall) ;;
      timestep_loop k' (timestep + 1) timestep_length
        rc_arrival_time rc_end_time rc_intensity dr
  end.

(** One iteration of [for idx in range(raincell_arrival_times.shape[0])]. *)
Definition raincell_step (period_start_time timestep_length : Q)
    (raincell_arrival_times raincell_end_times raincell_intensities : array)
    (idx : nat) (discrete_rainfall : array) : result array :=
  a <- get raincell_arrival_times idx ;;
  e <- get raincell_end_times idx ;;
  rc_intensity <- get raincell_intensities idx ;;
  let rc_arrival_time := a - period_start_time in
  let rc_end_time := e - period_start_time in
  let rc_arrival_timestep := Qfloor (rc_arrival_time / timestep_length) in
  let rc_end_timestep := Qfloor (rc_end_time / timestep_length) in
  timestep_loop (Z.to_nat (rc_end_timestep + 1 - rc_arrival_timestep))
    rc_arrival_timestep timestep_length rc_arrival_time rc_end_time
    rc_intensity discrete_rainfall.

Fixpoint raincell_loop (period_start_time timestep_length : Q)
    (raincell_arrival_times raincell_end_times raincell_intensities : array)
    (idxs : list nat) (discrete_rainfall : array) : result array :=
  match idxs with
  | [] => Ok discrete_rainfall
  | idx :: rest =>
      dr <- raincell_step period_start_time timestep_length
              raincell_arrival_times raincell_end_times raincell_intensities
              idx discrete_rainfall ;;
      raincell_loop period_start_time timestep_length
        raincell_arrival_times raincell_end_times raincell_intensities rest dr
  end.

(** [discretise_point(period_start_time, timestep_length,
    raincell_arrival_times, raincell_end_times, raincell_intensities,
    discrete_rainfall)]; the array is modified in place, so the model returns
    its final contents. *)
Definition discretise_point (period_start_time timestep_length : Q)
    (raincell_arrival_times raincell_end_times raincell_intensities : array)
    (discrete_rainfall : array) : result array :=
  raincell_loop period_start_time timestep_length
    raincell_arrival_times raincell_end_times raincell_intensities
    (seq 0 (length raincell_arrival_times)) (fill0 discrete_rainfall).

(** The depth of raincell [idx]: intensity times duration. *)
Definition raincell_depth
    (raincell_arrival_times raincell_end_times raincell_intensities : array)
    (idx : nat) : Q :=
  nth idx raincell_intensities 0
  * (nth idx raincell_end_times 0 - nth idx raincell_arrival_times 0).

(** Raincell [idx] is present in all three arrays, arrives at or after the
    period start, ends no earlier than it arrives, and ends inside an array
    of [n] timesteps. *)
Definition well_placed (period_start_time timestep_length : Q)
    (raincell_arrival_times raincell_end_times raincell_intensities : array)
    (n : Z) (idx : nat) : Prop :=
  (idx < length raincell_arrival_times)%nat
  /\ (idx < length raincell_end_times)%nat
  /\ (idx < length raincell_intensities)%nat
  /\ period_start_time <= nth idx raincell_arrival_times 0
  /\ nth idx raincell_arrival_times 0 <= nth idx raincell_end_times 0
  /\ (Qfloor ((nth idx raincell_end_times 0%Q - period_start_time)
              / timestep_length) < n)%Z.

(** ** Elementwise operations and boolean masks *)

(** [f(a, b)] applied elementwise to two arrays of one shape. *)
Fixpoint map2 {A B C : Type} (f : A -> B -> C) (a : list A) (b : list B)
  : result (list C) :=
  match a, b with
  | [], [] => Ok []
  | x :: a', y :: b' => r <- map2 f a' b' ;; Ok (f x y :: r)
  | _, _ => Raise ValueError
  end.

(** [a[mask]] for a boolean mask of the shape of [a]. *)
Fixpoint mask_select {A : Type} (mask : list bool) (a : list A)
  : result (list A) :=
  match mask, a with
  | [], [] => Ok []
  | b :: mask', x :: a' =>
      r <- mask_select mask' a' ;; Ok (if b then x :: r else r)
  | _, _ => Raise IndexError
  end.

(** ** Two-dimensional buffers (timesteps x locations) *)

Record array2 : Type := mkArray2 { ncols : nat; rows : list array }.

Definition wf_array2 (m : array2) : Prop :=
  Forall (fun row => length row = ncols m) (rows m).

(** [np.zeros((nt, n))] and [m.fill(0.0)] *)
Definition zeros2 (nt n : nat) : array2 := mkArray2 n (repeat (zeros n) nt).
Definition fill2 (m : array2) : array2 :=
  mkArray2 (ncols m) (map fill0 (rows m)).

(** [m[:, yi]] read as a one-dimensional array. *)
Fixpoint column_of (rs : list array) (yi : nat) : result array :=
  match rs with
  | [] => Ok []
  | row :: rs' => x <- get row yi ;; c <- column_of rs' yi ;; Ok (x :: c)
  end.
Definition column (m : array2) (yi : nat) : result array :=
  column_of (rows m) yi.

(** Writing a column back through the view [m[:, yi]]. *)
Fixpoint set_column_of (rs : list array) (yi : nat) (c : array) : list array :=
  match rs, c with
  | row :: rs', x :: c' => upd row yi (fun _ => x) :: set_column_of rs' yi c'
  | _, _ => rs
  end.
Definition set_column (m : array2) (yi : nat) (c : array) : array2 :=
  mkArray2 (ncols m) (set_column_of (rows m) yi c).

(** ** The spatial discretisation kernel ([discretise_spatial]) *)

Section Spatial.

(** [np.sqrt] *)
Variable sqrt : Q -> Q.

(** [np.sqrt((x - xs) ** 2 + (y - ys) ** 2)] for scalars [x], [y]. *)
Definition distances_from (x y : Q) (xs ys : array) : result array :=
  map2 (fun cx cy => sqrt ((x - cx) ^ 2 + (y - cy) ^ 2)) xs ys.

(** One iteration of [for idx in range(point_eastings.shape[0])]. *)
Definition location_step (period_start_time timestep_length : Q)
    (raincell_arrival_times raincell_end_times raincell_intensities : array)
    (raincell_x_coords raincell_y_coords raincell_radii : array)
    (point_eastings point_northings point_phi : array)
    (idx : nat) (discrete_rainfall : array2) : result array2 :=
  x <- get point_eastings idx ;;
  y <- get point_northings idx ;;
  let yi := idx in
  distances_from_raincell_centres <-
    distances_from x y raincell_x_coords raincell_y_coords ;;
  spatial_mask <- map2 Qle_bool distances_from_raincell_centres raincell_radii ;;
  arrivals <- mask_select spatial_mask raincell_arrival_times ;;
  ends <- mask_select spatial_mask raincell_end_times ;;
  intensities <- mask_select spatial_mask raincell_intensities ;;
  view <- column discrete_rainfall yi ;;
  view' <- discretise_point period_start_time timestep_length
             arrivals ends intensities view ;;
  phi <- get point_phi idx ;;
  Ok (set_column discrete_rainfall yi (map (fun v => v * phi) view')).

Fixpoint location_loop (period_start_time timestep_length : Q)
    (raincell_arrival_times raincell_end_times raincell_intensities : array)
    (raincell_x_coords raincell_y_coords raincell_radii : array)
    (point_eastings point_northings point_phi : array)
    (idxs : list nat) (discrete_rainfall : array2) : result array2 :=
  match idxs with
  | [] => Ok discrete_rainfall
  | idx :: rest =>
      dr <- location_step period_start_time timestep_length
              raincell_arrival_times raincell_end_times raincell_intensities
              raincell_x_coords raincell_y_coords raincell_radii
              point_eastings point_northings point_phi idx discrete_rainfall ;;
      location_loop period_start_time timestep_length
        raincell_arrival_times raincell_end_times raincell_intensities
        raincell_x_coords raincell_y_coords raincell_radii
        point_eastings point_northings point_phi rest dr
  end.

Definition discretise_spatial (period_start_time timestep_length : Q)
    (raincell_arrival_times raincell_end_times raincell_intensities : array)
    (discrete_rainfall : array2)
    (raincell_x_coords raincell_y_coords raincell_radii : array)
    (point_eastings point_northings point_phi : array) : result array2 :=
  location_loop period_start_time timestep_length
    raincell_arrival_times raincell_end_times raincell_intensities
    raincell_x_coords raincell_y_coords raincell_radii
    point_eastings point_northings point_phi
    (seq 0 (length point_eastings)) (fill2 discrete_rainfall).

End Spatial.

(** ** Calling the kernel from Python *)

(** The values that the month loop passes to the kernel. *)
Inductive value : Type :=
| VFloat (x : Q)
| VArray (a : array).

(** A call of [discretise_point] with a list of positional arguments: the
    arguments are bound to the six parameters of the definition (two scalars
    and four arrays); any other argument list is rejected with [TypeError]
    before the body runs. *)
Definition discretise_point_call (args : list value) : result array :=
  match args with
  | [VFloat period_start_time; VFloat timestep_length;
     VArray raincell_arrival_times; VArray raincell_end_times;
     VArray raincell_intensities; VArray discrete_rainfall] =>
      discretise_point period_start_time timestep_length
        raincell_arrival_times raincell_end_times raincell_intensities
        discrete_rainfall
  | _ => Raise TypeError
  end.

(** ** The month loop of [discretise_by_point], non-spatial model,
       [output_types = ['point']] *)

(** A row of [datetime_helper]; [n_timesteps] is the number of rows of
    [datetimes] that fall in the month. *)
Record month_row : Type := mkMonth {
  year : Z;
  month : Z;
  n_timesteps : nat;
  start_time : Q;
  end_time : Q
}.

(** The columns of the raincell table [df] used by the non-spatial model. *)
Record raincell_table : Type := mkTable {
  raincell_arrival : array;
  raincell_end : array;
  raincell_intensity : array
}.

(** [x < y] on rationals, as a boolean. *)
Definition Qlt_bool (x y : Q) : bool := negb (Qle_bool y x).

(** One iteration of [for month_idx in range(datetime_helper.shape[0])].
    The state is the accumulation buffer [discrete_rainfall['point']] and the
    staged series [output_arrays[('point', 1, realisation_id)]]
    (the conversion to float16 is not modelled). *)
Definition month_step (df : raincell_table) (timestep_length : Q)
    (month_idx : nat) (row : month_row)
    (st : array2 * array) : result (array2 * array) :=
  let '(discrete_rainfall, output_arrays) := st in
  temporal_mask <-
    map2 (fun a e => Qlt_bool a (end_time row) && Qlt_bool (start_time row) e)
      (raincell_arrival df) (raincell_end df) ;;
  raincell_arrival_times <- mask_select temporal_mask (raincell_arrival df) ;;
  raincell_end_times <- mask_select temporal_mask (raincell_end df) ;;
  raincell_intensities <- mask_select temporal_mask (raincell_intensity df) ;;
  view <- column discrete_rainfall 0 ;;
  view' <- discretise_point_call
             [VFloat (start_time row); VFloat (end_time row);
              VFloat timestep_length; VArray raincell_arrival_times;
              VArray raincell_end_times; VArray raincell_intensities;
              VArray view] ;;
  let discrete_rainfall' := set_column discrete_rainfall 0 view' in
  let timesteps_in_month := n_timesteps row in
  output_array <- column_of (firstn timesteps_in_month (rows discrete_rainfall')) 0 ;;
  Ok (discrete_rainfall',
      match month_idx with
      | O => output_array
      | S _ => output_arrays ++ output_array
      end).

Fixpoint month_loop (df : raincell_table) (timestep_length : Q)
    (month_idx : nat) (datetime_helper : list month_row)
    (st : array2 * array) : result (array2 * array) :=
  match datetime_helper with
  | [] => Ok st
  | row :: rest =>
      st' <- month_step df timestep_length month_idx row st ;;
      month_loop df timestep_length (S month_idx) rest st'
  end.

(** [discretise_by_point] with [spatial_model = False]: returns the series
    handed to [write_output]. *)
Definition discretise_by_point (datetime_helper : list month_row)
    (df : raincell_table) (timestep_length : Q)
    (discrete_rainfall : array2) : result array :=
  st <- month_loop df timestep_length 0 datetime_helper (discrete_rainfall, []) ;;
  Ok (snd st).

(** ** Catchment averages *)

(** [(row * w).sum()] for a row and a weight vector of one length. *)
Definition dot (row w : array) : Q :=
  asum (map (fun p => fst p * snd p) (combine row w)).

(** [np.average(a, axis=1, weights=w)] for a 2-D [a] and 1-D [w]: the length
    of [w] must be [a.shape[1]] ([ValueError] otherwise), the weights must not
    sum to zero ([ZeroDivisionError]), and each row is averaged as
    [(a * w).sum(axis=1) / w.sum()]. *)
Definition np_average_axis1 (a : array2) (weights : array) : result array :=
  if negb (Nat.eqb (length weights) (ncols a)) then Raise ValueError
  else
    let scl := asum weights in
    if Qeq_bool scl 0 then Raise ZeroDivisionError
    else Ok (map (fun row => dot row weights / scl) (rows a)).

(** The ['catchment'] branch of the output loop of [discretise_by_point]. *)
Definition catchment_output (discrete_rainfall_grid : array2) (weights : array)
    (timesteps_in_month : nat) : result array :=
  catchment_discrete_rainfall <- np_average_axis1 discrete_rainfall_grid weights ;;
  Ok (firstn timesteps_in_month catchment_discrete_rainfall).

(** The weighted mean as the specification words it: points of zero weight
    are left out of both the numerator and the denominator. *)
Definition positive_weight_pairs (row w : array) : list (Q * Q) :=
  filter (fun p => negb (Qeq_bool (snd p) 0)) (combine row w).

Definition weighted_mean_spec (row w : array) : Q :=
  let ps := positive_weight_pairs row w in
  asum (map (fun p => fst p * snd p) ps) / asum (map snd ps).

(** ** Block sizing and block-wise simulation ([simulate_realisation]) *)

(** [l[i:j]] for non-negative [i], [j]. *)
Definition slice {A : Type} (l : list A) (i j : Z) : list A :=
  firstn (Z.to_nat j - Z.to_nat i) (skipn (Z.to_nat i) l).

(** [datetime_helper['n_hours']] *)
Definition n_hours (datetime_helper : list month_row) : list Q :=
  map (fun row => end_time row - start_time row) datetime_helper.

Section Realisation.

(** The state of a NumPy generator, the shared seed sequence and the table
    returned by the raincell generator. *)
Variables rng seed_sequence raincells : Type.

(** [np.random.default_rng(seed_sequence)]: a new generator whose state is
    read off the seed sequence; the seed sequence itself is left as it was
    (only [spawn] advances it, and the source never calls [spawn]). *)
Variable default_rng : seed_sequence -> rng.

(** [nsproc.main(..., month_lengths, ..., rng, ...)]: the table it returns
    (first component) and the generator state it leaves behind (second
    component). *)
Variable nsproc_main : rng -> list Q -> raincells * rng.

(** Whether the [k]-th execution of the [try] block ends in [MemoryError]
    (raised by the generator or by the allocation of the probe buffers). *)
Variable memory_error : nat -> bool.

(** [discretise_by_point] as seen from the block loop: the realisation id,
    the block's rows of [datetime_helper] and the block's raincells. *)
Variable discretise : Z -> list month_row -> raincells -> result unit.

Variable number_of_years : Z.
Variable datetime_helper : list month_row.
Variable seed : seed_sequence.

(** One generator call: the state the generator was handed and the month
    lengths it was asked to simulate. *)
Definition call : Type := (rng * list Q)%type.

Record sizing_state : Type := mkSizing {
  block_size : Z;
  block_id : Z;
  rng_state : rng;
  attempts : nat;
  calls : list call
}.

(** The statements before the sizing loop (lines 440-442). *)
Definition sizing_init : sizing_state :=
  mkSizing (Z.min number_of_years 1000) 0 (default_rng seed) 0 [].

(** One test of the loop condition followed by one iteration of the body;
    [None] when the condition is false and the loop is left. *)
Definition sizing_step (st : sizing_state) : option sizing_state :=
  if (block_id st * block_size st <? number_of_years)%Z then
    let idx1 := (block_id st * block_size st * 12)%Z in
    let idx2 := ((block_id st + 1) * block_size st * 12)%Z in
    let month_lengths := slice (n_hours datetime_helper) idx1 idx2 in
    let log := calls st ++ [(rng_state st, month_lengths)] in
    if memory_error (attempts st) then
      Some (mkSizing (block_size st / 2) 0 (default_rng seed)
              (S (attempts st)) log)
    else
      let dummy1 := nsproc_main (rng_state st) month_lengths in
      Some (mkSizing (block_size st) (block_id st + 1) (snd dummy1)
              (S (attempts st)) log)
  else None.

(** The sizing loop run for at most [fuel] iterations: [Some st] when the
    loop was left in state [st], [None] when it is still running. *)
Fixpoint sizing_loop (fuel : nat) (st : sizing_state) : option sizing_state :=
  match sizing_step st with
  | None => Some st
  | Some st' =>
      match fuel with
      | O => None
      | S fuel' => sizing_loop fuel' st'
      end
  end.

(** The state after exactly [n] iterations, if the loop runs that long. *)
Fixpoint sizing_iter (n : nat) (st : sizing_state) : option sizing_state :=
  match n with
  | O => Some st
  | S n' =>
      match sizing_step st with
      | None => None
      | Some st' => sizing_iter n' st'
      end
  end.

(** The simulation loop (lines 479-509) for a settled block size. *)
Record simulation_state : Type := mkSimulation {
  sim_block_id : Z;
  sim_rng : rng;
  sim_calls : list call;
  sim_blocks : list (list month_row)
}.

Definition simulation_step (realisation_id : Z) (size : Z)
    (st : simulation_state) : option (result simulation_state) :=
  if (sim_block_id st * size <? number_of_years)%Z then
    let idx1 := (sim_block_id st * size * 12)%Z in
    let idx2 := ((sim_block_id st + 1) * size * 12)%Z in
    let month_lengths := slice (n_hours datetime_helper) idx1 idx2 in
    let df := nsproc_main (sim_rng st) month_lengths in
    let block := slice datetime_helper idx1 idx2 in
    Some (_ <- discretise realisation_id block (fst df) ;;
          Ok (mkSimulation (sim_block_id st + 1) (snd df)
                (sim_calls st ++ [(sim_rng st, month_lengths)])
                (sim_blocks st ++ [block])))
  else None.

Fixpoint simulation_loop (fuel : nat) (realisation_id : Z) (size : Z)
    (st : simulation_state) : option (result simulation_state) :=
  match simulation_step realisation_id size st with
  | None => Some (Ok st)
  | Some (Raise e) => Some (Raise e)
  | Some (Ok st') =>
      match fuel with
      | O => None
      | S fuel' => simulation_loop fuel' realisation_id size st'
      end
  end.

(** What one realisation did: the generator calls of the sizing pass, the
    settled block size, and the outcome of the simulation pass. *)
Record realisation_log : Type := mkLog {
  sizing_calls : list call;
  settled_block_size : Z;
  simulation : result simulation_state
}.

(** [simulate_realisation]; [None] when [fuel] iterations were not enough
    for one of its two loops to finish. *)
Definition simulate_realisation (fuel : nat) (realisation_id : Z)
  : option realisation_log :=
  match sizing_loop fuel sizing_init with
  | None => None
  | Some sized =>
      match simulation_loop fuel realisation_id (block_size sized)
              (mkSimulation 0 (default_rng seed) [] []) with
      | None => None
      | Some r => Some (mkLog (calls sized) (block_size sized) r)
      end
  end.

(** The realisation loop of [main]: the same [seed_sequence] object is
    passed to every call. *)
Definition realisation_ids (number_of_realisations : nat) : list Z :=
  map Z.of_nat (seq 1 number_of_realisations).

(** The loop stops at the first realisation that raises or does not
    finish. *)
Fixpoint realisation_loop (fuel : nat) (ids : list Z)
  : list (option realisation_log) :=
  match ids with
  | [] => []
  | realisation_id :: rest =>
      match simulate_realisation fuel realisation_id with
      | None => [None]
      | Some log =>
          match simulation log with
          | Ok _ => Some log :: realisation_loop fuel rest
          | Raise _ => [Some log]
          end
      end
  end.

Definition main (fuel : nat) (number_of_realisations : nat)
  : list (option realisation_log) :=
  realisation_loop fuel (realisation_ids number_of_realisations).

End Realisation.

(** ** Domain bounds ([identify_domain_bounds]) *)

(** The grid descriptor and the point table. *)
Record grid_descriptor : Type := mkGrid {
  xllcorner : Q;
  yllcorner : Q;
  grid_ncols : Z;
  grid_nrows : Z;
  cellsize : Q
}.

Record point_table : Type := mkPoints {
  easting : array;
  northing : array
}.

(** Modelled from the spec: [utils.grid_limits] is not among the sources; the
    grid descriptor gives a lower-left corner, a cell size and row and column
    counts, so the limits are the corner and the corner moved by the extent. *)
Definition grid_limits (grid : grid_descriptor) : Q * Q * Q * Q :=
  (xllcorner grid, yllcorner grid,
   xllcorner grid + inject_Z (grid_ncols grid) * cellsize grid,
   yllcorner grid + inject_Z (grid_nrows grid) * cellsize grid).

(** Modelled from the spec: [utils.round_down] and [utils.round_up] are not
    among the sources; each bound is rounded outward to a multiple of the cell
    size, floor for the minima and ceil for the maxima. *)
Definition round_down (x cell_size : Q) : Q :=
  inject_Z (Qfloor (x / cell_size)) * cell_size.
Definition round_up (x cell_size : Q) : Q :=
  inject_Z (Qceiling (x / cell_size)) * cell_size.

(** [np.min(a)] and [np.max(a)]; an empty array has no minimum. *)
Definition np_min (a : array) : result Q :=
  match a with
  | [] => Raise ValueError
  | x :: a' => Ok (fold_left Qmin a' x)
  end.
Definition np_max (a : array) : result Q :=
  match a with
  | [] => Raise ValueError
  | x :: a' => Ok (fold_left Qmax a' x)
  end.

(** [identify_domain_bounds(grid, cell_size, points)].  The locals [xmin],
    [ymin], [xmax], [ymax] are bound only inside [if points is not None];
    reading them unbound raises [UnboundLocalError]. *)
Definition identify_domain_bounds (grid : option grid_descriptor)
    (cell_size : Q) (points : option point_table) : result (Q * Q * Q * Q) :=
  let grid_lim := option_map grid_limits grid in
  locals <-
    match points with
    | Some pts =>
        points_xmin <- np_min (easting pts) ;;
        points_ymin <- np_min (northing pts) ;;
        points_xmax <- np_max (easting pts) ;;
        points_ymax <- np_max (northing pts) ;;
        match grid_lim with
        | Some (grid_xmin, grid_ymin, grid_xmax, grid_ymax) =>
            Ok (Some (Qmin points_xmin grid_xmin, Qmin points_ymin grid_ymin,
                      Qmax points_xmax grid_xmax, Qmax points_ymax grid_ymax))
        | None => Ok (Some (points_xmin, points_ymin, points_xmax, points_ymax))
        end
    | None => Ok None
    end ;;
  match locals with
  | Some (xmin, ymin, xmax, ymax) =>
      Ok (round_down xmin cell_size, round_down ymin cell_size,
          round_up xmax cell_size, round_up ymax cell_size)
  | None => Raise UnboundLocalError
  end.

(** ** Variogram bins ([make_phi_interpolator], lines 260-276) *)

(** [np.arange(start, stop, step)]: [ceil((stop - start) / step)] values
    [start + k * step]. *)
Definition np_arange (start stop step : Q) : result array :=
  if Qeq_bool step 0 then Raise ZeroDivisionError
  else
    let len := Z.to_nat (Qceiling ((stop - start) / step)) in
    Ok (map (fun k => start + inject_Z (Z.of_nat k) * step) (seq 0 len)).

(** [a[-1] = v] *)
Definition set_last (a : array) (v : Q) : result array :=
  match a with
  | [] => Raise IndexError
  | _ => Ok (removelast a ++ [v])
  end.

(** [bin_edges] as computed from [max_distance] (lines 262-264). *)
Definition bin_edges_of (max_distance : Q) (distance_bins : Z) : result array :=
  let interval := max_distance / inject_Z distance_bins in
  bin_edges <- np_arange 0 (max_distance + (1#10)) interval ;;
  set_last bin_edges (max_distance + (1#10)).

Section Variogram.

(** [np.sqrt] *)
Variable sqrt : Q -> Q.

(** [gstools.vario_estimate(pos, field, bin_edges, return_counts=True)]:
    bin centres, semivariances and pair counts, one of each per bin. *)
Variable vario_estimate :
  point_table -> array -> array -> array * array * list Z.

(** [scipy.spatial.distance.pdist]: the distances of all pairs [i < j]. *)
Fixpoint pdist (pts : list (Q * Q)) : array :=
  match pts with
  | [] => []
  | (x, y) :: rest =>
      map (fun q => sqrt ((x - fst q) ^ 2 + (y - snd q) ^ 2)) rest
      ++ pdist rest
  end.

Definition max_distance_of (df1 : point_table) : result Q :=
  np_max (pdist (combine (easting df1) (northing df1))).

(** Lines 260-276: the bin edges and the variogram points that are kept for
    model fitting. *)
Definition empirical_variogram (df1 : point_table) (field : array)
    (distance_bins : Z) : result (array * array * array) :=
  max_distance <- max_distance_of df1 ;;
  bin_edges <- bin_edges_of max_distance distance_bins ;;
  let '(bin_centres, gamma, counts) := vario_estimate df1 field bin_edges in
  let keep := map (fun c => (0 <? c)%Z) counts in
  bin_centres' <- mask_select keep bin_centres ;;
  gamma' <- mask_select keep gamma ;;
  Ok (bin_edges, bin_centres', gamma').

End Variogram.

(** A square root that is exact on squares of rationals, for evaluating the
    functions above on concrete inputs. *)
Definition Qsqrt_exact (q : Q) : Q :=
  Z.sqrt (Qnum q) # Pos.sqrt (Qden q).

(** ** Notions used to state what the kernels compute *)

(** The length of the intersection of the intervals [[a, e]] and
    [[lo, hi]]. *)
Definition overlap (a e lo hi : Q) : Q := Qmax 0 (Qmin e hi - Qmax a lo).

(** What raincell [idx] leaves in timestep [t]: its intensity times the
    time it is active within the timestep. *)
Definition raincell_share (period_start_time timestep_length : Q)
    (raincell_arrival_times raincell_end_times raincell_intensities : array)
    (t : nat) (idx : nat) : Q :=
  nth idx raincell_intensities 0
  * overlap (nth idx raincell_arrival_times 0 - period_start_time)
      (nth idx raincell_end_times 0 - period_start_time)
      (inject_Z (Z.of_nat t) * timestep_length)
      (inject_Z (Z.of_nat t + 1) * timestep_length).

(** The elements of [l] at the positions where [mask] is true. *)
Definition selected {A : Type} (mask : list bool) (l : list A) : list A :=
  map snd (filter fst (combine mask l)).

(** The raincells that reach the point [(x, y)]: those whose radius is at
    least the distance of their centre from the point. *)
Definition reaches (sqrt : Q -> Q) (x y : Q)
    (raincell_x_coords raincell_y_coords raincell_radii : array) : list bool :=
  map (fun c => Qle_bool (sqrt ((x - fst (fst c)) ^ 2 + (y - snd (fst c)) ^ 2))
                  (snd c))
    (combine (combine raincell_x_coords raincell_y_coords) raincell_radii).


(** ** Grid cell centres ([create_discretisation_metadata_arrays],
       lines 141-158) *)

(** [np.meshgrid(x, y)] followed by [flatten()] of both results: every row
    of [xx] is [x], and row [i] of [yy] repeats [y[i]]. *)
Definition meshgrid_flatten (x y : array) : array * array :=
  (concat (map (fun _ => x) y),
   concat (map (fun yi => map (fun _ => yi) x) y)).

(** The arrays stored under [('grid', 'x')] and [('grid', 'y')]. *)
Definition grid_cell_centres (grid : grid_descriptor) (cell_size : Q)
  : result (array * array) :=
  x <- np_arange (xllcorner grid + cell_size / 2)
         (xllcorner grid + inject_Z (grid_ncols grid) * cell_size)
         cell_size ;;
  y <- np_arange (yllcorner grid + cell_size / 2)
         (yllcorner grid + inject_Z (grid_nrows grid) * cell_size)
         cell_size ;;
  let y := rev y in
  Ok (meshgrid_flatten x y).

(** ** Choosing the interpolator ([make_phi_interpolator]) *)

(** A row of [df1]: a location with known phi. *)
Record calibration_point : Type := mkCalibration {
  cal_easting : Q;
  cal_northing : Q;
  cal_elevation : Q;
  cal_phi : Q
}.

(** The fields of the result of [scipy.stats.linregress] that are read. *)
Record regression : Type := mkRegression {
  slope : Q;
  intercept : Q;
  rvalue : Q;
  pvalue : Q
}.

Inductive covariance_kind : Type := Exponential | Spherical.

Section Interpolator.

Variable sqrt : Q -> Q.

(** [np.log] *)
Variable log : Q -> Q.

(** [scipy.stats.linregress(x, y)] *)
Variable linregress : array -> array -> result regression.

Variable vario_estimate :
  point_table -> array -> array -> array * array * list Z.

(** A [gstools] covariance model after [fit_variogram]. *)
Variable fitted_model : Type.

(** [model.fit_variogram(bin_centres, gamma, nugget=False, return_r2=True)]:
    the fitted model and the coefficient of determination. *)
Variable fit_variogram :
  covariance_kind -> array -> array -> result (fitted_model * Q).

(** [gstools.krige.ExtDrift(model, pos, phi, elevation)] and
    [gstools.krige.Ordinary(model, pos, phi)]. *)
Inductive kriging : Type :=
| ExtDrift (model : fitted_model) (pos : point_table) (cond_val : array)
    (ext_drift : array)
| Ordinary (model : fitted_model) (pos : point_table) (cond_val : array).

(** Lines 231-244.  [log_transformation] is [None] on the path that leaves
    the local unassigned. *)
Definition elevation_dependence (elevation phi : array)
    (include_elevation : bool)
  : result (option regression * option regression * bool * option bool) :=
  if include_elevation then
    untransformed_regression <- linregress elevation phi ;;
    log_transformed_regression <- linregress elevation (map log phi) ;;
    if Qlt_bool (pvalue untransformed_regression) (5 # 100)
       || Qlt_bool (pvalue log_transformed_regression) (5 # 100)
    then
      Ok (Some untransformed_regression, Some log_transformed_regression,
          true,
          Some (negb (Qle_bool (rvalue log_transformed_regression)
                        (rvalue untransformed_regression))))
    else
      Ok (Some untransformed_regression, Some log_transformed_regression,
          false, None)
  else Ok (None, None, false, Some false).

(** Reading a local variable. *)
Definition read_local {A : Type} (v : option A) : result A :=
  match v with
  | Some x => Ok x
  | None => Raise UnboundLocalError
  end.

Definition make_phi_interpolator (df1 : list calibration_point)
    (include_elevation : bool) (distance_bins : Z)
  : result (kriging * bool) :=
  let elevation := map cal_elevation df1 in
  let pos := mkPoints (map cal_easting df1) (map cal_northing df1) in
  locals <- elevation_dependence elevation (map cal_phi df1)
              include_elevation ;;
  let '(untransformed_regression, log_transformed_regression,
        significant_regression, log_transformation) := locals in
  (* lines 247-254 *)
  log_transformation <- read_local log_transformation ;;
  let phi := if log_transformation then map log (map cal_phi df1)
             else map cal_phi df1 in
  let regression_model :=
    if significant_regression then
      if log_transformation then log_transformed_regression
      else untransformed_regression
    else None in
  (* lines 257-258 and 267-276 *)
  field <-
    (if include_elevation && significant_regression then
       regression_model <- read_local regression_model ;;
       Ok (map (fun p => fst p - (snd p * slope regression_model
                                  + intercept regression_model))
             (combine phi elevation))
     else Ok phi) ;;
  variogram <- empirical_variogram sqrt vario_estimate pos field
                 distance_bins ;;
  let '(_, bin_centres, gamma) := variogram in
  (* lines 279-287 *)
  exponential <- fit_variogram Exponential bin_centres gamma ;;
  spherical <- fit_variogram Spherical bin_centres gamma ;;
  let covariance_model :=
    if Qlt_bool (snd spherical) (snd exponential) then fst exponential
    else fst spherical in
  (* lines 290-298 *)
  let phi_interpolator :=
    if include_elevation && significant_regression then
      ExtDrift covariance_model pos phi elevation
    else Ordinary covariance_model pos phi in
  Ok (phi_interpolator, log_transformation).

End Interpolator.

(** ** Set-up and output code: further exceptions, dictionaries *)

(** The set-up and output code also raises [KeyError] and
    [AssertionError]. *)
Inductive py_exn : Type :=
| Builtin (e : exn)
| KeyError
| AssertionError.

Inductive outcome (A : Type) : Type :=
| Return (a : A)
| Throw (e : py_exn).
Arguments Return {A} a.
Arguments Throw {A} e.

Definition and_then {A B : Type} (m : outcome A) (k : A -> outcome B)
  : outcome B :=
  match m with
  | Return a => k a
  | Throw e => Throw e
  end.

Notation "x <~ m ;; k" := (and_then m (fun x => k))
  (at level 61, m at next level, right associativity).

Definition lift {A : Type} (r : result A) : outcome A :=
  match r with
  | Ok a => Return a
  | Raise e => Throw (Builtin e)
  end.

(** A Python [dict] with keys compared by [eqb], in insertion order:
    [d[k]] and [d[k] = v]. *)
Definition lookup {K V : Type} (eqb : K -> K -> bool) (d : list (K * V))
    (k : K) : outcome V :=
  match find (fun kv => eqb k (fst kv)) d with
  | Some kv => Return (snd kv)
  | None => Throw KeyError
  end.

Fixpoint store {K V : Type} (eqb : K -> K -> bool) (d : list (K * V))
    (k : K) (v : V) : list (K * V) :=
  match d with
  | [] => [(k, v)]
  | kv :: d' =>
      if eqb k (fst kv) then (fst kv, v) :: d'
      else kv :: store eqb d' k v
  end.

Section Strings.

Import String Ascii.
Local Open Scope string_scope.

(** A component of a tuple used as a dictionary key, or a location id: a
    string or an integer. *)
Inductive atom : Type :=
| Str (s : string)
| Int (n : Z).

Definition atom_eqb (a b : atom) : bool :=
  match a, b with
  | Str s, Str t => String.eqb s t
  | Int n, Int m => Z.eqb n m
  | _, _ => false
  end.

(** Equality of tuples. *)
Fixpoint key_eqb (k k' : list atom) : bool :=
  match k, k' with
  | [], [] => true
  | a :: r, a' :: r' => atom_eqb a a' && key_eqb r r'
  | _, _ => false
  end.

(** ** Output paths ([make_output_paths], [output_paths_helper]) *)

Definition output_format_extensions : list (string * string) :=
  [("csv", ".csv"); ("csvy", ".csvy"); ("txt", ".txt"); ("netcdf", ".nc")].

(** [str(n)] for an integer [n]. *)
Definition str (n : Z) : string :=
  DecimalString.NilZero.string_of_int (Z.to_int n).

Fixpoint ends_with (c : ascii) (s : string) : bool :=
  match s with
  | EmptyString => false
  | String c' EmptyString => Ascii.eqb c c'
  | String _ s' => ends_with c s'
  end.

(** [os.path.join(a, b)] with POSIX separators. *)
Definition os_path_join (a b : string) : string :=
  if prefix "/" b then b
  else if (a =? "") || ends_with "/"%char a then a ++ b
  else a ++ "/" ++ b.

(** [table['name'].values]; [None] is not subscriptable. *)
Definition names_of (table : option (list atom)) : outcome (list atom) :=
  match table with
  | Some names => Return names
  | None => Throw (Builtin TypeError)
  end.

(** [location_id + s]: an integer cannot be added to a string. *)
Definition add_str (location_id : atom) (s : string) : outcome string :=
  match location_id with
  | Str name => Return (name ++ s)
  | Int _ => Throw (Builtin TypeError)
  end.

(** The loop over [itertools.product(realisation_ids, location_ids)]. *)
Fixpoint output_cases_loop (spatial_model : bool)
    (output_type output_format output_subfolder : string)
    (output_cases : list (Z * atom)) (output_paths : list (list atom * string))
  : outcome (list (list atom * string)) :=
  match output_cases with
  | [] => Return output_paths
  | (realisation_id, location_id) :: rest =>
      output_file_name <~
        (if negb spatial_model then
           extension <~ lookup String.eqb output_format_extensions
                          output_format ;;
           Return ("r" ++ str realisation_id ++ extension)
         else
           stem <~ add_str location_id "_r" ;;
           extension <~ lookup String.eqb output_format_extensions
                          output_format ;;
           Return (stem ++ str realisation_id ++ extension)) ;;
      let output_path_key := [Str output_type; location_id; Int realisation_id] in
      output_cases_loop spatial_model output_type output_format output_subfolder
        rest
        (store key_eqb output_paths output_path_key
           (os_path_join output_subfolder output_file_name))
  end.

(** [output_paths_helper]; the locals [location_ids] and [output_subfolder]
    stay unassigned for an output type other than the three tested. *)
Definition output_paths_helper (spatial_model : bool)
    (output_type output_format output_folder : string)
    (output_subfolders : list (string * string))
    (points catchments : option (list atom)) (realisation_ids : list Z)
  : outcome (list (list atom * string)) :=
  locals <~
    (if output_type =? "point" then
       location_ids <~ (if spatial_model then names_of points
                        else Return [Int 1]) ;;
       subfolder <~ lookup String.eqb output_subfolders "point" ;;
       Return (Some (location_ids, os_path_join output_folder subfolder))
     else if output_type =? "catchment" then
       location_ids <~ names_of catchments ;;
       subfolder <~ lookup String.eqb output_subfolders "catchment" ;;
       Return (Some (location_ids, os_path_join output_folder subfolder))
     else if output_type =? "grid" then
       subfolder <~ lookup String.eqb output_subfolders "grid" ;;
       Return (Some ([Int 1], os_path_join output_folder subfolder))
     else Return None) ;;
  locals <~ lift (read_local locals) ;;
  output_cases_loop spatial_model output_type output_format (snd locals)
    (list_prod realisation_ids (fst locals)) [].

Fixpoint output_types_loop (spatial_model : bool)
    (output_format output_folder : string)
    (output_subfolders : list (string * string))
    (points catchments : option (list atom)) (realisation_ids : list Z)
    (output_types : list string) (output_paths : list (list atom * string))
  : outcome (list (list atom * string)) :=
  match output_types with
  | [] => Return output_paths
  | output_type :: rest =>
      paths <~ output_paths_helper spatial_model output_type
                 (if output_type =? "grid" then "nc" else output_format)
                 output_folder output_subfolders points catchments
                 realisation_ids ;;
      output_types_loop spatial_model output_format output_folder
        output_subfolders points catchments realisation_ids rest
        (fold_left (fun d kv => store key_eqb d (fst kv) (snd kv)) paths
           output_paths)
  end.

Definition make_output_paths (spatial_model : bool)
    (output_types : list string) (output_format output_folder : string)
    (output_subfolders : list (string * string))
    (points catchments : option (list atom)) (realisation_ids : list Z)
  : outcome (list (list atom * string)) :=
  output_types_loop spatial_model output_format output_folder
    output_subfolders points catchments realisation_ids output_types [].

(** ** Writing the series ([write_output]) *)

(** [s.rstrip(c)] for a single character [c]. *)
Fixpoint drop_while {A : Type} (p : A -> bool) (l : list A) : list A :=
  match l with
  | [] => []
  | x :: l' => if p x then drop_while p l' else l
  end.

Definition rstrip (c : ascii) (s : string) : string :=
  string_of_list_ascii
    (rev (drop_while (Ascii.eqb c) (rev (list_ascii_of_string s)))).

Definition newline : string := String "010"%char EmptyString.

(** The files written so far: path and content.  [open(path, 'a')] followed
    by [writelines] of a string appends the string to the file, which is
    created when it does not exist (its folder is taken to exist). *)
Definition file_content (files : list (string * string)) (path : string)
  : string :=
  match find (fun f => String.eqb path (fst f)) files with
  | Some f => snd f
  | None => ""
  end.

Definition append_file (files : list (string * string)) (path text : string)
  : list (string * string) :=
  store String.eqb files path (file_content files path ++ text).

Section WriteOutput.

(** ['%.1f' % value] *)
Variable format_1f : Q -> string.

Definition format_value (value : Q) : string :=
  rstrip "."%char (rstrip "0"%char (format_1f value)).

Fixpoint write_output (output_arrays : list (list atom * array))
    (output_paths : list (list atom * string))
    (files : list (string * string)) : outcome (list (string * string)) :=
  match output_arrays with
  | [] => Return files
  | (output_key, output_array) :: rest =>
      output_path <~ lookup key_eqb output_paths output_key ;;
      let values := map format_value output_array in
      let output_lines := concat newline values in
      write_output rest output_paths
        (append_file files output_path output_lines)
  end.

End WriteOutput.

End Strings.

(** ** Location metadata ([create_discretisation_metadata_arrays],
       [get_phi], [get_catchment_weights]) *)

(** The columns of [points] that are read: names, coordinates and, when the
    table has the column, elevations. *)
Record points_frame : Type := mkFrame {
  frame_names : list atom;
  frame_points : point_table;
  frame_elevation : option array
}.

Section Metadata.

Import String Ascii.
Local Open Scope string_scope.

(** [discretisation_metadata]: tuples of strings and integers as keys,
    arrays as values. *)
Definition metadata : Type := list (list atom * array).

(** [create_discretisation_metadata_arrays(points, grid, cell_size, dem)].
    [dem] is [None] when there is no DEM; otherwise it holds the outcome of
    resampling the DEM to the grid and flattening it (lines 162-176), which
    is not modelled further. *)
Definition create_discretisation_metadata_arrays
    (points : option points_frame) (grid : option grid_descriptor)
    (cell_size : Q) (dem : option (outcome array)) : outcome metadata :=
  let discretisation_metadata : metadata := [] in
  let discretisation_metadata :=
    match points with
    | Some pts =>
        let d := store key_eqb discretisation_metadata
                   [Str "point"; Str "x"] (easting (frame_points pts)) in
        let d := store key_eqb d
                   [Str "point"; Str "y"] (northing (frame_points pts)) in
        match frame_elevation pts with
        | Some z => store key_eqb d [Str "point"; Str "z"] z
        | None => d
        end
    | None => discretisation_metadata
    end in
  match grid with
  | Some g =>
      centres <~ lift (grid_cell_centres g cell_size) ;;
      let d := store key_eqb discretisation_metadata
                 [Str "grid"; Str "x"] (fst centres) in
      let d := store key_eqb d [Str "grid"; Str "y"] (snd centres) in
      match dem with
      | Some resampled =>
          flat_resampled_dem <~ resampled ;;
          Return (store key_eqb d [Str "grid"; Str "z"] flat_resampled_dem)
      | None => Return d
      end
  | None => Return discretisation_metadata
  end.

(** [key in output_types] *)
Definition in_types (output_type : string) (output_types : list string)
  : bool :=
  existsb (String.eqb output_type) output_types.

Section GetPhi.

Variable sqrt : Q -> Q.
Variable log : Q -> Q.
Variable exp : Q -> Q.
Variable linregress : array -> array -> result regression.
Variable vario_estimate :
  point_table -> array -> array -> array * array * list Z.
Variable fitted_model : Type.
Variable fit_variogram :
  covariance_kind -> array -> array -> result (fitted_model * Q).

(** The call of an interpolator on locations, with or without
    [ext_drift]. *)
Variable interpolate :
  kriging fitted_model -> array -> array -> option array -> outcome array.

(** [list(s)] for a set [s] given by its elements: the elements in the
    order in which the set happens to iterate. *)
Variable set_to_list : list string -> list string.

(** The body of the loop over output types in [get_phi]. *)
Definition phi_for_type (dem_present : bool)
    (interpolator : kriging fitted_model) (log_transformation : bool)
    (season : Z) (output_type : string) (discretisation_metadata : metadata)
  : outcome metadata :=
  x <~ lookup key_eqb discretisation_metadata [Str output_type; Str "x"] ;;
  y <~ lookup key_eqb discretisation_metadata [Str output_type; Str "y"] ;;
  interpolated_phi <~
    (if dem_present then
       z <~ lookup key_eqb discretisation_metadata
              [Str output_type; Str "z"] ;;
       interpolate interpolator x y (Some z)
     else interpolate interpolator x y None) ;;
  let key := [Str output_type; Str "phi"; Int season] in
  let d := store key_eqb discretisation_metadata key
             (if log_transformation then map exp interpolated_phi
              else interpolated_phi) in
  current <~ lookup key_eqb d key ;;
  Return (store key_eqb d key
            (map (fun v => if Qlt_bool v 0 then 0 else v) current)).

Fixpoint phi_types_loop (dem_present : bool)
    (interpolator : kriging fitted_model) (log_transformation : bool)
    (season : Z) (output_types : list string)
    (discretisation_metadata : metadata) : outcome metadata :=
  match output_types with
  | [] => Return discretisation_metadata
  | output_type :: rest =>
      d <~ phi_for_type dem_present interpolator log_transformation season
             output_type discretisation_metadata ;;
      phi_types_loop dem_present interpolator log_transformation season rest d
  end.

(** [get_phi(unique_seasons, dem, phi, output_types,
    discretisation_metadata)]; [phi] is the table of known phi, a season
    and a calibration point in each row. *)
Fixpoint get_phi (unique_seasons : list Z) (dem_present : bool)
    (phi : list (Z * calibration_point)) (output_types : list string)
    (discretisation_metadata : metadata) : outcome metadata :=
  match unique_seasons with
  | [] => Return discretisation_metadata
  | season :: rest =>
      let df1 := map snd (filter (fun row => Z.eqb (fst row) season) phi) in
      made <~ lift (make_phi_interpolator sqrt log linregress vario_estimate
                      fitted_model fit_variogram df1 dem_present 7) ;;
      d <~ phi_types_loop dem_present (fst made) (snd made) season
             (set_to_list
                (filter (fun t => in_types t output_types) ["point"; "grid"]))
             discretisation_metadata ;;
      get_phi rest dem_present phi output_types d
  end.

End GetPhi.

(** [a == b] for one-dimensional arrays: elementwise, a one-element array
    being broadcast; [None] for shapes that cannot be broadcast, where the
    comparison gives the scalar [False]. *)
Definition np_equal (a b : array) : option (list bool) :=
  if Nat.eqb (List.length a) (List.length b) then
    Some (map (fun p => Qeq_bool (fst p) (snd p)) (combine a b))
  else
    match a, b with
    | [x], _ => Some (map (fun v => Qeq_bool x v) b)
    | _, [y] => Some (map (fun v => Qeq_bool v y) a)
    | _, _ => None
    end.

(** [assert np.min(a == b) == 1] *)
Definition assert_same (a b : array) : outcome unit :=
  match np_equal a b with
  | None => Throw AssertionError
  | Some [] => Throw (Builtin ValueError)
  | Some m => if forallb (fun v => v) m then Return tt
              else Throw AssertionError
  end.

(** The first loop of [get_catchment_weights], over
    [catchment_points.items()]: catchment id and the arrays [x], [y],
    [weight]. *)
Fixpoint catchment_weights_loop
    (catchment_points : list (atom * (array * array * array)))
    (discretisation_metadata : metadata) : outcome metadata :=
  match catchment_points with
  | [] => Return discretisation_metadata
  | (catchment_id, (x, y, weight)) :: rest =>
      grid_x <~ lookup key_eqb discretisation_metadata
                  [Str "grid"; Str "x"] ;;
      _ <~ assert_same x grid_x ;;
      grid_y <~ lookup key_eqb discretisation_metadata
                  [Str "grid"; Str "y"] ;;
      _ <~ assert_same y grid_y ;;
      catchment_weights_loop rest
        (store key_eqb discretisation_metadata
           [Str "catchment"; Str "weights"; catchment_id] weight)
  end.

(** [mask[index == 1] = 1] for boolean arrays: the index must have the
    length of the mask. *)
Definition set_where (mask index : list bool) : outcome (list bool) :=
  if Nat.eqb (List.length index) (List.length mask) then
    Return (map (fun p => fst p || snd p) (combine mask index))
  else Throw (Builtin IndexError).

(** The loop that builds [catchment_mask], over
    [catchment_points.keys()]. *)
Fixpoint catchment_mask_loop (catchment_ids : list atom)
    (discretisation_metadata : metadata) (catchment_mask : list bool)
  : outcome (list bool) :=
  match catchment_ids with
  | [] => Return catchment_mask
  | catchment_id :: rest =>
      weights <~ lookup key_eqb discretisation_metadata
                   [Str "catchment"; Str "weights"; catchment_id] ;;
      let subcatchment_mask := map (fun w => Qlt_bool 0 w) weights in
      catchment_mask' <~ set_where catchment_mask subcatchment_mask ;;
      catchment_mask_loop rest discretisation_metadata catchment_mask'
  end.

(** [d[key] = d[key][catchment_mask]] *)
Definition subset_entry (key : list atom) (catchment_mask : list bool)
    (discretisation_metadata : metadata) : outcome metadata :=
  values <~ lookup key_eqb discretisation_metadata key ;;
  subset <~ lift (mask_select catchment_mask values) ;;
  Return (store key_eqb discretisation_metadata key subset).

Fixpoint subset_entries (keys : list (list atom)) (catchment_mask : list bool)
    (discretisation_metadata : metadata) : outcome metadata :=
  match keys with
  | [] => Return discretisation_metadata
  | key :: rest =>
      d <~ subset_entry key catchment_mask discretisation_metadata ;;
      subset_entries rest catchment_mask d
  end.

(** [get_catchment_weights]; [catchment_points] is the outcome of the calls
    of [utils.grid_limits] and [utils.catchment_weights] (lines 310-314). *)
Definition get_catchment_weights
    (catchment_points : outcome (list (atom * (array * array * array))))
    (discretisation_metadata : metadata) (output_types : list string)
    (dem_present : bool) (unique_seasons : list Z) : outcome metadata :=
  catchment_points <~ catchment_points ;;
  d <~ catchment_weights_loop catchment_points discretisation_metadata ;;
  if in_types "catchment" output_types && negb (in_types "grid" output_types)
  then
    grid_x <~ lookup key_eqb d [Str "grid"; Str "x"] ;;
    catchment_mask <~ catchment_mask_loop (map fst catchment_points) d
                        (repeat false (List.length grid_x)) ;;
    d <~ subset_entry [Str "grid"; Str "x"] catchment_mask d ;;
    d <~ subset_entry [Str "grid"; Str "y"] catchment_mask d ;;
    d <~ (if dem_present
          then subset_entry [Str "grid"; Str "z"] catchment_mask d
          else Return d) ;;
    d <~ subset_entries
           (map (fun c => [Str "catchment"; Str "weights"; fst c])
              catchment_points)
           catchment_mask d ;;
    subset_entries
      (map (fun season => [Str "grid"; Str "phi"; Int season]) unique_seasons)
      catchment_mask d
  else Return d.

(** The statements of [main] before the realisation loop (lines 39-75).
    [unique_seasons] is the value of [utils.identify_unique_seasons] and
    [catchment_points] the outcome of the two [utils] calls of
    [get_catchment_weights]. *)
Definition main_preamble (sqrt log exp : Q -> Q)
    (linregress : array -> array -> result regression)
    (vario_estimate : point_table -> array -> array -> array * array * list Z)
    (fitted_model : Type)
    (fit_variogram :
       covariance_kind -> array -> array -> result (fitted_model * Q))
    (interpolate :
       kriging fitted_model -> array -> array -> option array -> outcome array)
    (set_to_list : list string -> list string)
    (spatial_model : bool) (output_types : list string)
    (output_folder : string) (output_subfolders : list (string * string))
    (output_format : string) (unique_seasons : list Z)
    (points : option points_frame) (catchment_names : option (list atom))
    (catchment_points : outcome (list (atom * (array * array * array))))
    (grid : option grid_descriptor) (cell_size : Q)
    (dem : option (outcome array)) (phi : list (Z * calibration_point))
    (number_of_realisations : nat)
  : outcome (list (list atom * string)
             * option (Q * Q * Q * Q * metadata)) :=
  let realisation_ids := realisation_ids number_of_realisations in
  output_paths <~ make_output_paths spatial_model output_types output_format
                    output_folder output_subfolders
                    (option_map frame_names points) catchment_names
                    realisation_ids ;;
  if spatial_model then
    bounds <~ lift (identify_domain_bounds grid cell_size
                      (option_map frame_points points)) ;;
    let dem_present := match dem with Some _ => true | None => false end in
    d <~ create_discretisation_metadata_arrays points grid cell_size dem ;;
    d <~ get_phi sqrt log exp linregress vario_estimate fitted_model
           fit_variogram interpolate set_to_list unique_seasons dem_present
           phi output_types d ;;
    d <~ (if in_types "catchment" output_types
          then get_catchment_weights catchment_points d output_types
                 dem_present unique_seasons
          else Return d) ;;
    Return (output_paths, Some (bounds, d))
  else Return (output_paths, None).

End Metadata.

(** ** Notions used to state what the path table holds *)

Section PathNotions.

Import String Ascii.
Local Open Scope string_scope.

(** The file name of a location and a realisation: [r<id><ext>] in the
    point model, [<name>_r<id><ext>] in the spatial model. *)
Definition expected_file_name (spatial_model : bool) (location_id : atom)
    (realisation_id : Z) (extension : string) : string :=
  if spatial_model then
    match location_id with
    | Str name => name ++ "_r" ++ str realisation_id ++ extension
    | Int _ => ""
    end
  else "r" ++ str realisation_id ++ extension.

(** The location ids of an output type other than ['grid']. *)
Definition location_ids_of (spatial_model : bool) (output_type : string)
    (points catchments : option (list atom)) : list atom :=
  if output_type =? "point" then
    if spatial_model then match points with Some names => names | None => [] end
    else [Int 1]
  else if output_type =? "catchment" then
    match catchments with Some names => names | None => [] end
  else [].

(** The path that belongs to a key of the path table. *)
Definition expected_path (spatial_model : bool) (output_folder : string)
    (output_subfolders : list (string * string)) (extension : string)
    (key : list atom) : string :=
  match key with
  | [Str output_type; location_id; Int realisation_id] =>
      os_path_join
        (os_path_join output_folder
           match lookup String.eqb output_subfolders output_type with
           | Return subfolder => subfolder
           | Throw _ => ""
           end)
        (expected_file_name spatial_model location_id realisation_id extension)
  | _ => ""
  end.

End PathNotions.

(** ** The month loop of [discretise_by_point] in the spatial model, up to
       the discretisation (lines 537-574) *)

(** An argument of a call of the spatial kernel. *)
Inductive argument : Type :=
| AFloat (x : Q)
| AArray (a : array)
| AArray2 (m : array2).

(** A call of [discretise_spatial] with a list of positional arguments: the
    arguments are bound to the twelve parameters of the definition; any
    other argument list is rejected with [TypeError] before the body
    runs. *)
Definition discretise_spatial_call (sqrt : Q -> Q) (args : list argument)
  : result array2 :=
  match args with
  | [AFloat period_start_time; AFloat timestep_length;
     AArray raincell_arrival_times; AArray raincell_end_times;
     AArray raincell_intensities; AArray2 discrete_rainfall;
     AArray raincell_x_coords; AArray raincell_y_coords;
     AArray raincell_radii;
     AArray point_eastings; AArray point_northings; AArray point_phi] =>
      discretise_spatial sqrt period_start_time timestep_length
        raincell_arrival_times raincell_end_times raincell_intensities
        discrete_rainfall raincell_x_coords raincell_y_coords raincell_radii
        point_eastings point_northings point_phi
  | _ => Raise TypeError
  end.

(** The columns of the raincell table [df] used by the spatial model. *)
Record spatial_raincell_table : Type := mkSpatialTable {
  temporal_columns : raincell_table;
  raincell_x : array;
  raincell_y : array;
  raincell_radii_column : array
}.

Section SpatialMonth.

Import String Ascii.
Local Open Scope string_scope.

Variable sqrt : Q -> Q.
Variable set_to_list : list string -> list string.

(** The loop [for output_type in _output_types] (lines 562-574); the
    buffers [discrete_rainfall] are a dictionary from ['point'] and
    ['grid'] to two-dimensional arrays. *)
Fixpoint spatial_calls_loop (row : month_row) (season : Z)
    (timestep_length : Q)
    (raincell_arrival_times raincell_end_times raincell_intensities : array)
    (raincell_x_coords raincell_y_coords raincell_radii : array)
    (discretisation_metadata : metadata)
    (output_types : list string) (discrete_rainfall : list (string * array2))
  : outcome (list (string * array2)) :=
  match output_types with
  | [] => Return discrete_rainfall
  | output_type :: rest =>
      let discretisation_case :=
        if output_type =? "catchment" then "grid" else output_type in
      buffer <~ lookup String.eqb discrete_rainfall discretisation_case ;;
      xs <~ lookup key_eqb discretisation_metadata
              [Str discretisation_case; Str "x"] ;;
      ys <~ lookup key_eqb discretisation_metadata
              [Str discretisation_case; Str "y"] ;;
      phi <~ lookup key_eqb discretisation_metadata
               [Str discretisation_case; Str "phi"; Int season] ;;
      buffer' <~ lift (discretise_spatial_call sqrt
                         [AFloat (start_time row); AFloat (end_time row);
                          AFloat timestep_length;
                          AArray raincell_arrival_times;
                          AArray raincell_end_times;
                          AArray raincell_intensities; AArray2 buffer;
                          AArray raincell_x_coords; AArray raincell_y_coords;
                          AArray raincell_radii;
                          AArray xs; AArray ys; AArray phi]) ;;
      spatial_calls_loop row season timestep_length
        raincell_arrival_times raincell_end_times raincell_intensities
        raincell_x_coords raincell_y_coords raincell_radii
        discretisation_metadata rest
        (store String.eqb discrete_rainfall discretisation_case buffer')
  end.

(** One iteration of the month loop from its first statement to the end of
    the loop over output types; [season_definitions] maps months to
    seasons, and [row] holds the values of [datetime_helper] for the month
    (the times are read by label, which is the position of the month in
    the first block). *)
Definition spatial_month_calls (season_definitions : list (Z * Z))
    (df : spatial_raincell_table) (output_types : list string)
    (timestep_length : Q) (discretisation_metadata : metadata)
    (row : month_row) (discrete_rainfall : list (string * array2))
  : outcome (list (string * array2)) :=
  season <~ lookup Z.eqb season_definitions (month row) ;;
  let arrival := raincell_arrival (temporal_columns df) in
  let finish := raincell_end (temporal_columns df) in
  temporal_mask <~
    lift (map2 (fun a e => Qlt_bool a (end_time row)
                           && Qlt_bool (start_time row) e)
            arrival finish) ;;
  raincell_arrival_times <~ lift (mask_select temporal_mask arrival) ;;
  raincell_end_times <~ lift (mask_select temporal_mask finish) ;;
  raincell_intensities <~
    lift (mask_select temporal_mask
            (raincell_intensity (temporal_columns df))) ;;
  raincell_x <~ lift (mask_select temporal_mask (raincell_x df)) ;;
  raincell_y <~ lift (mask_select temporal_mask (raincell_y df)) ;;
  raincell_radii <~
    lift (mask_select temporal_mask (raincell_radii_column df)) ;;
  let _output_types :=
    if in_types "catchment" output_types && in_types "grid" output_types
    then set_to_list
           (filter (fun t => in_types t output_types) ["point"; "catchment"])
    else output_types in
  spatial_calls_loop row season timestep_length
    raincell_arrival_times raincell_end_times raincell_intensities
    raincell_x raincell_y raincell_radii discretisation_metadata
    _output_types discrete_rainfall.

End SpatialMonth.

(** * Properties *)

(** ** Arrays *)

Lemma zeros_length (n : nat) : length (zeros n) = n.
Proof. apply repeat_length. Qed.

Lemma fill0_length (a : array) : length (fill0 a) = length a.
Proof. apply zeros_length. Qed.

Lemma asum_zeros (n : nat) : asum (zeros n) == 0.
Proof.
  induction n as [|n IH]; simpl.
  - reflexivity.
  - fold (zeros n). rewrite IH. ring.
Qed.

Lemma upd_length (a : array) (i : nat) (f : Q -> Q) :
  length (upd a i f) = length a.
Proof.
  revert i; induction a as [|x a IH]; intros [|i]; simpl; auto.
Qed.

Lemma asum_upd_add (a : array) (i : nat) (v : Q) :
  (i < length a)%nat -> asum (upd a i (fun x => x + v)) == asum a + v.
Proof.
  revert i; induction a as [|x a IH]; intros [|i] H; simpl in *; try lia.
  - ring.
  - rewrite IH by lia. ring.
Qed.

Lemma nth_upd_same (a : array) (i : nat) (f : Q -> Q) (d : Q) :
  (i < length a)%nat -> nth i (upd a i f) d = f (nth i a d).
Proof.
  revert i; induction a as [|x a IH]; intros [|i] H; simpl in *; try lia; auto.
  apply IH; lia.
Qed.

Lemma nth_upd_other (a : array) (i j : nat) (f : Q -> Q) (d : Q) :
  i <> j -> nth j (upd a i f) d = nth j a d.
Proof.
  revert i j; induction a as [|x a IH]; intros [|i] [|j] H; simpl; auto; try lia.
Qed.

Lemma nth_zeros (n i : nat) : nth i (zeros n) 0 = 0.
Proof.
  unfold zeros. destruct (Nat.lt_ge_cases i n).
  - apply nth_repeat_lt; assumption.
  - apply nth_overflow. rewrite repeat_length. assumption.
Qed.

(** An in-range non-negative index addresses its own position. *)
Lemma add_at_nonneg (a : array) (i : Z) (v : Q) :
  (0 <= i < shape0 a)%Z ->
  add_at a i v = Ok (upd a (Z.to_nat i) (fun x => x + v)).
Proof.
  intros [H0 H1]. unfold add_at.
  apply Z.leb_le in H0. apply Z.ltb_lt in H1. rewrite H0, H1. reflexivity.
Qed.

(** A negative index within [-n, 0) wraps round to position [n + i]. *)
Lemma add_at_negative (a : array) (i : Z) (v : Q) :
  (- shape0 a <= i < 0)%Z ->
  add_at a i v = Ok (upd a (Z.to_nat (shape0 a + i)) (fun x => x + v)).
Proof.
  intros [H0 H1]. unfold add_at.
  assert (E : (0 <=? i)%Z = false) by (apply Z.leb_gt; assumption).
  rewrite E. simpl.
  apply Z.leb_le in H0. apply Z.ltb_lt in H1. rewrite H0, H1. reflexivity.
Qed.

(** ** Timesteps *)

Section Timesteps.

Variable timestep_length : Q.
Hypothesis timestep_length_pos : 0 < timestep_length.

Lemma timestep_start_le (t : Q) :
  inject_Z (Qfloor (t / timestep_length)) * timestep_length <= t.
Proof.
  assert (N : ~ timestep_length == 0) by lra.
  rewrite <- (Qmult_div_r t timestep_length N) at 2.
  rewrite (Qmult_comm timestep_length).
  apply Qmult_le_compat_r; [apply Qfloor_le | lra].
Qed.

Lemma timestep_end_gt (t : Q) :
  t < inject_Z (Qfloor (t / timestep_length) + 1) * timestep_length.
Proof.
  assert (N : ~ timestep_length == 0) by lra.
  rewrite <- (Qmult_div_r t timestep_length N) at 1.
  rewrite (Qmult_comm timestep_length).
  apply Qmult_lt_r; [assumption | apply Qlt_floor].
Qed.

Lemma timestep_mono (s t : Z) :
  (s <= t)%Z -> inject_Z s * timestep_length <= inject_Z t * timestep_length.
Proof.
  intros H. apply Qmult_le_compat_r; [| lra].
  rewrite <- Zle_Qle. assumption.
Qed.

Lemma timestep_nonneg (t : Q) : 0 <= t -> (0 <= Qfloor (t / timestep_length))%Z.
Proof.
  intros H. change 0%Z with (Qfloor 0). apply Qfloor_resp_le.
  apply Qle_shift_div_l; [assumption | lra].
Qed.

End Timesteps.

(** ** Conservation of depth in the point kernel *)

Section Conservation.

Variable timestep_length : Q.
Hypothesis timestep_length_pos : 0 < timestep_length.

(** Times relative to the period start, and the intensity. *)
Variables rc_arrival_time rc_end_time rc_intensity : Q.
Hypothesis arrival_le_end : rc_arrival_time <= rc_end_time.

Local Notation "'rc_arrival_timestep'" :=
  (Qfloor (rc_arrival_time / timestep_length)).
Local Notation "'rc_end_timestep'" :=
  (Qfloor (rc_end_time / timestep_length)).

(** From timestep [s] on, the loop deposits the depth that falls after
    [max(arrival, start of s)]. *)
Lemma timestep_loop_depth (k : nat) :
  forall (s : Z) (dr : array),
    (rc_arrival_timestep <= s)%Z -> (0 <= s)%Z ->
    (s + Z.of_nat k = rc_end_timestep)%Z ->
    (rc_end_timestep < shape0 dr)%Z ->
    exists dr',
      timestep_loop (S k) s timestep_length
        rc_arrival_time rc_end_time rc_intensity dr = Ok dr'
      /\ length dr' = length dr
      /\ asum dr' ==
         asum dr + rc_intensity
                   * (rc_end_time - Qmax rc_arrival_time (inject_Z s * timestep_length)).
Proof.
  induction k as [|k IH]; intros s dr Hs H0 Hk Hn.
  - (* the last timestep: the raincell ends inside it *)
    assert (s = rc_end_timestep) by lia. subst s.
    cbn [timestep_loop]. rewrite (proj2 (Z.ltb_lt _ _) Hn).
    rewrite add_at_nonneg by lia. cbn [bind].
    eexists; split; [reflexivity | split; [apply upd_length |]].
    rewrite asum_upd_add by (unfold shape0 in Hn; lia).
    pose proof (timestep_end_gt timestep_length timestep_length_pos rc_end_time) as He.
    rewrite (Q.min_l rc_end_time) by lra. reflexivity.
  - (* a timestep before the last: covered up to its end *)
    assert (Hlt : (s < rc_end_timestep)%Z) by lia.
    change (timestep_loop (S (S k)) s timestep_length rc_arrival_time
              rc_end_time rc_intensity dr)
      with (dr1 <- (if (s <? shape0 dr)%Z
                    then add_at dr s
                           (rc_intensity *
                            (Qmin rc_end_time (inject_Z (s + 1) * timestep_length)
                             - Qmax rc_arrival_time (inject_Z s * timestep_length)))
                    else Ok dr) ;;
            timestep_loop (S k) (s + 1) timestep_length rc_arrival_time
              rc_end_time rc_intensity dr1).
    rewrite (proj2 (Z.ltb_lt s (shape0 dr))) by lia.
    rewrite add_at_nonneg by lia. cbn [bind].
    set (dr1 := upd dr (Z.to_nat s) _).
    assert (L1 : length dr1 = length dr) by apply upd_length.
    destruct (IH (s + 1)%Z dr1) as (dr' & E & L & S); try lia.
    { unfold shape0 in *. rewrite L1. assumption. }
    exists dr'. split; [exact E | split; [congruence |]].
    rewrite S. unfold dr1.
    rewrite asum_upd_add by (unfold shape0 in Hn; lia).
    pose proof (timestep_start_le timestep_length timestep_length_pos rc_end_time) as He.
    pose proof (timestep_mono timestep_length timestep_length_pos (s + 1) rc_end_timestep
                  ltac:(lia)) as Hm.
    pose proof (timestep_end_gt timestep_length timestep_length_pos rc_arrival_time) as Ha.
    pose proof (timestep_mono timestep_length timestep_length_pos
                  (rc_arrival_timestep + 1) (s + 1) ltac:(lia)) as Hm'.
    rewrite (Q.min_r rc_end_time) by lra.
    rewrite (Q.max_r rc_arrival_time (inject_Z (s + 1) * timestep_length)) by lra.
    ring.
Qed.

(** The whole range [range(rc_arrival_timestep, rc_end_timestep + 1)]. *)
Lemma timestep_range_depth (dr : array) :
  0 <= rc_arrival_time ->
  (rc_end_timestep < shape0 dr)%Z ->
  exists dr',
    timestep_loop (Z.to_nat (rc_end_timestep + 1 - rc_arrival_timestep))
      rc_arrival_timestep timestep_length
      rc_arrival_time rc_end_time rc_intensity dr = Ok dr'
    /\ length dr' = length dr
    /\ asum dr' == asum dr + rc_intensity * (rc_end_time - rc_arrival_time).
Proof.
  intros Hnn Hn.
  assert (Hle : (rc_arrival_timestep <= rc_end_timestep)%Z).
  { apply Qfloor_resp_le. apply Qmult_le_compat_r; [assumption |].
    apply Qlt_le_weak, Qinv_lt_0_compat, timestep_length_pos. }
  pose proof (timestep_nonneg timestep_length timestep_length_pos _ Hnn) as H0.
  destruct (timestep_loop_depth
              (Z.to_nat (rc_end_timestep - rc_arrival_timestep))
              rc_arrival_timestep dr) as (dr' & E & L & S); try lia.
  exists dr'. split; [| split; [exact L |]].
  - rewrite <- E. f_equal. lia.
  - rewrite S.
    pose proof (timestep_start_le timestep_length timestep_length_pos rc_arrival_time) as Ha.
    rewrite (Q.max_l rc_arrival_time) by lra. reflexivity.
Qed.

(** A raincell inside one timestep deposits all of its depth there. *)
Lemma timestep_single_depth (dr : array) :
  0 <= rc_arrival_time ->
  rc_arrival_timestep = rc_end_timestep ->
  (rc_end_timestep < shape0 dr)%Z ->
  timestep_loop (Z.to_nat (rc_end_timestep + 1 - rc_arrival_timestep))
    rc_arrival_timestep timestep_length
    rc_arrival_time rc_end_time rc_intensity dr
  = Ok (upd dr (Z.to_nat rc_arrival_timestep)
          (fun x => x + rc_intensity
                        * (Qmin rc_end_time
                             (inject_Z (rc_arrival_timestep + 1) * timestep_length)
                           - Qmax rc_arrival_time
                               (inject_Z rc_arrival_timestep * timestep_length)))).
Proof.
  intros Hnn Heq Hn.
  pose proof (timestep_nonneg timestep_length timestep_length_pos _ Hnn) as H0.
  rewrite <- Heq in *.
  replace (Z.to_nat (rc_arrival_timestep + 1 - rc_arrival_timestep)) with 1%nat by lia.
  cbn [timestep_loop]. rewrite (proj2 (Z.ltb_lt _ _) Hn).
  rewrite add_at_nonneg by lia. reflexivity.
Qed.

End Conservation.

Lemma bind_ok_inv {A B : Type} (m : result A) (k : A -> result B) (b : B) :
  bind m k = Ok b -> exists a, m = Ok a /\ k a = Ok b.
Proof. destruct m as [a|e]; simpl; intros H; [eauto | discriminate]. Qed.

Lemma Ok_inj {A : Type} (a b : A) : Ok a = Ok b -> a = b.
Proof. intros H. congruence. Qed.

Lemma bind_ret {A : Type} (m : result A) : bind m (fun a => Ok a) = m.
Proof. destruct m; reflexivity. Qed.

(** The kernel applied to one raincell. *)
Lemma discretise_point_single (period_start_time timestep_length a e i : Q)
    (dr : array) :
  discretise_point period_start_time timestep_length [a] [e] [i] dr
  = timestep_loop
      (Z.to_nat (Qfloor ((e - period_start_time) / timestep_length) + 1
                 - Qfloor ((a - period_start_time) / timestep_length)))
      (Qfloor ((a - period_start_time) / timestep_length)) timestep_length
      (a - period_start_time) (e - period_start_time) i (fill0 dr).
Proof.
  unfold discretise_point. simpl. unfold raincell_step. simpl.
  apply bind_ret.
Qed.

(** C1.  Conservation of depth in [discretise_point].  For a raincell that
    arrives at or after the period start, ends no earlier than it arrives, and
    whose last covering timestep lies inside the output array, the kernel
    returns an array whose entries sum to [intensity * (end - arrival)],
    whatever the (positive) timestep length; when arrival and end fall in the
    same timestep that entry holds exactly [intensity * (end - arrival)] and
    every other entry is zero.  (The sign of the intensity plays no part.) *)
Theorem discretise_point_conserves_depth
    (period_start_time timestep_length arrival end_ intensity : Q)
    (discrete_rainfall : array) :
  0 < timestep_length ->
  period_start_time <= arrival ->
  arrival <= end_ ->
  (Qfloor ((end_ - period_start_time) / timestep_length)
   < shape0 discrete_rainfall)%Z ->
  exists dr',
    discretise_point period_start_time timestep_length
      [arrival] [end_] [intensity] discrete_rainfall = Ok dr'
    /\ length dr' = length discrete_rainfall
    /\ asum dr' == intensity * (end_ - arrival)
    /\ (Qfloor ((arrival - period_start_time) / timestep_length)
        = Qfloor ((end_ - period_start_time) / timestep_length) ->
        forall t : nat,
          nth t dr' 0 ==
          if Nat.eqb t (Z.to_nat (Qfloor ((arrival - period_start_time)
                                          / timestep_length)))
          then intensity * (end_ - arrival) else 0).
Proof.
  intros Hpos Hstart Hle Hn.
  rewrite discretise_point_single.
  assert (Hrel : arrival - period_start_time <= end_ - period_start_time) by lra.
  assert (Hnn : 0 <= arrival - period_start_time) by lra.
  assert (Hn' : (Qfloor ((end_ - period_start_time) / timestep_length)
                 < shape0 (fill0 discrete_rainfall))%Z).
  { unfold shape0 in *. rewrite fill0_length. assumption. }
  destruct (timestep_range_depth timestep_length Hpos
              (arrival - period_start_time) (end_ - period_start_time)
              intensity Hrel (fill0 discrete_rainfall) Hnn Hn')
    as (dr' & E & L & S).
  exists dr'. split; [exact E |]. split; [rewrite L; apply fill0_length |].
  split.
  - rewrite S. unfold fill0. rewrite asum_zeros. ring.
  - intros Hsame t.
    rewrite (timestep_single_depth timestep_length Hpos
               (arrival - period_start_time) (end_ - period_start_time)
               intensity (fill0 discrete_rainfall) Hnn Hsame Hn') in E.
    apply Ok_inj in E. subst dr'.
    pose proof (timestep_nonneg timestep_length Hpos _ Hnn) as H0.
    pose proof (timestep_start_le timestep_length Hpos (arrival - period_start_time)) as Ha.
    pose proof (timestep_end_gt timestep_length Hpos (end_ - period_start_time)) as He.
    rewrite <- Hsame in He.
    destruct (Nat.eqb_spec t
                (Z.to_nat (Qfloor ((arrival - period_start_time) / timestep_length))))
      as [-> | Hne].
    + rewrite nth_upd_same.
      * unfold fill0. rewrite nth_zeros. cbv beta.
        rewrite (Q.min_l (end_ - period_start_time)) by lra.
        rewrite (Q.max_l (arrival - period_start_time)) by lra. ring.
      * unfold shape0 in Hn'. lia.
    + rewrite nth_upd_other by congruence.
      unfold fill0. rewrite nth_zeros. reflexivity.
Qed.

(** The premises of C1 hold for a raincell of a quarter of an hour inside the third
    hourly timestep. *)
Lemma discretise_point_conserves_depth_witness :
  exists dr',
    discretise_point 0 1 [5#2] [11#4] [4] (zeros 5) = Ok dr'
    /\ length dr' = 5%nat
    /\ asum dr' == 4 * ((11#4) - (5#2))
    /\ (Qfloor (((5#2) - 0) / 1) = Qfloor (((11#4) - 0) / 1) ->
        forall t : nat,
          nth t dr' 0 ==
          if Nat.eqb t (Z.to_nat (Qfloor (((5#2) - 0) / 1)))
          then 4 * ((11#4) - (5#2)) else 0).
Proof.
  apply (discretise_point_conserves_depth 0 1 (5#2) (11#4) 4 (zeros 5)).
  - reflexivity.
  - vm_compute; discriminate.
  - vm_compute; discriminate.
  - vm_compute; reflexivity.
Defined.

(** ** Shapes are preserved by the point kernel *)

Lemma add_at_length (a : array) (i : Z) (v : Q) (a' : array) :
  add_at a i v = Ok a' -> length a' = length a.
Proof.
  unfold add_at. intros H.
  destruct ((0 <=? i) && (i <? shape0 a))%Z.
  - apply Ok_inj in H. subst. apply upd_length.
  - destruct ((- shape0 a <=? i) && (i <? 0))%Z; [| discriminate].
    apply Ok_inj in H. subst. apply upd_length.
Qed.

Lemma timestep_loop_length (k : nat) :
  forall (s : Z) (tl a e i : Q) (dr dr' : array),
    timestep_loop k s tl a e i dr = Ok dr' -> length dr' = length dr.
Proof.
  induction k as [|k IH]; intros s tl a e i dr dr' H.
  - apply Ok_inj in H. congruence.
  - simpl in H. apply bind_ok_inv in H. destruct H as (dr1 & H1 & H2).
    apply IH in H2. rewrite H2.
    destruct (s <? shape0 dr)%Z.
    + eapply add_at_length; eassumption.
    + apply Ok_inj in H1. congruence.
Qed.

Lemma raincell_loop_length (ps tl : Q) (arrs ends ints : array) (idxs : list nat) :
  forall dr dr',
    raincell_loop ps tl arrs ends ints idxs dr = Ok dr' ->
    length dr' = length dr.
Proof.
  induction idxs as [|idx idxs IH]; intros dr dr' H; simpl in H.
  - apply Ok_inj in H. congruence.
  - apply bind_ok_inv in H. destruct H as (dr1 & H1 & H2).
    apply IH in H2. rewrite H2. unfold raincell_step in H1.
    apply bind_ok_inv in H1. destruct H1 as (a & _ & H1).
    apply bind_ok_inv in H1. destruct H1 as (e & _ & H1).
    apply bind_ok_inv in H1. destruct H1 as (i & _ & H1).
    eapply timestep_loop_length; eassumption.
Qed.

Lemma discretise_point_length (ps tl : Q) (arrs ends ints dr dr' : array) :
  discretise_point ps tl arrs ends ints dr = Ok dr' -> length dr' = length dr.
Proof.
  unfold discretise_point. intros H.
  apply raincell_loop_length in H. rewrite H. apply fill0_length.
Qed.

(** The kernel zero-fills its output first, so only the length of the array
    it is handed matters. *)
Lemma discretise_point_fills (ps tl : Q) (arrs ends ints dr1 dr2 : array) :
  length dr1 = length dr2 ->
  discretise_point ps tl arrs ends ints dr1
  = discretise_point ps tl arrs ends ints dr2.
Proof. intros H. unfold discretise_point, fill0. rewrite H. reflexivity. Qed.

(** ** The kernel returns, and deposits the depth of every raincell *)

Lemma add_at_returns (a : array) (i : Z) (v : Q) :
  (- shape0 a <= i < shape0 a)%Z -> exists a', add_at a i v = Ok a'.
Proof.
  intros H. destruct (Z.lt_ge_cases i 0).
  - rewrite add_at_negative by lia. eauto.
  - rewrite add_at_nonneg by lia. eauto.
Qed.

(** Every write of the timestep loop is in range when the first timestep is
    no further back than the length of the array. *)
Lemma timestep_loop_returns (k : nat) :
  forall (s : Z) (tl a e i : Q) (dr : array),
    (- shape0 dr <= s)%Z ->
    exists dr', timestep_loop k s tl a e i dr = Ok dr'.
Proof.
  induction k as [|k IH]; intros s tl a e i dr Hs.
  - simpl. eauto.
  - cbn [timestep_loop].
    destruct (s <? shape0 dr)%Z eqn:E.
    + apply Z.ltb_lt in E.
      destruct (add_at_returns dr s
                  (i * (Qmin e (inject_Z (s + 1) * tl) - Qmax a (inject_Z s * tl))))
        as (dr1 & H1); [lia |].
      rewrite H1. cbn [bind]. apply IH.
      apply add_at_length in H1. unfold shape0 in *. lia.
    + cbn [bind]. apply IH. lia.
Qed.

Section TotalDepth.

Variables period_start_time timestep_length : Q.
Hypothesis timestep_length_pos : 0 < timestep_length.
Variables raincell_arrival_times raincell_end_times raincell_intensities : array.

Local Notation "'depth_of' idx" :=
  (raincell_depth raincell_arrival_times raincell_end_times
     raincell_intensities idx) (at level 10).
Local Notation "'placed' n idx" :=
  (well_placed period_start_time timestep_length raincell_arrival_times
     raincell_end_times raincell_intensities n idx)
  (at level 10, n at level 9, idx at level 9).

Lemma get_nth (a : array) (idx : nat) :
  (idx < length a)%nat -> get a idx = Ok (nth idx a 0).
Proof.
  intros H. unfold get. rewrite (nth_error_nth' a 0 H). reflexivity.
Qed.

(** One raincell adds its depth to the sum of the array, whatever the array
    held before. *)
Lemma raincell_step_depth (idx : nat) (dr : array) :
  placed (shape0 dr) idx ->
  exists dr',
    raincell_step period_start_time timestep_length
      raincell_arrival_times raincell_end_times raincell_intensities idx dr
    = Ok dr'
    /\ length dr' = length dr
    /\ asum dr' == asum dr + depth_of idx.
Proof.
  intros (La & Le & Li & Hs & Hae & Hn).
  unfold raincell_step.
  rewrite (get_nth _ _ La), (get_nth _ _ Le), (get_nth _ _ Li). cbn [bind].
  destruct (timestep_range_depth timestep_length timestep_length_pos
              (nth idx raincell_arrival_times 0 - period_start_time)
              (nth idx raincell_end_times 0 - period_start_time)
              (nth idx raincell_intensities 0) ltac:(lra) dr ltac:(lra) Hn)
    as (dr' & E & L & S).
  exists dr'. split; [exact E | split; [exact L |]].
  rewrite S. unfold raincell_depth. ring.
Qed.

Lemma raincell_loop_depth (idxs : list nat) :
  forall dr,
    Forall (fun idx => placed (shape0 dr) idx) idxs ->
    exists dr',
      raincell_loop period_start_time timestep_length
        raincell_arrival_times raincell_end_times raincell_intensities idxs dr
      = Ok dr'
      /\ length dr' = length dr
      /\ asum dr' == asum dr + asum (map (fun idx => depth_of idx) idxs).
Proof.
  induction idxs as [|idx idxs IH]; intros dr H.
  - exists dr. simpl. repeat split. ring.
  - inversion H as [|? ? Hidx Hrest]; subst.
    destruct (raincell_step_depth idx dr Hidx) as (dr1 & E1 & L1 & S1).
    destruct (IH dr1) as (dr' & E & L & S).
    { unfold shape0 in *. rewrite L1. exact Hrest. }
    exists dr'. cbn [raincell_loop]. rewrite E1. cbn [bind].
    split; [exact E | split; [congruence |]].
    rewrite S, S1. simpl. ring.
Qed.

(** The kernel on any number of raincells: the array sums to the total depth
    of the raincells. *)
Lemma discretise_point_total_depth (discrete_rainfall : array) :
  (forall idx, (idx < length raincell_arrival_times)%nat ->
               placed (shape0 discrete_rainfall) idx) ->
  exists dr',
    discretise_point period_start_time timestep_length
      raincell_arrival_times raincell_end_times raincell_intensities
      discrete_rainfall = Ok dr'
    /\ length dr' = length discrete_rainfall
    /\ asum dr' ==
       asum (map (fun idx => depth_of idx)
               (seq 0 (length raincell_arrival_times))).
Proof.
  intros H. unfold discretise_point.
  destruct (raincell_loop_depth (seq 0 (length raincell_arrival_times))
              (fill0 discrete_rainfall)) as (dr' & E & L & S).
  { apply Forall_forall. intros idx Hin. apply in_seq in Hin.
    unfold shape0. rewrite fill0_length. apply H. lia. }
  exists dr'. split; [exact E |]. split; [rewrite L; apply fill0_length |].
  rewrite S. unfold fill0. rewrite asum_zeros. ring.
Qed.

End TotalDepth.

(** ** Columns of the accumulation buffer *)

Lemma get_upd_other (a : array) (i j : nat) (f : Q -> Q) :
  i <> j -> get (upd a i f) j = get a j.
Proof.
  unfold get. revert i j.
  induction a as [|x a IH]; intros [|i] [|j] H; simpl; try lia;
    try reflexivity.
  apply IH. lia.
Qed.

Lemma get_upd_same (a : array) (i : nat) (f : Q -> Q) (x : Q) :
  get a i = Ok x -> get (upd a i f) i = Ok (f x).
Proof.
  unfold get. revert i.
  induction a as [|y a IH]; intros [|i] H; simpl in *; try discriminate.
  - apply Ok_inj in H. congruence.
  - apply IH. assumption.
Qed.

Lemma column_of_length (rs : list array) (yi : nat) :
  forall v, column_of rs yi = Ok v -> length v = length rs.
Proof.
  induction rs as [|row rs IH]; intros v H; simpl in H.
  - apply Ok_inj in H. subst. reflexivity.
  - apply bind_ok_inv in H. destruct H as (x & _ & H).
    apply bind_ok_inv in H. destruct H as (c & Hc & H).
    apply Ok_inj in H. subst. simpl. f_equal. apply IH. assumption.
Qed.

Lemma set_column_of_length (rs : list array) (yi : nat) :
  forall c, length (set_column_of rs yi c) = length rs.
Proof.
  induction rs as [|row rs IH]; intros [|x c]; simpl; auto.
Qed.

Lemma column_of_set_other (rs : list array) (yi yj : nat) :
  yi <> yj ->
  forall c, column_of (set_column_of rs yi c) yj = column_of rs yj.
Proof.
  intros Hne. induction rs as [|row rs IH]; intros [|x c]; simpl; auto.
  rewrite get_upd_other by assumption. rewrite IH. reflexivity.
Qed.

Lemma column_of_set_same (rs : list array) (yi : nat) :
  forall v c,
    column_of rs yi = Ok v -> length c = length rs ->
    column_of (set_column_of rs yi c) yi = Ok c.
Proof.
  induction rs as [|row rs IH]; intros v [|x c] H L; simpl in *; try discriminate.
  - reflexivity.
  - apply bind_ok_inv in H. destruct H as (x0 & Hx & H).
    apply bind_ok_inv in H. destruct H as (c0 & Hc & _).
    rewrite (get_upd_same _ _ _ _ Hx). simpl.
    rewrite (IH c0 c Hc) by lia. reflexivity.
Qed.

(** ** Boolean masks *)

Lemma map2_nth_error {A B C : Type} (f : A -> B -> C) :
  forall (a : list A) (b : list B) (r : list C),
    map2 f a b = Ok r ->
    length a = length b /\ length r = length a
    /\ forall j x y, nth_error a j = Some x -> nth_error b j = Some y ->
                     nth_error r j = Some (f x y).
Proof.
  induction a as [|x a IH]; intros [|y b] r H; simpl in H; try discriminate.
  - apply Ok_inj in H. subst. repeat split; auto.
    intros [|j] ? ? H; discriminate.
  - apply bind_ok_inv in H. destruct H as (r' & Hr & H).
    apply Ok_inj in H. subst.
    destruct (IH _ _ Hr) as (L1 & L2 & N). simpl. repeat split; try congruence.
    intros [|j] x0 y0 Hx Hy; simpl in *.
    + congruence.
    + apply N; assumption.
Qed.

Lemma mask_select_none {A : Type} :
  forall (mask : list bool) (l : list A),
    length mask = length l ->
    (forall j, nth_error mask j <> Some true) ->
    mask_select mask l = Ok [].
Proof.
  induction mask as [|b mask IH]; intros [|x l] L H; simpl in *; try discriminate.
  - reflexivity.
  - rewrite IH.
    + destruct b; [| reflexivity]. exfalso. apply (H 0%nat). reflexivity.
    + lia.
    + intros j. apply (H (S j)).
Qed.

Lemma mask_select_length {A : Type} :
  forall (mask : list bool) (l r : list A),
    mask_select mask l = Ok r -> length mask = length l.
Proof.
  induction mask as [|b mask IH]; intros [|x l] r H; simpl in H;
    try discriminate; [reflexivity |].
  apply bind_ok_inv in H. destruct H as (r' & Hr & _).
  simpl. f_equal. eapply IH. eassumption.
Qed.

(** A mask that is true at position [k] only selects the element at [k]. *)
Lemma mask_select_single {A : Type} :
  forall (mask : list bool) (l : list A) (k : nat) (a : A),
    length mask = length l ->
    nth_error l k = Some a ->
    (forall j, nth_error mask j = Some true <-> j = k) ->
    mask_select mask l = Ok [a].
Proof.
  induction mask as [|b mask IH]; intros [|x l] k a L Hk H; simpl in *;
    try discriminate.
  - destruct k; discriminate.
  - destruct k as [|k]; simpl in Hk.
    + assert (b = true).
      { pose proof (proj2 (H 0%nat) eq_refl) as H0. simpl in H0. congruence. }
      subst b. rewrite mask_select_none.
      * simpl. congruence.
      * lia.
      * intros j Hj. pose proof (proj1 (H (S j)) Hj). discriminate.
    + assert (b = false).
      { destruct b; [| reflexivity].
        pose proof (proj1 (H 0%nat) eq_refl). discriminate. }
      subst b. rewrite (IH l k a).
      * reflexivity.
      * lia.
      * assumption.
      * intros j. specialize (H (S j)). simpl in H. rewrite H. lia.
Qed.

(** ** Spatial discretisation at a location covered by one raincell *)

Lemma scale_by_one (phi : Q) (c : array) :
  phi == 1 -> aeq (map (fun v => v * phi) c) c.
Proof.
  intros H. induction c as [|x c IH]; simpl; constructor.
  - rewrite H. ring.
  - exact IH.
Qed.

Section SpatialDegenerate.

Variable sqrt : Q -> Q.
Variables period_start_time timestep_length : Q.
Variables raincell_arrival_times raincell_end_times raincell_intensities : array.
Variables raincell_x_coords raincell_y_coords raincell_radii : array.
Variables point_eastings point_northings point_phi : array.

Local Notation "'loc_step'" :=
  (location_step sqrt period_start_time timestep_length
     raincell_arrival_times raincell_end_times raincell_intensities
     raincell_x_coords raincell_y_coords raincell_radii
     point_eastings point_northings point_phi).
Local Notation "'loc_loop'" :=
  (location_loop sqrt period_start_time timestep_length
     raincell_arrival_times raincell_end_times raincell_intensities
     raincell_x_coords raincell_y_coords raincell_radii
     point_eastings point_northings point_phi).

(** What one location step does, read off its definition. *)
Lemma location_step_inv (idx : nat) (m m' : array2) :
  loc_step idx m = Ok m' ->
  exists x y mask arrivals ends intensities view view' phi,
    get point_eastings idx = Ok x
    /\ get point_northings idx = Ok y
    /\ (dists <- distances_from sqrt x y raincell_x_coords raincell_y_coords ;;
        map2 Qle_bool dists raincell_radii) = Ok mask
    /\ mask_select mask raincell_arrival_times = Ok arrivals
    /\ mask_select mask raincell_end_times = Ok ends
    /\ mask_select mask raincell_intensities = Ok intensities
    /\ column m idx = Ok view
    /\ discretise_point period_start_time timestep_length
         arrivals ends intensities view = Ok view'
    /\ get point_phi idx = Ok phi
    /\ m' = set_column m idx (map (fun v => v * phi) view').
Proof.
  unfold location_step. intros H.
  apply bind_ok_inv in H. destruct H as (x & Hx & H).
  apply bind_ok_inv in H. destruct H as (y & Hy & H).
  apply bind_ok_inv in H. destruct H as (dists & Hd & H).
  apply bind_ok_inv in H. destruct H as (mask & Hm & H).
  apply bind_ok_inv in H. destruct H as (arrivals & Ha & H).
  apply bind_ok_inv in H. destruct H as (ends & He & H).
  apply bind_ok_inv in H. destruct H as (intensities & Hi & H).
  apply bind_ok_inv in H. destruct H as (view & Hv & H).
  apply bind_ok_inv in H. destruct H as (view' & Hv' & H).
  apply bind_ok_inv in H. destruct H as (phi & Hp & H).
  apply Ok_inj in H.
  exists x, y, mask, arrivals, ends, intensities, view, view', phi.
  rewrite Hd. simpl. repeat split; auto.
Qed.

Lemma location_step_nrows (idx : nat) (m m' : array2) :
  loc_step idx m = Ok m' -> length (rows m') = length (rows m).
Proof.
  intros H. apply location_step_inv in H.
  destruct H as (x & y & mask & a & e & i & v & v' & phi & H).
  destruct H as (_ & _ & _ & _ & _ & _ & _ & _ & _ & ->).
  simpl. apply set_column_of_length.
Qed.

Lemma location_step_other (idx j : nat) (m m' : array2) :
  loc_step idx m = Ok m' -> idx <> j -> column m' j = column m j.
Proof.
  intros H Hne. apply location_step_inv in H.
  destruct H as (x & y & mask & a & e & i & v & v' & phi & H).
  destruct H as (_ & _ & _ & _ & _ & _ & _ & _ & _ & ->).
  unfold column. simpl. apply column_of_set_other. assumption.
Qed.

Lemma location_loop_app (l1 l2 : list nat) :
  forall m, loc_loop (l1 ++ l2) m = (m1 <- loc_loop l1 m ;; loc_loop l2 m1).
Proof.
  induction l1 as [|idx l1 IH]; intros m; simpl.
  - reflexivity.
  - destruct (loc_step idx m) as [m1|e]; simpl; [apply IH | reflexivity].
Qed.

Lemma location_loop_nrows (idxs : list nat) :
  forall m m', loc_loop idxs m = Ok m' -> length (rows m') = length (rows m).
Proof.
  induction idxs as [|idx idxs IH]; intros m m' H; simpl in H.
  - apply Ok_inj in H. congruence.
  - apply bind_ok_inv in H. destruct H as (m1 & H1 & H2).
    apply IH in H2. apply location_step_nrows in H1. congruence.
Qed.

Lemma location_loop_other (idxs : list nat) (j : nat) :
  ~ In j idxs ->
  forall m m', loc_loop idxs m = Ok m' -> column m' j = column m j.
Proof.
  induction idxs as [|idx idxs IH]; intros Hj m m' H; simpl in H.
  - apply Ok_inj in H. congruence.
  - apply bind_ok_inv in H. destruct H as (m1 & H1 & H2).
    rewrite (IH (fun Hin => Hj (or_intror Hin)) _ _ H2).
    eapply location_step_other; [eassumption |].
    intros ->. apply Hj. left. reflexivity.
Qed.

(** The location and the single raincell that reaches it. *)
Variables idx k : nat.
Variables x y phi a e i : Q.
Hypothesis easting_idx : get point_eastings idx = Ok x.
Hypothesis northing_idx : get point_northings idx = Ok y.
Hypothesis phi_idx : get point_phi idx = Ok phi.
Hypothesis arrival_k : nth_error raincell_arrival_times k = Some a.
Hypothesis end_k : nth_error raincell_end_times k = Some e.
Hypothesis intensity_k : nth_error raincell_intensities k = Some i.
Hypothesis one_active :
  forall j cx cy r,
    nth_error raincell_x_coords j = Some cx ->
    nth_error raincell_y_coords j = Some cy ->
    nth_error raincell_radii j = Some r ->
    if Nat.eqb j k
    then sqrt ((x - cx) ^ 2 + (y - cy) ^ 2) <= r
    else r < sqrt ((x - cx) ^ 2 + (y - cy) ^ 2).

Lemma spatial_mask_single (mask : list bool) :
  (dists <- distances_from sqrt x y raincell_x_coords raincell_y_coords ;;
   map2 Qle_bool dists raincell_radii) = Ok mask ->
  forall j, (j < length mask)%nat -> nth_error mask j = Some (Nat.eqb j k).
Proof.
  intros H. apply bind_ok_inv in H. destruct H as (dists & Hd & Hm).
  unfold distances_from in Hd.
  apply map2_nth_error in Hd. destruct Hd as (Lxy & Ld & Nd).
  apply map2_nth_error in Hm. destruct Hm as (Ldr & Lm & Nm).
  intros j Hj.
  destruct (nth_error raincell_x_coords j) as [cx|] eqn:Ex.
  2:{ apply nth_error_None in Ex. lia. }
  destruct (nth_error raincell_y_coords j) as [cy|] eqn:Ey.
  2:{ apply nth_error_None in Ey. lia. }
  destruct (nth_error raincell_radii j) as [r|] eqn:Er.
  2:{ apply nth_error_None in Er. lia. }
  rewrite (Nm j _ r (Nd j cx cy Ex Ey) Er). f_equal.
  pose proof (one_active j cx cy r Ex Ey Er) as Hact.
  destruct (Nat.eqb j k).
  - apply Qle_bool_iff. assumption.
  - destruct (Qle_bool _ r) eqn:Eb; [| reflexivity].
    apply Qle_bool_iff in Eb. lra.
Qed.

(** At the location, the mask keeps raincell [k] and nothing else. *)
Lemma spatial_select_single {A : Type} (mask : list bool) (l r : list A) (v : A) :
  (dists <- distances_from sqrt x y raincell_x_coords raincell_y_coords ;;
   map2 Qle_bool dists raincell_radii) = Ok mask ->
  nth_error l k = Some v ->
  mask_select mask l = Ok r ->
  r = [v].
Proof.
  intros Hm Hv Hs.
  assert (L : length mask = length l) by (eapply mask_select_length; eassumption).
  assert (Hk : (k < length mask)%nat).
  { rewrite L. apply nth_error_Some. congruence. }
  pose proof (spatial_mask_single mask Hm) as active.
  rewrite (mask_select_single mask l k v L Hv) in Hs.
  - apply Ok_inj in Hs. congruence.
  - intros j. split.
    + intros Hj.
      assert (Hlt : (j < length mask)%nat) by (apply nth_error_Some; congruence).
      rewrite (active j Hlt) in Hj. apply Nat.eqb_eq. congruence.
    + intros ->. rewrite (active k Hk), Nat.eqb_refl. reflexivity.
Qed.

(** The step at the location leaves in its column the point discretisation
    of raincell [k] alone, scaled by the location's phi. *)
Lemma location_step_same (m m' : array2) :
  loc_step idx m = Ok m' ->
  exists c,
    discretise_point period_start_time timestep_length [a] [e] [i]
      (zeros (length (rows m))) = Ok c
    /\ column m' idx = Ok (map (fun v => v * phi) c).
Proof.
  intros H. apply location_step_inv in H.
  destruct H as (x0 & y0 & mask & arrs & ends & ints & view & view' & phi0 & H).
  destruct H as (Hx & Hy & Hm & Ha & He & Hi & Hv & Hv' & Hp & ->).
  rewrite easting_idx in Hx. apply Ok_inj in Hx. subst x0.
  rewrite northing_idx in Hy. apply Ok_inj in Hy. subst y0.
  rewrite phi_idx in Hp. apply Ok_inj in Hp. subst phi0.
  rewrite (spatial_select_single mask _ _ a Hm arrival_k Ha) in Hv'.
  rewrite (spatial_select_single mask _ _ e Hm end_k He) in Hv'.
  rewrite (spatial_select_single mask _ _ i Hm intensity_k Hi) in Hv'.
  exists view'. split.
  - rewrite <- Hv'. apply discretise_point_fills.
    rewrite zeros_length. symmetry. eapply column_of_length. exact Hv.
  - unfold column. simpl. eapply column_of_set_same; [exact Hv |].
    rewrite length_map.
    rewrite (discretise_point_length _ _ _ _ _ _ _ Hv').
    eapply column_of_length. exact Hv.
Qed.

End SpatialDegenerate.

(** C3.  At a location whose phi is 1, reached by exactly one raincell
    (radius at least the distance from its centre) while every other raincell
    stays short of it (radius below the distance), the column that
    [discretise_spatial] leaves for the location is the result of
    [discretise_point] applied to that raincell alone: membership is all or
    nothing, and the column is multiplied by phi after accumulation.  The
    statement holds for any square-root function. *)
Theorem discretise_spatial_single_raincell
    (sqrt : Q -> Q) (period_start_time timestep_length : Q)
    (raincell_arrival_times raincell_end_times raincell_intensities : array)
    (discrete_rainfall : array2)
    (raincell_x_coords raincell_y_coords raincell_radii : array)
    (point_eastings point_northings point_phi : array)
    (idx k : nat) (x y phi a e i : Q) (result_buffer : array2) :
  get point_eastings idx = Ok x ->
  get point_northings idx = Ok y ->
  get point_phi idx = Ok phi ->
  phi == 1 ->
  nth_error raincell_arrival_times k = Some a ->
  nth_error raincell_end_times k = Some e ->
  nth_error raincell_intensities k = Some i ->
  (forall j cx cy r,
      nth_error raincell_x_coords j = Some cx ->
      nth_error raincell_y_coords j = Some cy ->
      nth_error raincell_radii j = Some r ->
      if Nat.eqb j k
      then sqrt ((x - cx) ^ 2 + (y - cy) ^ 2) <= r
      else r < sqrt ((x - cx) ^ 2 + (y - cy) ^ 2)) ->
  discretise_spatial sqrt period_start_time timestep_length
    raincell_arrival_times raincell_end_times raincell_intensities
    discrete_rainfall raincell_x_coords raincell_y_coords raincell_radii
    point_eastings point_northings point_phi = Ok result_buffer ->
  exists point_result col,
    discretise_point period_start_time timestep_length [a] [e] [i]
      (zeros (length (rows discrete_rainfall))) = Ok point_result
    /\ column result_buffer idx = Ok col
    /\ aeq col point_result.
Proof.
  intros Hx Hy Hphi Hone Ha He Hi Hact H.
  unfold discretise_spatial in H.
  assert (Hidx : (idx < length point_eastings)%nat).
  { unfold get in Hx. apply nth_error_Some.
    destruct (nth_error point_eastings idx); [discriminate | discriminate]. }
  replace (length point_eastings)
    with (idx + S (length point_eastings - S idx))%nat in H by lia.
  rewrite seq_app in H. simpl in H.
  rewrite location_loop_app in H.
  apply bind_ok_inv in H. destruct H as (m1 & H1 & H2).
  simpl in H2.
  apply bind_ok_inv in H2. destruct H2 as (m2 & H2 & H3).
  destruct (location_step_same sqrt period_start_time timestep_length
              raincell_arrival_times raincell_end_times raincell_intensities
              raincell_x_coords raincell_y_coords raincell_radii
              point_eastings point_northings point_phi
              idx k x y phi a e i Hx Hy Hphi Ha He Hi Hact m1 m2 H2)
    as (c & Hc & Hcol).
  apply location_loop_nrows in H1.
  exists c, (map (fun v => v * phi) c). split; [| split].
  - rewrite <- Hc. f_equal. f_equal. rewrite H1. simpl. symmetry. apply length_map.
  - transitivity (column m2 idx); [| exact Hcol].
    eapply location_loop_other; [| exact H3].
    rewrite in_seq. lia.
  - apply scale_by_one. assumption.
Qed.

(** The premises of C3 hold for two raincells and two locations: the
    location at (3, 4) lies at distance 5 from the first centre (radius 5)
    and far outside the second. *)
Lemma discretise_spatial_single_raincell_witness :
  exists result_buffer,
    discretise_spatial Qsqrt_exact 0 1 [0; 1] [3#2; 2] [2; 5] (zeros2 3 2)
      [0; 100] [0; 0] [5; 1] [3; 50] [4; 0] [1; 2] = Ok result_buffer
    /\ exists point_result col,
        discretise_point 0 1 [0] [3#2] [2] (zeros 3) = Ok point_result
        /\ column result_buffer 0 = Ok col
        /\ aeq col point_result.
Proof.
  eexists. split; [vm_compute; reflexivity |].
  assert (E : zeros 3 = zeros (length (rows (zeros2 3 2)))) by reflexivity.
  rewrite E.
  eapply (discretise_spatial_single_raincell Qsqrt_exact 0 1
            [0; 1] [3#2; 2] [2; 5] (zeros2 3 2)
            [0; 100] [0; 0] [5; 1] [3; 50] [4; 0] [1; 2]
            0 0 3 4 1 0 (3#2) 2).
  - reflexivity.
  - reflexivity.
  - reflexivity.
  - reflexivity.
  - reflexivity.
  - reflexivity.
  - reflexivity.
  - intros [|[|[|j]]] cx cy r Hx Hy Hr; simpl in Hx, Hy, Hr;
      try discriminate;
      injection Hx as <-; injection Hy as <-; injection Hr as <-;
      vm_compute; first [discriminate | reflexivity].
  - vm_compute. reflexivity.
Defined.

(** ** The month loop and the kernel's parameter list *)

Lemma aeqb_sound (a b : array) : aeqb a b = true -> aeq a b.
Proof.
  revert b; induction a as [|x a IH]; intros [|y b] H; simpl in H;
    try discriminate; constructor.
  - apply Qeq_bool_iff. apply andb_prop in H. tauto.
  - apply IH. apply andb_prop in H. tauto.
Qed.

(** The kernel itself, called with its six arguments, gives the depths of the
    scenario: 2.0 in timestep 0, 1.0 in timestep 1 and nothing later. *)
Lemma discretise_point_scenario :
  exists dr,
    discretise_point 0 1 [0] [3#2] [2] (zeros 744) = Ok dr
    /\ aeq dr (2 :: 1 :: zeros 742).
Proof.
  eexists. split.
  - vm_compute. reflexivity.
  - apply aeqb_sound. vm_compute. reflexivity.
Qed.

(** The month loop passes seven positional arguments (it still passes
    [end_time]) to a kernel that takes six, so the call is rejected. *)
Lemma discretise_point_call_arity (s e tl : Q) (a b c d : array) :
  discretise_point_call
    [VFloat s; VFloat e; VFloat tl; VArray a; VArray b; VArray c; VArray d]
  = Raise TypeError.
Proof. reflexivity. Qed.

(** No iteration of the month loop completes. *)
Lemma month_step_raises (df : raincell_table) (tl : Q) (month_idx : nat)
    (row : month_row) (st : array2 * array) :
  exists e, month_step df tl month_idx row st = Raise e.
Proof.
  destruct st as [dr out]. unfold month_step.
  destruct (map2 _ (raincell_arrival df) (raincell_end df)) as [mask|e1]; simpl;
    [| eauto].
  destruct (mask_select mask (raincell_arrival df)) as [arrs|e2]; simpl; [| eauto].
  destruct (mask_select mask (raincell_end df)) as [ends|e3]; simpl; [| eauto].
  destruct (mask_select mask (raincell_intensity df)) as [ints|e4]; simpl; [| eauto].
  destruct (column dr 0) as [view|e5]; simpl; eauto.
Qed.

(** C2 (what the code does).  On the end-to-end scenario -- one month of
    hourly timesteps, a single raincell with arrival 0, end 1.5 and
    intensity 2 -- the non-spatial path of [discretise_by_point] does not
    produce the array [2.0, 1.0, 0, ...]: the call of the kernel raises
    [TypeError]. *)
Theorem discretise_by_point_scenario_raises :
  discretise_by_point [mkMonth 2000 1 744 0 744] (mkTable [0] [3#2] [2]) 1
    (zeros2 744 1)
  = Raise TypeError.
Proof. vm_compute. reflexivity. Qed.

(** ** Raincells that arrive before the period start *)

(** C10 (what the code does).  Period start 10, hourly timesteps, an output
    array of five timesteps, and a raincell active over [9.5, 10.5] with
    intensity 2, which the caller's overlap filter admits for the period
    [10, 15].  Its arrival timestep is -1; the guard only tests the upper
    bound, so the half hour before the period start is written through index
    -1, that is, into the last timestep of the array. *)
Theorem discretise_point_wraps_negative_timestep :
  Qlt_bool (19#2) 15 && Qlt_bool 10 (21#2) = true
  /\ Qfloor (((19#2) - 10) / 1) = (-1)%Z
  /\ exists dr,
       discretise_point 10 1 [19#2] [21#2] [2] (zeros 5) = Ok dr
       /\ aeq dr [1; 0; 0; 0; 1].
Proof.
  split; [reflexivity |]. split; [reflexivity |].
  eexists. split.
  - vm_compute. reflexivity.
  - apply aeqb_sound. vm_compute. reflexivity.
Qed.

(** Further back than the length of the array, the index is out of range. *)
Lemma discretise_point_negative_out_of_range :
  discretise_point 10 1 [3] [21#2] [2] (zeros 5) = Raise IndexError.
Proof. vm_compute. reflexivity. Qed.

(** ** The sizing loop *)

Lemma slice_length {A : Type} (l : list A) (i j : Z) :
  length (slice l i j)
  = Nat.min (Z.to_nat j - Z.to_nat i) (length l - Z.to_nat i).
Proof. unfold slice. rewrite length_firstn, length_skipn. reflexivity. Qed.

Lemma n_hours_length (datetime_helper : list month_row) :
  length (n_hours datetime_helper) = length datetime_helper.
Proof. apply length_map. Qed.

Section Sizing.

Variables rng seed_sequence raincells : Type.
Variable default_rng : seed_sequence -> rng.
Variable nsproc_main : rng -> list Q -> raincells * rng.
Variable memory_error : nat -> bool.
Variable number_of_years : Z.
Variable datetime_helper : list month_row.
Variable seed : seed_sequence.

Local Notation "'size_step'" :=
  (sizing_step rng seed_sequence raincells default_rng nsproc_main
     memory_error number_of_years datetime_helper seed).
Local Notation "'size_loop'" :=
  (sizing_loop rng seed_sequence raincells default_rng nsproc_main
     memory_error number_of_years datetime_helper seed).
Local Notation "'size_iter'" :=
  (sizing_iter rng seed_sequence raincells default_rng nsproc_main
     memory_error number_of_years datetime_helper seed).

(** A memory failure halves the block size and resets the block counter
    and the generator. *)
Lemma sizing_step_memory_error (st : sizing_state rng) :
  (block_id rng st * block_size rng st < number_of_years)%Z ->
  memory_error (attempts rng st) = true ->
  exists log,
    size_step st
    = Some (mkSizing rng (block_size rng st / 2) 0 (default_rng seed)
              (S (attempts rng st)) log).
Proof.
  intros Hc Hm. unfold sizing_step.
  rewrite (proj2 (Z.ltb_lt _ _) Hc), Hm. eexists. reflexivity.
Qed.

(** A block that fits advances the block counter and keeps the size. *)
Lemma sizing_step_success (st : sizing_state rng) :
  (block_id rng st * block_size rng st < number_of_years)%Z ->
  memory_error (attempts rng st) = false ->
  exists rng' log,
    size_step st
    = Some (mkSizing rng (block_size rng st) (block_id rng st + 1) rng'
              (S (attempts rng st)) log).
Proof.
  intros Hc Hm. unfold sizing_step.
  rewrite (proj2 (Z.ltb_lt _ _) Hc), Hm. eexists. eexists. reflexivity.
Qed.

(** If the loop is left after [n] iterations, any larger fuel finds it. *)
Lemma sizing_loop_of_iter (n : nat) :
  forall st st',
    size_iter n st = Some st' ->
    size_step st' = None ->
    forall fuel, (n <= fuel)%nat -> size_loop fuel st = Some st'.
Proof.
  induction n as [|n IH]; intros st st' Hi Hs fuel Hf; simpl in Hi.
  - apply (f_equal (fun o => match o with Some s => s | None => st end)) in Hi.
    simpl in Hi. subst st'.
    destruct fuel; simpl; rewrite Hs; reflexivity.
  - destruct (size_step st) as [st1|] eqn:E; [| discriminate].
    destruct fuel as [|fuel]; [lia |].
    simpl. rewrite E. apply (IH st1 st' Hi Hs). lia.
Qed.

(** With the block counter at zero the loop condition holds for any block
    size, so a loop whose every attempt fails is never left. *)
Lemma sizing_loop_all_failures (fuel : nat) :
  (0 < number_of_years)%Z ->
  (forall k, memory_error k = true) ->
  forall st, block_id rng st = 0%Z -> size_loop fuel st = None.
Proof.
  intros Hn Hm. induction fuel as [|fuel IH]; intros st Hid.
  - simpl. unfold sizing_step. rewrite Hid. simpl.
    rewrite (proj2 (Z.ltb_lt _ _) Hn), Hm. reflexivity.
  - simpl. unfold sizing_step. rewrite Hid. simpl.
    rewrite (proj2 (Z.ltb_lt _ _) Hn), Hm. apply IH. reflexivity.
Qed.

(** Once the block size is zero the loop condition [block_id * 0 <
    number_of_years] holds whatever the attempts do. *)
Lemma sizing_loop_stuck_at_zero (fuel : nat) :
  (0 < number_of_years)%Z ->
  forall st, block_size rng st = 0%Z -> size_loop fuel st = None.
Proof.
  intros Hn. induction fuel as [|fuel IH]; intros st Hb;
    simpl; unfold sizing_step; rewrite Hb, Z.mul_0_r;
    rewrite (proj2 (Z.ltb_lt _ _) Hn);
    destruct (memory_error (attempts rng st)); try reflexivity;
    apply IH; simpl; auto.
Qed.

End Sizing.

(** The 900-year run whose first three attempts fail: twelve iterations
    leave the loop with block size 112 and nine blocks probed. *)
Lemma sizing_900_years_iter
    (rng seed_sequence raincells : Type) (default_rng : seed_sequence -> rng)
    (nsproc_main : rng -> list Q -> raincells * rng)
    (datetime_helper : list month_row) (seed : seed_sequence) :
  exists st,
    sizing_iter rng seed_sequence raincells default_rng nsproc_main
      (fun k => Nat.ltb k 3) 900 datetime_helper seed 12
      (sizing_init rng seed_sequence default_rng 900 seed) = Some st
    /\ sizing_step rng seed_sequence raincells default_rng nsproc_main
         (fun k => Nat.ltb k 3) 900 datetime_helper seed st = None
    /\ block_size rng st = 112%Z
    /\ map (fun c => length (snd c)) (skipn 3 (calls rng st))
       = map (fun b => length (slice (n_hours datetime_helper)
                                 (b * 112 * 12) ((b + 1) * 112 * 12)))
           [0; 1; 2; 3; 4; 5; 6; 7; 8]%Z.
Proof.
  eexists. split; [| split; [| split]].
  - cbv -[slice n_hours]. reflexivity.
  - reflexivity.
  - reflexivity.
  - reflexivity.
Qed.

(** C4 (as stated).  A 900-year run whose first three attempts fail, with a
    generator that counts its calls: the candidate block size starts at 900,
    not 1000; sizing settles on 112, not 250; and the settled pass probes
    nine blocks of 112, ..., 112 and 4 years, not four blocks of 250, 250,
    250 and 150. *)
Lemma sizing_900_years_counterexample :
  let datetime_helper := repeat (mkMonth 2000 1 744 0 744) (12 * 900) in
  let init := sizing_init nat nat (fun s => s) 900 0%nat in
  block_size nat init = 900%Z
  /\ exists st,
       sizing_loop nat nat unit (fun s => s) (fun r _ => (tt, S r))
         (fun k => Nat.ltb k 3) 900 datetime_helper 0%nat 12 init = Some st
       /\ block_size nat st = 112%Z
       /\ map (fun c => (Z.of_nat (length (snd c)) / 12)%Z) (skipn 3 (calls nat st))
          = [112; 112; 112; 112; 112; 112; 112; 112; 4]%Z
       /\ ~ (block_size nat init = 1000%Z
             /\ block_size nat st = 250%Z
             /\ map (fun c => (Z.of_nat (length (snd c)) / 12)%Z)
                  (skipn 3 (calls nat st))
                = [250; 250; 250; 150]%Z).
Proof.
  cbv zeta. split; [reflexivity |].
  eexists. split; [vm_compute; reflexivity |].
  split; [reflexivity |]. split; [vm_compute; reflexivity |].
  intros (H & _). vm_compute in H. discriminate.
Qed.

(** C4 (amended).  The candidate block size starts at
    [min(number_of_years, 1000)]; an attempt that ends in a memory failure
    halves it (rounding down) and resets the block counter and the
    generator; and for a 900-year run whose first three attempts fail,
    sizing starts at 900 and settles on block size 112, after which the
    sizing pass probes nine blocks covering eight times 112 years and
    once 4 years. *)
Theorem sizing_starts_at_min_and_halves
    (rng seed_sequence raincells : Type) (default_rng : seed_sequence -> rng)
    (nsproc_main : rng -> list Q -> raincells * rng)
    (datetime_helper : list month_row) (seed : seed_sequence) :
  length datetime_helper = (12 * 900)%nat ->
  (forall number_of_years,
      block_size rng (sizing_init rng seed_sequence default_rng number_of_years seed)
      = Z.min number_of_years 1000)
  /\ (forall memory_error number_of_years st,
         (block_id rng st * block_size rng st < number_of_years)%Z ->
         memory_error (attempts rng st) = true ->
         exists log,
           sizing_step rng seed_sequence raincells default_rng nsproc_main
             memory_error number_of_years datetime_helper seed st
           = Some (mkSizing rng (block_size rng st / 2) 0 (default_rng seed)
                     (S (attempts rng st)) log))
  /\ (forall fuel, (12 <= fuel)%nat ->
      exists st,
        sizing_loop rng seed_sequence raincells default_rng nsproc_main
          (fun k => Nat.ltb k 3) 900 datetime_helper seed fuel
          (sizing_init rng seed_sequence default_rng 900 seed) = Some st
        /\ block_size rng st = 112%Z
        /\ map (fun c => (Z.of_nat (length (snd c)) / 12)%Z) (skipn 3 (calls rng st))
           = [112; 112; 112; 112; 112; 112; 112; 112; 4]%Z).
Proof.
  intros Hlen. split; [reflexivity |]. split.
  - intros memory_error number_of_years st Hc Hm.
    eapply sizing_step_memory_error; eassumption.
  - intros fuel Hfuel.
    destruct (sizing_900_years_iter rng seed_sequence raincells default_rng
                nsproc_main datetime_helper seed) as (st & Hi & Hs & Hb & Hl).
    exists st. split; [| split; [exact Hb |]].
    + eapply sizing_loop_of_iter; eassumption.
    + rewrite <- (map_map (fun c => length (snd c))
                    (fun n => (Z.of_nat n / 12)%Z)).
      rewrite Hl. cbn [map].
      rewrite !slice_length, !n_hours_length, Hlen.
      vm_compute. reflexivity.
Qed.

(** The premise of the amended C4 holds for a calendar of 10800 months of
    744 hours and a generator that counts its calls. *)
Lemma sizing_starts_at_min_and_halves_witness :
  exists st,
    sizing_loop nat nat unit (fun s => s) (fun r _ => (tt, S r))
      (fun k => Nat.ltb k 3) 900 (repeat (mkMonth 2000 1 744 0 744) (12 * 900))
      0%nat 12 (sizing_init nat nat (fun s => s) 900 0%nat) = Some st
    /\ block_size nat st = 112%Z
    /\ map (fun c => (Z.of_nat (length (snd c)) / 12)%Z) (skipn 3 (calls nat st))
       = [112; 112; 112; 112; 112; 112; 112; 112; 4]%Z.
Proof.
  apply (sizing_starts_at_min_and_halves nat nat unit (fun s => s)
           (fun r _ => (tt, S r)) (repeat (mkMonth 2000 1 744 0 744) (12 * 900))
           0%nat (repeat_length _ (12 * 900))).
  apply le_n.
Defined.

(** C5 (what the code does).  A one-year run whose first attempt ends in a
    memory failure has block size [floor(1 / 2) = 0] from then on; nothing
    tests for a zero block size, the loop condition [block_id * 0 < 1] stays
    true, and the sizing loop is never left, whatever the later attempts
    do. *)
Theorem sizing_one_year_never_terminates
    (rng seed_sequence raincells : Type) (default_rng : seed_sequence -> rng)
    (nsproc_main : rng -> list Q -> raincells * rng)
    (later_attempts : nat -> bool)
    (datetime_helper : list month_row) (seed : seed_sequence) (fuel : nat) :
  sizing_loop rng seed_sequence raincells default_rng nsproc_main
    (fun k => match k with O => true | S k' => later_attempts k' end)
    1 datetime_helper seed fuel
    (sizing_init rng seed_sequence default_rng 1 seed)
  = None.
Proof.
  destruct fuel as [|fuel]; [reflexivity |].
  cbn [sizing_loop]. unfold sizing_step at 1. cbn.
  apply sizing_loop_stuck_at_zero; [lia | reflexivity].
Qed.

(** With every attempt failing, no run of one year or more leaves the
    sizing loop. *)
Lemma sizing_all_failures_never_terminates
    (rng seed_sequence raincells : Type) (default_rng : seed_sequence -> rng)
    (nsproc_main : rng -> list Q -> raincells * rng)
    (number_of_years : positive)
    (datetime_helper : list month_row) (seed : seed_sequence) (fuel : nat) :
  sizing_loop rng seed_sequence raincells default_rng nsproc_main
    (fun _ => true) (Z.pos number_of_years) datetime_helper seed fuel
    (sizing_init rng seed_sequence default_rng (Z.pos number_of_years) seed)
  = None.
Proof.
  apply sizing_loop_all_failures; [lia | reflexivity | reflexivity].
Qed.

(** ** Random streams of the realisations *)

Section Streams.

Variables rng seed_sequence raincells : Type.
Variable default_rng : seed_sequence -> rng.
Variable nsproc_main : rng -> list Q -> raincells * rng.
Variable memory_error : nat -> bool.
Variable number_of_years : Z.
Variable datetime_helper : list month_row.
Variable seed : seed_sequence.

(** Discretisation uses the realisation id for its output keys only. *)
Variable discretise_block : list month_row -> raincells -> result unit.

Local Notation "'simulate'" :=
  (simulate_realisation rng seed_sequence raincells default_rng nsproc_main
     memory_error (fun _ : Z => discretise_block)
     number_of_years datetime_helper seed).

(** Both passes of one realisation start from the same generator state. *)
Lemma stream_reset_for_both_passes (fuel : nat) (realisation_id : Z)
    (log : realisation_log rng) :
  simulate fuel realisation_id = Some log ->
  rng_state rng (sizing_init rng seed_sequence default_rng number_of_years seed)
  = default_rng seed
  /\ exists sized,
       sizing_loop rng seed_sequence raincells default_rng nsproc_main
         memory_error number_of_years datetime_helper seed fuel
         (sizing_init rng seed_sequence default_rng number_of_years seed)
       = Some sized
       /\ simulation_loop rng raincells nsproc_main
            (fun _ : Z => discretise_block) number_of_years datetime_helper
            fuel realisation_id (block_size rng sized)
            (mkSimulation rng 0 (default_rng seed) [] [])
          = Some (simulation rng log).
Proof.
  unfold simulate_realisation. intros H. split; [reflexivity |].
  destruct (sizing_loop _ _ _ _ _ _ _ _ _ _ _) as [sized|]; [| discriminate].
  exists sized. split; [reflexivity |].
  destruct (simulation_loop _ _ _ _ _ _ _ _ _ _) as [r|]; [| discriminate].
  injection H as <-. reflexivity.
Qed.

Lemma simulation_loop_id_irrelevant (fuel : nat) (r1 r2 : Z) (size : Z) :
  forall st,
    simulation_loop rng raincells nsproc_main (fun _ : Z => discretise_block)
      number_of_years datetime_helper fuel r1 size st
    = simulation_loop rng raincells nsproc_main (fun _ : Z => discretise_block)
        number_of_years datetime_helper fuel r2 size st.
Proof.
  induction fuel as [|fuel IH]; intros st; simpl; unfold simulation_step;
    destruct (sim_block_id rng st * size <? number_of_years)%Z;
    try reflexivity;
    destruct (discretise_block _ _); simpl; auto.
Qed.

End Streams.

(** C6 (what the code does).  The realisation id never reaches the
    generator: every realisation builds its generator with
    [default_rng(seed_sequence)] from the one shared seed sequence, so for
    any two realisation ids the whole record of generator calls -- every
    stream state handed to the raincell generator, in the sizing pass and in
    the simulation pass -- is the same, and the first stream of either pass
    is [default_rng(seed_sequence)]. *)
Theorem realisations_replay_one_stream
    (rng seed_sequence raincells : Type) (default_rng : seed_sequence -> rng)
    (nsproc_main : rng -> list Q -> raincells * rng)
    (memory_error : nat -> bool)
    (discretise_block : list month_row -> raincells -> result unit)
    (number_of_years : Z) (datetime_helper : list month_row)
    (seed : seed_sequence) (fuel : nat) (r1 r2 : Z) :
  simulate_realisation rng seed_sequence raincells default_rng nsproc_main
    memory_error (fun _ : Z => discretise_block)
    number_of_years datetime_helper seed fuel r1
  = simulate_realisation rng seed_sequence raincells default_rng nsproc_main
      memory_error (fun _ : Z => discretise_block)
      number_of_years datetime_helper seed fuel r2
  /\ rng_state rng (sizing_init rng seed_sequence default_rng number_of_years seed)
     = default_rng seed.
Proof.
  split; [| reflexivity].
  unfold simulate_realisation.
  destruct (sizing_loop _ _ _ _ _ _ _ _ _ _ _) as [sized|]; [| reflexivity].
  rewrite (simulation_loop_id_irrelevant rng raincells nsproc_main
             number_of_years datetime_helper discretise_block fuel r1 r2).
  reflexivity.
Qed.

(** Two realisations of a two-year run with a generator whose state is the
    list of calls made on it so far, seeded from 42: both realisations hand
    the generator the same state. *)
Lemma main_two_realisations_same_streams :
  map (option_map (fun log =>
         match simulation (list nat) log with
         | Ok st => map fst (sim_calls (list nat) st)
         | Raise _ => []
         end))
    (main (list nat) nat unit (fun s => [s])
       (fun r months => (tt, length months :: r)) (fun _ => false)
       (fun _ _ _ => Ok tt) 2 (repeat (mkMonth 2000 1 744 0 744) 24) 42%nat
       5 2)
  = [Some [[42%nat]]; Some [[42%nat]]].
Proof. vm_compute. reflexivity. Qed.

(** ** Catchment averages *)

Lemma asum_app (a b : array) : asum (a ++ b) == asum a + asum b.
Proof.
  induction a as [|x a IH]; simpl.
  - ring.
  - rewrite IH. ring.
Qed.

(** Points of zero weight add nothing to the weighted sum. *)
Lemma dot_positive_weights (row w : array) :
  asum (map (fun p => fst p * snd p) (positive_weight_pairs row w)) == dot row w.
Proof.
  unfold dot, positive_weight_pairs.
  induction (combine row w) as [|[x v] ps IH]; simpl.
  - reflexivity.
  - destruct (Qeq_bool v 0) eqn:E; simpl.
    + apply Qeq_bool_iff in E. rewrite IH, E. ring.
    + rewrite IH. reflexivity.
Qed.

(** Nor to the total weight. *)
Lemma total_positive_weights (row w : array) :
  length row = length w ->
  asum (map snd (positive_weight_pairs row w)) == asum w.
Proof.
  unfold positive_weight_pairs.
  revert w; induction row as [|x row IH]; intros [|v w] H; simpl in *;
    try discriminate.
  - reflexivity.
  - destruct (Qeq_bool v 0) eqn:E; simpl.
    + apply Qeq_bool_iff in E. rewrite IH by lia. rewrite E. ring.
    + rewrite IH by lia. reflexivity.
Qed.

Lemma weighted_mean_spec_eq (row w : array) :
  length row = length w ->
  dot row w / asum w == weighted_mean_spec row w.
Proof.
  intros H. unfold weighted_mean_spec.
  rewrite dot_positive_weights, (total_positive_weights row w H). reflexivity.
Qed.

Lemma Forall2_firstn {A B : Type} (R : A -> B -> Prop) (n : nat) :
  forall l l', Forall2 R l l' -> Forall2 R (firstn n l) (firstn n l').
Proof.
  induction n as [|n IH]; intros l l' H; simpl.
  - constructor.
  - destruct H; constructor; auto.
Qed.

(** C7.  For a catchment whose weights are aligned with the grid points, the
    catchment-average computation raises an error exactly when the weights
    sum to zero; otherwise it returns, for each of the month's timesteps, the
    weighted mean of the grid values, in which points of zero weight take no
    part.  (The sign of the weights plays no part: for non-negative weights
    a zero total means that every weight is zero.) *)
Theorem catchment_output_weighted_mean
    (discrete_rainfall_grid : array2) (weights : array)
    (timesteps_in_month : nat) :
  wf_array2 discrete_rainfall_grid ->
  length weights = ncols discrete_rainfall_grid ->
  ((exists e, catchment_output discrete_rainfall_grid weights timesteps_in_month
              = Raise e)
   <-> asum weights == 0)
  /\ (forall out,
        catchment_output discrete_rainfall_grid weights timesteps_in_month
        = Ok out ->
        Forall2 (fun row v => v == weighted_mean_spec row weights)
          (firstn timesteps_in_month (rows discrete_rainfall_grid)) out).
Proof.
  intros Hwf Hlen. unfold catchment_output, np_average_axis1.
  rewrite Hlen, Nat.eqb_refl. simpl.
  destruct (Qeq_bool (asum weights) 0) eqn:E; simpl.
  - apply Qeq_bool_iff in E. split.
    + split; [intros _; exact E | intros _; eexists; reflexivity].
    + intros out H. discriminate.
  - apply Qeq_bool_neq in E. split.
    + split; [intros (e & H); discriminate | intros H; contradiction].
    + intros out H. apply Ok_inj in H. subst out.
      apply Forall2_firstn.
      unfold wf_array2 in Hwf.
      induction (rows discrete_rainfall_grid) as [|row rs IH]; simpl;
        constructor.
      * apply weighted_mean_spec_eq.
        inversion Hwf; subst. congruence.
      * apply IH. inversion Hwf; assumption.
Qed.

(** The premises of C7 hold for a grid of two timesteps and three points of
    which the second has zero weight. *)
Lemma catchment_output_weighted_mean_witness :
  ((exists e, catchment_output (mkArray2 3 [[1; 2; 3]; [4; 5; 6]]) [1; 0; 3] 2
              = Raise e)
   <-> asum [1; 0; 3] == 0)
  /\ (forall out,
        catchment_output (mkArray2 3 [[1; 2; 3]; [4; 5; 6]]) [1; 0; 3] 2 = Ok out ->
        Forall2 (fun row v => v == weighted_mean_spec row [1; 0; 3])
          (firstn 2 (rows (mkArray2 3 [[1; 2; 3]; [4; 5; 6]]))) out).
Proof.
  apply (catchment_output_weighted_mean
           (mkArray2 3 [[1; 2; 3]; [4; 5; 6]]) [1; 0; 3] 2).
  - repeat constructor.
  - reflexivity.
Defined.

(** A catchment all of whose weights are zero. *)
Lemma catchment_output_zero_weights :
  catchment_output (mkArray2 3 [[1; 2; 3]; [4; 5; 6]]) [0; 0; 0] 2
  = Raise ZeroDivisionError.
Proof. reflexivity. Qed.

(** With non-negative weights the total is zero only if every weight is. *)
Lemma asum_nonneg_zero (w : array) :
  Forall (fun v => 0 <= v) w -> asum w == 0 -> Forall (fun v => v == 0) w.
Proof.
  induction 1 as [|v w Hv Hw IH]; simpl; intros Hs; constructor.
  - assert (0 <= asum w).
    { clear -Hw. induction Hw; simpl; lra. }
    lra.
  - apply IH.
    assert (0 <= asum w).
    { clear -Hw. induction Hw; simpl; lra. }
    lra.
Qed.

(** ** Domain bounds *)

(** Rounding is outward and lands on multiples of the cell size. *)
Lemma round_down_le (x cell_size : Q) :
  0 < cell_size -> round_down x cell_size <= x.
Proof. intros H. apply timestep_start_le. assumption. Qed.

Lemma round_up_ge (x cell_size : Q) :
  0 < cell_size -> x <= round_up x cell_size.
Proof.
  intros H. unfold round_up.
  assert (N : ~ cell_size == 0) by lra.
  rewrite <- (Qmult_div_r x cell_size N) at 1.
  rewrite (Qmult_comm cell_size).
  apply Qmult_le_compat_r; [apply Qle_ceiling | lra].
Qed.

(** With a point table the bounds are the rounded extent of the points,
    widened by the grid limits when a grid is given too. *)
Lemma identify_domain_bounds_points (grid : option grid_descriptor)
    (cell_size : Q) (pts : point_table) (x0 y0 : Q) (xs ys : array) :
  easting pts = x0 :: xs -> northing pts = y0 :: ys ->
  identify_domain_bounds grid cell_size (Some pts)
  = let pxmin := fold_left Qmin xs x0 in
    let pymin := fold_left Qmin ys y0 in
    let pxmax := fold_left Qmax xs x0 in
    let pymax := fold_left Qmax ys y0 in
    match grid with
    | Some g =>
        let '(gxmin, gymin, gxmax, gymax) := grid_limits g in
        Ok (round_down (Qmin pxmin gxmin) cell_size,
            round_down (Qmin pymin gymin) cell_size,
            round_up (Qmax pxmax gxmax) cell_size,
            round_up (Qmax pymax gymax) cell_size)
    | None =>
        Ok (round_down pxmin cell_size, round_down pymin cell_size,
            round_up pxmax cell_size, round_up pymax cell_size)
    end.
Proof.
  intros He Hn. unfold identify_domain_bounds. rewrite He, Hn. simpl.
  destruct grid as [g|]; reflexivity.
Qed.

(** C8 (what the code does).  With a grid descriptor and no point table the
    locals [xmin], [ymin], [xmax], [ymax] are never assigned -- the grid
    limits are computed but only used inside [if points is not None] -- and
    the first rounding statement raises [UnboundLocalError] instead of
    returning the grid's rounded limits. *)
Theorem identify_domain_bounds_grid_only
    (grid : grid_descriptor) (cell_size : Q) :
  identify_domain_bounds (Some grid) cell_size None = Raise UnboundLocalError.
Proof. reflexivity. Qed.

(** Neither grid nor points: the same error. *)
Lemma identify_domain_bounds_nothing (cell_size : Q) :
  identify_domain_bounds None cell_size None = Raise UnboundLocalError.
Proof. reflexivity. Qed.

(** A grid of 3 x 2 cells of 1000 m at (500, 250) and two points. *)
Lemma identify_domain_bounds_both :
  exists xmin ymin xmax ymax,
    identify_domain_bounds (Some (mkGrid 500 250 3 2 1000)) 1000
      (Some (mkPoints [1200; 4100] [-300; 900]))
    = Ok (xmin, ymin, xmax, ymax)
    /\ xmin == 0 /\ ymin == -1000 /\ xmax == 5000 /\ ymax == 3000.
Proof.
  eexists; eexists; eexists; eexists. split; [vm_compute; reflexivity |].
  repeat split; reflexivity.
Qed.

(** ** Variogram bins *)

Lemma Qceiling_unique (x : Q) (z : Z) :
  inject_Z (z - 1) < x -> x <= inject_Z z -> Qceiling x = z.
Proof.
  intros Hlo Hhi.
  pose proof (Qle_ceiling x) as H1.
  pose proof (Qceiling_lt x) as H2.
  assert (z - 1 < Qceiling x)%Z by (rewrite Zlt_Qlt; lra).
  assert (Qceiling x - 1 < z)%Z by (rewrite Zlt_Qlt; lra).
  lia.
Qed.

(** For a maximum distance of at least 0.7, [np.arange] yields eight values. *)
Lemma arange_count (max_distance : Q) :
  7 # 10 <= max_distance ->
  Qceiling ((max_distance + (1 # 10) - 0) / (max_distance / inject_Z 7)) = 8%Z.
Proof.
  intros H.
  assert (Hstep : 0 < max_distance / inject_Z 7).
  { apply Qlt_shift_div_l; [reflexivity | lra]. }
  assert (E : max_distance / inject_Z 7 * inject_Z 7 == max_distance).
  { field. }
  apply Qceiling_unique.
  - apply Qlt_shift_div_l; [assumption |].
    change (inject_Z (8 - 1)) with (inject_Z 7).
    rewrite (Qmult_comm (inject_Z 7)). lra.
  - apply Qle_shift_div_r; [assumption |].
    setoid_replace (inject_Z 8 * (max_distance / inject_Z 7))
      with (max_distance / inject_Z 7 * inject_Z 7 + max_distance / inject_Z 7)
      by (change (inject_Z 8) with (inject_Z 7 + 1); ring).
    rewrite E.
    assert (1 # 10 <= max_distance / inject_Z 7).
    { apply Qle_shift_div_l; [reflexivity |]. 
      change ((1 # 10) * inject_Z 7) with ((1 # 10) * 7). lra. }
    lra.
Qed.

(** The bin edges for a maximum distance of at least 0.7. *)
Lemma bin_edges_of_seven (max_distance : Q) :
  7 # 10 <= max_distance ->
  bin_edges_of max_distance 7
  = Ok (map (fun k => 0 + inject_Z (Z.of_nat k) * (max_distance / inject_Z 7))
          (seq 0 7)
        ++ [max_distance + (1 # 10)]).
Proof.
  intros H. unfold bin_edges_of, np_arange.
  assert (Hstep : ~ max_distance / inject_Z 7 == 0).
  { assert (0 < max_distance / inject_Z 7).
    { apply Qlt_shift_div_l; [reflexivity | lra]. }
    lra. }
  destruct (Qeq_bool (max_distance / inject_Z 7) 0) eqn:E.
  - apply Qeq_bool_iff in E. contradiction.
  - rewrite (arange_count max_distance H). reflexivity.
Qed.

Lemma mask_select_filter {A : Type} :
  forall (mask : list bool) (l : list A),
    length mask = length l ->
    mask_select mask l = Ok (map snd (filter fst (combine mask l))).
Proof.
  induction mask as [|b mask IH]; intros [|x l] H; simpl in *; try discriminate.
  - reflexivity.
  - rewrite IH by lia. destruct b; reflexivity.
Qed.

(** C9 (as stated).  Two distinct calibration points 0.35 apart: the edges
    are 0, 0.05, ..., 0.35 and 0.45, nine of them, so the distances are
    binned into eight intervals, not seven, and the pair at the maximum
    distance falls in an eighth bin [0.35, 0.45). *)
Lemma variogram_bins_counterexample :
  exists max_distance bin_edges,
    max_distance_of Qsqrt_exact (mkPoints [0; 7#20] [0; 0]) = Ok max_distance
    /\ max_distance == 7#20
    /\ bin_edges_of max_distance 7 = Ok bin_edges
    /\ length bin_edges = 9%nat
    /\ aeq bin_edges
         [0; 1#20; 2#20; 3#20; 4#20; 5#20; 6#20; 7#20; 9#20]
    /\ length bin_edges <> 8%nat.
Proof.
  eexists. eexists. split; [vm_compute; reflexivity |].
  split; [reflexivity |].
  split; [vm_compute; reflexivity |].
  split; [reflexivity |].
  split; [apply aeqb_sound; vm_compute; reflexivity | discriminate].
Qed.

(** C9 (amended).  For a calibration set whose maximum pairwise distance is
    at least 0.7 (in the units of the coordinates), the pairwise distances
    are binned with eight edges, hence seven intervals: the first seven edges
    are [k * max_distance / 7] for [k = 0 .. 6], the last is
    [max_distance + 0.1] instead of [max_distance]; and of the estimator's
    bins only those with a positive pair count are kept for model fitting. *)
Theorem empirical_variogram_seven_bins
    (sqrt : Q -> Q)
    (vario_estimate : point_table -> array -> array -> array * array * list Z)
    (df1 : point_table) (field : array) (max_distance : Q)
    (bin_centres gamma : array) (counts : list Z) :
  max_distance_of sqrt df1 = Ok max_distance ->
  7 # 10 <= max_distance ->
  let bin_edges :=
    map (fun k => 0 + inject_Z (Z.of_nat k) * (max_distance / inject_Z 7))
      (seq 0 7)
    ++ [max_distance + (1 # 10)] in
  vario_estimate df1 field bin_edges = (bin_centres, gamma, counts) ->
  length bin_centres = length counts ->
  length gamma = length counts ->
  let keep := map (fun c => (0 <? c)%Z) counts in
  bin_edges_of max_distance 7 = Ok bin_edges
  /\ length bin_edges = 8%nat
  /\ inject_Z 7 * (max_distance / inject_Z 7) == max_distance
  /\ empirical_variogram sqrt vario_estimate df1 field 7
     = Ok (bin_edges,
           map snd (filter fst (combine keep bin_centres)),
           map snd (filter fst (combine keep gamma))).
Proof.
  intros Hmax Hge bin_edges Hest Lc Lg keep.
  pose proof (bin_edges_of_seven max_distance Hge) as Hedges.
  fold bin_edges in Hedges.
  split; [exact Hedges |]. split; [reflexivity |]. split; [field |].
  unfold empirical_variogram. rewrite Hmax. cbn [bind].
  rewrite Hedges. cbn [bind]. rewrite Hest. fold keep.
  assert (Lk : length keep = length counts) by apply length_map.
  rewrite (mask_select_filter keep bin_centres) by congruence.
  rewrite (mask_select_filter keep gamma) by congruence.
  reflexivity.
Qed.

(** The premises of the amended C9 hold for two calibration points 5 apart
    and an estimator that reports pairs in the last bin only. *)
Lemma empirical_variogram_seven_bins_witness :
  let est := fun (_ : point_table) (_ _ : array) =>
               ([1; 2; 3; 4; 5; 6; 7], [0; 0; 0; 0; 0; 0; 9],
                [0; 0; 0; 0; 0; 0; 1]%Z) in
  let bin_edges :=
    map (fun k => 0 + inject_Z (Z.of_nat k) * (5 / inject_Z 7)) (seq 0 7)
    ++ [5 + (1 # 10)] in
  bin_edges_of 5 7 = Ok bin_edges
  /\ length bin_edges = 8%nat
  /\ inject_Z 7 * (5 / inject_Z 7) == 5
  /\ empirical_variogram Qsqrt_exact est (mkPoints [0; 3] [0; 4]) [2; 3] 7
     = Ok (bin_edges, [7], [9]).
Proof.
  intros est bin_edges.
  apply (empirical_variogram_seven_bins Qsqrt_exact est
           (mkPoints [0; 3] [0; 4]) [2; 3] 5
           [1; 2; 3; 4; 5; 6; 7] [0; 0; 0; 0; 0; 0; 9] [0; 0; 0; 0; 0; 0; 1]%Z).
  - reflexivity.
  - vm_compute. discriminate.
  - reflexivity.
  - reflexivity.
  - reflexivity.
Defined.

(** ** The kernels return *)

Lemma raincell_loop_returns (ps tl : Q) (arrs ends ints : array) (idxs : list nat) :
  forall dr,
    Forall (fun idx => (idx < length arrs)%nat /\ (idx < length ends)%nat
                       /\ (idx < length ints)%nat
                       /\ (- shape0 dr <= Qfloor ((nth idx arrs 0%Q - ps) / tl))%Z)
      idxs ->
    exists dr', raincell_loop ps tl arrs ends ints idxs dr = Ok dr'.
Proof.
  induction idxs as [|idx idxs IH]; intros dr H.
  - simpl. eauto.
  - inversion H as [|? ? (La & Le & Li & Hs) Hrest]; subst.
    cbn [raincell_loop]. unfold raincell_step.
    rewrite (get_nth _ _ La), (get_nth _ _ Le), (get_nth _ _ Li). cbn [bind].
    destruct (timestep_loop_returns
                (Z.to_nat (Qfloor ((nth idx ends 0 - ps) / tl) + 1
                           - Qfloor ((nth idx arrs 0 - ps) / tl)))
                (Qfloor ((nth idx arrs 0 - ps) / tl)) tl
                (nth idx arrs 0 - ps) (nth idx ends 0 - ps) (nth idx ints 0)
                dr Hs) as (dr1 & E1).
    rewrite E1. cbn [bind]. apply IH.
    apply timestep_loop_length in E1. unfold shape0 in *. rewrite E1.
    exact Hrest.
Qed.

(** [discretise_point] returns whenever the three arrays have one length and
    no raincell arrives further before the period start than the array is
    long. *)
Lemma discretise_point_returns (ps tl : Q) (arrs ends ints dr : array) :
  length ends = length arrs -> length ints = length arrs ->
  Forall (fun a => (- shape0 dr <= Qfloor ((a - ps) / tl))%Z) arrs ->
  exists dr', discretise_point ps tl arrs ends ints dr = Ok dr'.
Proof.
  intros Le Li H. unfold discretise_point.
  apply raincell_loop_returns.
  apply Forall_forall. intros idx Hin. apply in_seq in Hin.
  repeat split; try lia.
  unfold shape0. rewrite fill0_length.
  rewrite Forall_forall in H. apply H. apply nth_In. lia.
Qed.




Lemma column_of_returns (rs : list array) (yi : nat) :
  Forall (fun row => (yi < length row)%nat) rs ->
  exists c, column_of rs yi = Ok c.
Proof.
  induction 1 as [|row rs Hrow Hrs (c & IH)]; simpl.
  - eauto.
  - rewrite (get_nth _ _ Hrow), IH. simpl. eauto.
Qed.


Section SpatialReturns.

Variable sqrt : Q -> Q.
Variables period_start_time timestep_length : Q.
Variables raincell_arrival_times raincell_end_times raincell_intensities : array.
Variables raincell_x_coords raincell_y_coords raincell_radii : array.
Variables point_eastings point_northings point_phi : array.
Variables nt nloc : nat.

Hypothesis ends_length :
  length raincell_end_times = length raincell_arrival_times.
Hypothesis intensities_length :
  length raincell_intensities = length raincell_arrival_times.
Hypothesis x_length : length raincell_x_coords = length raincell_arrival_times.
Hypothesis y_length : length raincell_y_coords = length raincell_arrival_times.
Hypothesis radii_length : length raincell_radii = length raincell_arrival_times.
Hypothesis northings_length : length point_northings = length point_eastings.
Hypothesis phi_length : length point_phi = length point_eastings.
Hypothesis locations_fit : (length point_eastings <= nloc)%nat.
Hypothesis arrivals_in_reach :
  Forall (fun a => (- Z.of_nat nt
                    <= Qfloor ((a - period_start_time) / timestep_length))%Z)
    raincell_arrival_times.

Local Notation "'loc_step'" :=
  (location_step sqrt period_start_time timestep_length
     raincell_arrival_times raincell_end_times raincell_intensities
     raincell_x_coords raincell_y_coords raincell_radii
     point_eastings point_northings point_phi).
Local Notation "'loc_loop'" :=
  (location_loop sqrt period_start_time timestep_length
     raincell_arrival_times raincell_end_times raincell_intensities
     raincell_x_coords raincell_y_coords raincell_radii
     point_eastings point_northings point_phi).

(** [nt] rows of [nloc] entries each. *)
Local Notation "'shaped' m" :=
  (length (rows m) = nt /\ ncols m = nloc
   /\ Forall (fun row => length row = nloc) (rows m))
  (at level 10, m at level 9).



End SpatialReturns.


(** ** What each timestep of the point kernel holds *)

Lemma nth_upd (a : array) (i j : nat) (f : Q -> Q) :
  (i < length a)%nat ->
  nth j (upd a i f) 0 = if Nat.eqb j i then f (nth j a 0) else nth j a 0.
Proof.
  intros H. destruct (Nat.eqb_spec j i) as [-> | Hne].
  - apply nth_upd_same. assumption.
  - apply nth_upd_other. congruence.
Qed.

(** The entries of the array after the timestep loop, started at a
    non-negative timestep: the timesteps of the range that lie inside the
    array have received intensity times coverage, the others nothing. *)
Lemma timestep_loop_nth (k : nat) :
  forall (s : Z) (tl a e i : Q) (dr dr' : array),
    (0 <= s)%Z ->
    timestep_loop k s tl a e i dr = Ok dr' ->
    forall t : nat,
      nth t dr' 0 ==
      nth t dr 0
      + (if ((s <=? Z.of_nat t) && (Z.of_nat t <? s + Z.of_nat k)
             && (Z.of_nat t <? shape0 dr))%Z
         then i * (Qmin e (inject_Z (Z.of_nat t + 1) * tl)
                   - Qmax a (inject_Z (Z.of_nat t) * tl))
         else 0).
Proof.
  induction k as [|k IH]; intros s tl a e i dr dr' Hs H t.
  - apply Ok_inj in H. subst dr'.
    replace (Z.of_nat t <? s + Z.of_nat 0)%Z with (Z.of_nat t <? s)%Z
      by (f_equal; lia).
    destruct (s <=? Z.of_nat t)%Z eqn:E1; destruct (Z.of_nat t <? s)%Z eqn:E2;
      simpl; try ring.
    apply Z.leb_le in E1. apply Z.ltb_lt in E2. lia.
  - cbn [timestep_loop] in H. apply bind_ok_inv in H.
    destruct H as (dr1 & H1 & H2).
    assert (L1 : length dr1 = length dr).
    { destruct (s <? shape0 dr)%Z; [eapply add_at_length; eassumption |].
      apply Ok_inj in H1. congruence. }
    rewrite (IH (s + 1)%Z tl a e i dr1 dr' ltac:(lia) H2 t).
    unfold shape0 in *. rewrite L1.
    destruct (Z.of_nat t <? Z.of_nat (length dr))%Z eqn:En.
    2:{ rewrite !andb_false_r.
        apply Z.ltb_ge in En.
        rewrite (nth_overflow dr1) by lia. rewrite (nth_overflow dr) by lia.
        reflexivity. }
    apply Z.ltb_lt in En. rewrite !andb_true_r.
    destruct (Z.eq_dec (Z.of_nat t) s) as [Heq | Hne].
    + (* the timestep written by this iteration *)
      assert (Hlt : (s <? Z.of_nat (length dr))%Z = true)
        by (apply Z.ltb_lt; lia).
      rewrite Hlt in H1. rewrite add_at_nonneg in H1 by (unfold shape0; lia).
      apply Ok_inj in H1. subst dr1.
      rewrite nth_upd by lia.
      replace (Z.to_nat s) with t by lia. rewrite Nat.eqb_refl.
      replace (s + 1 <=? Z.of_nat t)%Z with false by (symmetry; apply Z.leb_gt; lia).
      replace (s <=? Z.of_nat t)%Z with true by (symmetry; apply Z.leb_le; lia).
      replace (Z.of_nat t <? s + Z.of_nat (S k))%Z with true
        by (symmetry; apply Z.ltb_lt; lia).
      cbn [andb]. rewrite <- Heq. ring.
    + (* any other timestep *)
      assert (Hsame : nth t dr1 0 = nth t dr 0).
      { destruct (s <? Z.of_nat (length dr))%Z eqn:Es.
        - apply Z.ltb_lt in Es.
          rewrite add_at_nonneg in H1 by (unfold shape0; lia).
          apply Ok_inj in H1. subst dr1. apply nth_upd_other. lia.
        - apply Ok_inj in H1. congruence. }
      rewrite Hsame.
      replace (Z.of_nat t <? s + 1 + Z.of_nat k)%Z
        with (Z.of_nat t <? s + Z.of_nat (S k))%Z by (f_equal; lia).
      destruct (Z.of_nat t <? s + Z.of_nat (S k))%Z; rewrite ?andb_false_r;
        try reflexivity.
      rewrite !andb_true_r.
      replace (s + 1 <=? Z.of_nat t)%Z with (s <=? Z.of_nat t)%Z; [reflexivity |].
      destruct (s <=? Z.of_nat t)%Z eqn:E1.
      * symmetry. apply Z.leb_le. apply Z.leb_le in E1. lia.
      * symmetry. apply Z.leb_gt. apply Z.leb_gt in E1. lia.
Qed.

Section Entries.

Variables period_start_time timestep_length : Q.
Hypothesis timestep_length_pos : 0 < timestep_length.
Variables raincell_arrival_times raincell_end_times raincell_intensities : array.

Local Notation "'share' t idx" :=
  (raincell_share period_start_time timestep_length raincell_arrival_times
     raincell_end_times raincell_intensities t idx)
  (at level 10, t at level 9, idx at level 9).

(** Inside the range of covering timesteps the coverage computed by the
    loop is the overlap; outside the range the overlap is empty. *)
Lemma coverage_is_overlap (a e : Q) (t : Z) :
  a <= e ->
  let a_ts := Qfloor (a / timestep_length) in
  let e_ts := Qfloor (e / timestep_length) in
  (if ((a_ts <=? t) && (t <? e_ts + 1))%Z
   then Qmin e (inject_Z (t + 1) * timestep_length)
        - Qmax a (inject_Z t * timestep_length)
   else 0)
  == overlap a e (inject_Z t * timestep_length)
       (inject_Z (t + 1) * timestep_length).
Proof.
  intros Hae a_ts e_ts. unfold overlap.
  pose proof (timestep_start_le timestep_length timestep_length_pos a) as Ha1.
  pose proof (timestep_end_gt timestep_length timestep_length_pos a) as Ha2.
  pose proof (timestep_start_le timestep_length timestep_length_pos e) as He1.
  pose proof (timestep_end_gt timestep_length timestep_length_pos e) as He2.
  fold a_ts in Ha1, Ha2. fold e_ts in He1, He2.
  pose proof (timestep_mono timestep_length timestep_length_pos t (t + 1)
                ltac:(lia)) as Htt.
  destruct (a_ts <=? t)%Z eqn:E1; destruct (t <? e_ts + 1)%Z eqn:E2;
    cbn [andb];
    try (apply Z.leb_le in E1); try (apply Z.leb_gt in E1);
    try (apply Z.ltb_lt in E2); try (apply Z.ltb_ge in E2);
    try (pose proof (timestep_mono timestep_length timestep_length_pos
                       t e_ts ltac:(lia)));
    try (pose proof (timestep_mono timestep_length timestep_length_pos
                       (a_ts + 1) (t + 1) ltac:(lia)));
    try (pose proof (timestep_mono timestep_length timestep_length_pos
                       (t + 1) a_ts ltac:(lia)));
    try (pose proof (timestep_mono timestep_length timestep_length_pos
                       (e_ts + 1) t ltac:(lia)));
    destruct (Q.min_spec e (inject_Z (t + 1) * timestep_length)) as [[? Em] | [? Em]];
    destruct (Q.max_spec a (inject_Z t * timestep_length)) as [[? Ex] | [? Ex]];
    rewrite Em, Ex;
    first [ rewrite Q.max_r by lra; reflexivity
          | rewrite Q.max_l by lra; reflexivity ].
Qed.

(** One raincell adds its share to every timestep of the array. *)
Lemma raincell_step_nth (idx : nat) (dr dr' : array) :
  (idx < length raincell_arrival_times)%nat ->
  (idx < length raincell_end_times)%nat ->
  (idx < length raincell_intensities)%nat ->
  period_start_time <= nth idx raincell_arrival_times 0 ->
  nth idx raincell_arrival_times 0 <= nth idx raincell_end_times 0 ->
  raincell_step period_start_time timestep_length
    raincell_arrival_times raincell_end_times raincell_intensities idx dr
  = Ok dr' ->
  forall t : nat,
    (t < length dr)%nat ->
    nth t dr' 0 == nth t dr 0 + share t idx.
Proof.
  intros La Le Li Hs Hae H t Ht.
  unfold raincell_step in H.
  rewrite (get_nth _ _ La), (get_nth _ _ Le), (get_nth _ _ Li) in H.
  cbn [bind] in H.
  set (a := nth idx raincell_arrival_times 0 - period_start_time) in *.
  set (e := nth idx raincell_end_times 0 - period_start_time) in *.
  assert (Hrel : a <= e) by (unfold a, e; lra).
  assert (Hnn : 0 <= a) by (unfold a; lra).
  pose proof (timestep_nonneg timestep_length timestep_length_pos a Hnn) as H0.
  assert (Hts : (Qfloor (a / timestep_length) <= Qfloor (e / timestep_length))%Z).
  { apply Qfloor_resp_le. apply Qmult_le_compat_r; [assumption |].
    apply Qlt_le_weak, Qinv_lt_0_compat, timestep_length_pos. }
  rewrite (timestep_loop_nth _ _ _ _ _ _ _ _ H0 H t).
  apply Qplus_comp; [reflexivity |].
  unfold raincell_share. fold a e.
  rewrite <- (coverage_is_overlap a e (Z.of_nat t) Hrel). cbv zeta.
  replace (Z.of_nat t <? shape0 dr)%Z with true
    by (symmetry; apply Z.ltb_lt; unfold shape0; lia).
  rewrite andb_true_r.
  replace (Qfloor (a / timestep_length)
           + Z.of_nat (Z.to_nat (Qfloor (e / timestep_length) + 1
                                 - Qfloor (a / timestep_length))))%Z
    with (Qfloor (e / timestep_length) + 1)%Z by lia.
  destruct ((Qfloor (a / timestep_length) <=? Z.of_nat t)
            && (Z.of_nat t <? Qfloor (e / timestep_length) + 1))%Z;
    [reflexivity | symmetry; apply Qmult_0_r].
Qed.

Lemma raincell_loop_nth (idxs : list nat) :
  forall dr dr',
    Forall (fun idx =>
              (idx < length raincell_arrival_times)%nat
              /\ (idx < length raincell_end_times)%nat
              /\ (idx < length raincell_intensities)%nat
              /\ period_start_time <= nth idx raincell_arrival_times 0
              /\ nth idx raincell_arrival_times 0
                 <= nth idx raincell_end_times 0) idxs ->
    raincell_loop period_start_time timestep_length
      raincell_arrival_times raincell_end_times raincell_intensities idxs dr
    = Ok dr' ->
    forall t : nat,
      (t < length dr)%nat ->
      nth t dr' 0 == nth t dr 0 + asum (map (fun idx => share t idx) idxs).
Proof.
  induction idxs as [|idx idxs IH]; intros dr dr' Hall H t Ht.
  - apply Ok_inj in H. subst. simpl. ring.
  - inversion Hall as [|? ? (La & Le & Li & Hs & Hae) Hrest]; subst.
    cbn [raincell_loop] in H. apply bind_ok_inv in H.
    destruct H as (dr1 & H1 & H2).
    assert (L1 : length dr1 = length dr).
    { unfold raincell_step in H1.
      apply bind_ok_inv in H1. destruct H1 as (? & _ & H1).
      apply bind_ok_inv in H1. destruct H1 as (? & _ & H1).
      apply bind_ok_inv in H1. destruct H1 as (? & _ & H1).
      eapply timestep_loop_length; eassumption. }
    rewrite (IH dr1 dr' Hrest H2 t) by lia.
    rewrite (raincell_step_nth idx dr dr1 La Le Li Hs Hae H1 t Ht).
    simpl. ring.
Qed.

End Entries.

(** X1.  Every timestep of the array returned by [discretise_point] holds the sum,
    over the raincells, of intensity times the time the raincell is active
    within the timestep -- for raincells that arrive at or after the period
    start and end no earlier than they arrive.  Nothing is asked of the end
    times: what falls beyond the last timestep of the array is dropped. *)
Theorem discretise_point_entries
    (period_start_time timestep_length : Q)
    (raincell_arrival_times raincell_end_times raincell_intensities : array)
    (discrete_rainfall : array) :
  0 < timestep_length ->
  length raincell_end_times = length raincell_arrival_times ->
  length raincell_intensities = length raincell_arrival_times ->
  (forall idx, (idx < length raincell_arrival_times)%nat ->
     period_start_time <= nth idx raincell_arrival_times 0
     /\ nth idx raincell_arrival_times 0 <= nth idx raincell_end_times 0) ->
  exists dr',
    discretise_point period_start_time timestep_length
      raincell_arrival_times raincell_end_times raincell_intensities
      discrete_rainfall = Ok dr'
    /\ length dr' = length discrete_rainfall
    /\ forall t : nat,
         (t < length discrete_rainfall)%nat ->
         nth t dr' 0 ==
         asum (map (raincell_share period_start_time timestep_length
                      raincell_arrival_times raincell_end_times
                      raincell_intensities t)
                 (seq 0 (length raincell_arrival_times))).
Proof.
  intros Hpos Le Li Hall.
  destruct (discretise_point_returns period_start_time timestep_length
              raincell_arrival_times raincell_end_times raincell_intensities
              discrete_rainfall Le Li) as (dr' & E).
  { apply Forall_forall. intros a Hin.
    destruct (In_nth _ _ 0 Hin) as (idx & Hidx & <-).
    destruct (Hall idx Hidx) as (Hs & _).
    pose proof (timestep_nonneg timestep_length Hpos
                  (nth idx raincell_arrival_times 0 - period_start_time)
                  ltac:(lra)).
    unfold shape0. lia. }
  exists dr'. split; [exact E |].
  split; [eapply discretise_point_length; exact E |].
  intros t Ht. unfold discretise_point in E.
  rewrite (raincell_loop_nth period_start_time timestep_length Hpos
             raincell_arrival_times raincell_end_times raincell_intensities
             (seq 0 (length raincell_arrival_times)) (fill0 discrete_rainfall)
             dr').
  - unfold fill0. rewrite nth_zeros. rewrite Qplus_0_l. reflexivity.
  - apply Forall_forall. intros idx Hin. apply in_seq in Hin.
    destruct (Hall idx ltac:(lia)) as (Hs & Hae). repeat split; try lia; assumption.
  - exact E.
  - rewrite fill0_length. exact Ht.
Qed.

(** The premises hold for two raincells of which the second runs past the
    end of a three-timestep array. *)
Lemma discretise_point_entries_witness :
  exists dr',
    discretise_point 0 1 [1#2; 2] [3#2; 5] [2; 4] (zeros 3) = Ok dr'
    /\ length dr' = length (zeros 3)
    /\ forall t : nat,
         (t < length (zeros 3))%nat ->
         nth t dr' 0 ==
         asum (map (raincell_share 0 1 [1#2; 2] [3#2; 5] [2; 4] t)
                 (seq 0 (length [1#2; 2]))).
Proof.
  apply (discretise_point_entries 0 1 [1#2; 2] [3#2; 5] [2; 4] (zeros 3)).
  - reflexivity.
  - reflexivity.
  - reflexivity.
  - intros [|[|idx]] H; simpl in H; try lia; split; vm_compute; discriminate.
Defined.

(** ** Sign and reach of the point kernel *)

Lemma upd_Forall (P : Q -> Prop) (a : array) (i : nat) (f : Q -> Q) :
  Forall P a -> (forall x, P x -> P (f x)) -> Forall P (upd a i f).
Proof.
  intros H Hf. revert i.
  induction H as [|x a Hx Ha IH]; intros [|i]; simpl; constructor; auto.
Qed.



Lemma get_inv (a : array) (i : nat) (x : Q) :
  get a i = Ok x -> nth_error a i = Some x.
Proof.
  unfold get. destruct (nth_error a i); intros H; [| discriminate].
  apply Ok_inj in H. congruence.
Qed.

Section Sign.

Variable timestep_length : Q.
Hypothesis timestep_length_pos : 0 < timestep_length.




End Sign.




Section SignAndReach.

Variables period_start_time timestep_length : Q.
Hypothesis timestep_length_pos : 0 < timestep_length.
Variables raincell_arrival_times raincell_end_times raincell_intensities : array.
Hypothesis ends_after_arrivals :
  Forall2 Qle raincell_arrival_times raincell_end_times.



End SignAndReach.






(** X4.  The kernel zero-fills the array before accumulating, so what the buffer
    held does not matter: handing a call the array left by an earlier call
    gives the result of a fresh array of zeros. *)
Theorem discretise_point_buffer_reuse
    (ps tl ps' tl' : Q) (arrs ends ints arrs' ends' ints' : array)
    (discrete_rainfall previous : array) :
  discretise_point ps tl arrs ends ints discrete_rainfall = Ok previous ->
  discretise_point ps' tl' arrs' ends' ints' previous
  = discretise_point ps' tl' arrs' ends' ints'
      (zeros (length discrete_rainfall)).
Proof.
  intros H. apply discretise_point_fills.
  rewrite zeros_length. eapply discretise_point_length. exact H.
Qed.

Lemma discretise_point_buffer_reuse_witness :
  discretise_point 1 1 [1] [2] [3] [0 + 2 * (1 - 0); 0 + 2 * ((3#2) - 1); 0]
  = discretise_point 1 1 [1] [2] [3] (zeros (length (zeros 3))).
Proof.
  apply (discretise_point_buffer_reuse 0 1 1 1 [0] [3#2] [2] [1] [2] [3]
           (zeros 3)).
  vm_compute. reflexivity.
Defined.

(** ** What each column of the spatial kernel holds *)

Lemma map2_inv {A B C : Type} (f : A -> B -> C) :
  forall (a : list A) (b : list B) (r : list C),
    map2 f a b = Ok r ->
    length a = length b
    /\ r = map (fun p => f (fst p) (snd p)) (combine a b).
Proof.
  induction a as [|x a IH]; intros [|y b] r H; simpl in H; try discriminate.
  - apply Ok_inj in H. subst. split; reflexivity.
  - apply bind_ok_inv in H. destruct H as (r' & Hr & H).
    apply Ok_inj in H. subst r.
    destruct (IH b r' Hr) as (L & ->). split; simpl; congruence.
Qed.

Lemma combine_map_l {A B C : Type} (f : A -> B) :
  forall (l : list A) (l' : list C),
    combine (map f l) l' = map (fun p => (f (fst p), snd p)) (combine l l').
Proof.
  induction l as [|x l IH]; intros [|y l']; simpl; try reflexivity.
  rewrite IH. reflexivity.
Qed.

Lemma mask_select_inv {A : Type} :
  forall (mask : list bool) (l r : list A),
    mask_select mask l = Ok r ->
    length mask = length l /\ r = selected mask l.
Proof.
  intros mask l r H.
  assert (L : length mask = length l).
  { revert l r H.
    induction mask as [|b mask IH]; intros [|x l] r H; simpl in H;
      try discriminate; [reflexivity |].
    apply bind_ok_inv in H. destruct H as (r' & Hr & _).
    simpl. f_equal. eapply IH. exact Hr. }
  split; [exact L |].
  rewrite (mask_select_filter mask l L) in H. apply Ok_inj in H.
  unfold selected. congruence.
Qed.



Lemma set_column_of_Forall (P : Q -> Prop) (yi : nat) :
  forall (rs : list array) (c : array),
    Forall (Forall P) rs -> Forall P c ->
    Forall (Forall P) (set_column_of rs yi c).
Proof.
  induction rs as [|row rs IH]; intros [|x c] Hrs Hc; simpl; try assumption.
  inversion Hrs; subst. inversion Hc; subst.
  constructor; [| apply IH; assumption].
  apply upd_Forall; [assumption | intros; assumption].
Qed.

Section SpatialColumns.

Variable sqrt : Q -> Q.
Variables period_start_time timestep_length : Q.
Variables raincell_arrival_times raincell_end_times raincell_intensities : array.
Variables raincell_x_coords raincell_y_coords raincell_radii : array.
Variables point_eastings point_northings point_phi : array.

Local Notation "'loc_step'" :=
  (location_step sqrt period_start_time timestep_length
     raincell_arrival_times raincell_end_times raincell_intensities
     raincell_x_coords raincell_y_coords raincell_radii
     point_eastings point_northings point_phi).
Local Notation "'loc_loop'" :=
  (location_loop sqrt period_start_time timestep_length
     raincell_arrival_times raincell_end_times raincell_intensities
     raincell_x_coords raincell_y_coords raincell_radii
     point_eastings point_northings point_phi).

(** The raincells that reach location [idx]. *)
Local Notation "'mask_at' idx" :=
  (reaches sqrt (nth idx point_eastings 0) (nth idx point_northings 0)
     raincell_x_coords raincell_y_coords raincell_radii)
  (at level 10, idx at level 9).

(** The point kernel run on the raincells that reach location [idx]. *)
Local Notation "'point_series' idx nt" :=
  (discretise_point period_start_time timestep_length
     (selected (mask_at idx) raincell_arrival_times)
     (selected (mask_at idx) raincell_end_times)
     (selected (mask_at idx) raincell_intensities)
     (zeros nt))
  (at level 10, idx at level 9, nt at level 9).

Lemma spatial_mask_reaches (x y : Q) (mask : list bool) :
  (dists <- distances_from sqrt x y raincell_x_coords raincell_y_coords ;;
   map2 Qle_bool dists raincell_radii) = Ok mask ->
  mask = reaches sqrt x y raincell_x_coords raincell_y_coords raincell_radii.
Proof.
  intros H. apply bind_ok_inv in H. destruct H as (dists & Hd & Hm).
  unfold distances_from in Hd.
  apply map2_inv in Hd. destruct Hd as (_ & ->).
  apply map2_inv in Hm. destruct Hm as (_ & ->).
  unfold reaches. rewrite combine_map_l, map_map. reflexivity.
Qed.

Lemma location_step_column (idx : nat) (m m' : array2) :
  loc_step idx m = Ok m' ->
  exists c,
    point_series idx (length (rows m)) = Ok c
    /\ column m' idx = Ok (map (fun v => v * nth idx point_phi 0) c)
    /\ (Forall (Forall (fun v => 0 <= v)) (rows m) ->
        Forall (fun v => 0 <= v) (map (fun v => v * nth idx point_phi 0) c) ->
        Forall (Forall (fun v => 0 <= v)) (rows m')).
Proof.
  intros H. apply location_step_inv in H.
  destruct H as (x & y & mask & arrivals & ends & intensities & view & view'
                 & phi & Hx & Hy & Hm & Ha & He & Hi & Hv & Hv' & Hp & ->).
  apply get_inv in Hx. apply get_inv in Hy. apply get_inv in Hp.
  rewrite (nth_error_nth _ _ 0 Hx), (nth_error_nth _ _ 0 Hy),
    (nth_error_nth _ _ 0 Hp).
  apply spatial_mask_reaches in Hm. subst mask.
  apply mask_select_inv in Ha. destruct Ha as (_ & ->).
  apply mask_select_inv in He. destruct He as (_ & ->).
  apply mask_select_inv in Hi. destruct Hi as (_ & ->).
  pose proof (column_of_length _ _ _ Hv) as Lv.
  exists view'. split; [| split].
  - rewrite <- Hv'. apply discretise_point_fills.
    rewrite zeros_length. symmetry. exact Lv.
  - unfold column, set_column. cbn [rows].
    eapply column_of_set_same; [exact Hv |].
    rewrite length_map. rewrite (discretise_point_length _ _ _ _ _ _ _ Hv').
    exact Lv.
  - intros Hrows Hc. cbn [rows set_column].
    apply set_column_of_Forall; assumption.
Qed.

Lemma location_loop_columns (idxs : list nat) :
  NoDup idxs ->
  forall m m',
    loc_loop idxs m = Ok m' ->
    forall idx, In idx idxs ->
      exists c,
        point_series idx (length (rows m)) = Ok c
        /\ column m' idx = Ok (map (fun v => v * nth idx point_phi 0) c).
Proof.
  induction 1 as [|i idxs Hni Hnd IH]; intros m m' H idx Hin.
  - destruct Hin.
  - cbn [location_loop] in H. apply bind_ok_inv in H.
    destruct H as (m1 & H1 & H2).
    destruct Hin as [<- | Hin].
    + destruct (location_step_column i m m1 H1) as (c & Hc & Hcol & _).
      exists c. split; [exact Hc |].
      rewrite <- Hcol.
      exact (location_loop_other sqrt period_start_time timestep_length
               raincell_arrival_times raincell_end_times raincell_intensities
               raincell_x_coords raincell_y_coords raincell_radii
               point_eastings point_northings point_phi idxs i Hni m1 m' H2).
    + destruct (IH m1 m' H2 idx Hin) as (c & Hc & Hcol).
      exists c. split; [| exact Hcol].
      rewrite <- (location_step_nrows sqrt period_start_time timestep_length
                    raincell_arrival_times raincell_end_times
                    raincell_intensities raincell_x_coords raincell_y_coords
                    raincell_radii point_eastings point_northings point_phi
                    i m m1 H1).
      exact Hc.
Qed.


End SpatialColumns.

(** X5.  When [discretise_spatial] returns, the column of every location holds
    the series that [discretise_point] gives, on a zeroed array with one
    entry per timestep of the buffer, for the raincells whose centre lies
    within their radius of the location (boundary included), multiplied by
    the location's phi; the columns that belong to no location hold what the
    zero-filled buffer holds. *)
Theorem discretise_spatial_columns
    (sqrt : Q -> Q) (period_start_time timestep_length : Q)
    (raincell_arrival_times raincell_end_times raincell_intensities : array)
    (discrete_rainfall : array2)
    (raincell_x_coords raincell_y_coords raincell_radii : array)
    (point_eastings point_northings point_phi : array)
    (result_buffer : array2) :
  discretise_spatial sqrt period_start_time timestep_length
    raincell_arrival_times raincell_end_times raincell_intensities
    discrete_rainfall raincell_x_coords raincell_y_coords raincell_radii
    point_eastings point_northings point_phi = Ok result_buffer ->
  (forall idx, (idx < length point_eastings)%nat ->
     let mask := reaches sqrt (nth idx point_eastings 0)
                   (nth idx point_northings 0)
                   raincell_x_coords raincell_y_coords raincell_radii in
     exists c,
       discretise_point period_start_time timestep_length
         (selected mask raincell_arrival_times)
         (selected mask raincell_end_times)
         (selected mask raincell_intensities)
         (zeros (length (rows discrete_rainfall))) = Ok c
       /\ column result_buffer idx
          = Ok (map (fun v => v * nth idx point_phi 0) c))
  /\ (forall j, (length point_eastings <= j)%nat ->
        column result_buffer j = column (fill2 discrete_rainfall) j).
Proof.
  intros H. unfold discretise_spatial in H. split.
  - intros idx Hidx mask.
    destruct (location_loop_columns sqrt period_start_time timestep_length
                raincell_arrival_times raincell_end_times raincell_intensities
                raincell_x_coords raincell_y_coords raincell_radii
                point_eastings point_northings point_phi
                (seq 0 (length point_eastings)) (seq_NoDup _ _)
                _ _ H idx) as (c & Hc & Hcol).
    { apply in_seq. lia. }
    exists c. split; [| exact Hcol].
    unfold fill2 in Hc. cbn [rows] in Hc. rewrite length_map in Hc. exact Hc.
  - intros j Hj.
    eapply location_loop_other; [| exact H].
    intros Hin. apply in_seq in Hin. lia.
Qed.

Lemma discretise_spatial_columns_witness :
  exists result_buffer,
    discretise_spatial Qsqrt_exact 0 1 [0; 1] [1; 2] [2; 3]
      (mkArray2 2 [[7; 7]; [7; 7]]) [0; 10] [0; 0] [1; 1] [0] [0] [1#2]
    = Ok result_buffer
    /\ (forall idx, (idx < length [0])%nat ->
          let mask := reaches Qsqrt_exact (nth idx [0] 0) (nth idx [0] 0)
                        [0; 10] [0; 0] [1; 1] in
          exists c,
            discretise_point 0 1 (selected mask [0; 1]) (selected mask [1; 2])
              (selected mask [2; 3])
              (zeros (length (rows (mkArray2 2 [[7; 7]; [7; 7]])))) = Ok c
            /\ column result_buffer idx
               = Ok (map (fun v => v * nth idx [1#2] 0) c))
    /\ (forall j, (length [0] <= j)%nat ->
          column result_buffer j
          = column (fill2 (mkArray2 2 [[7; 7]; [7; 7]])) j).
Proof.
  eexists. split; [vm_compute; reflexivity |].
  apply (discretise_spatial_columns Qsqrt_exact 0 1 [0; 1] [1; 2] [2; 3]
           (mkArray2 2 [[7; 7]; [7; 7]]) [0; 10] [0; 0] [1; 1] [0] [0] [1#2]).
  vm_compute. reflexivity.
Defined.



(** ** The two block loops of [simulate_realisation] *)



Lemma n_hours_firstn (k : nat) (datetime_helper : list month_row) :
  n_hours (firstn k datetime_helper) = firstn k (n_hours datetime_helper).
Proof. unfold n_hours. symmetry. apply firstn_map. Qed.

Section Blocks.

Variables rng seed_sequence raincells : Type.
Variable default_rng : seed_sequence -> rng.
Variable nsproc_main : rng -> list Q -> raincells * rng.
Variable memory_error : nat -> bool.
Variable discretise : Z -> list month_row -> raincells -> result unit.
Variable number_of_years : Z.
Variable datetime_helper : list month_row.
Variable seed : seed_sequence.

Local Notation "'size_step'" :=
  (sizing_step rng seed_sequence raincells default_rng nsproc_main
     memory_error number_of_years datetime_helper seed).
Local Notation "'size_loop'" :=
  (sizing_loop rng seed_sequence raincells default_rng nsproc_main
     memory_error number_of_years datetime_helper seed).
Local Notation "'size_iter'" :=
  (sizing_iter rng seed_sequence raincells default_rng nsproc_main
     memory_error number_of_years datetime_helper seed).
Local Notation "'size_init'" :=
  (sizing_init rng seed_sequence default_rng number_of_years seed).
Local Notation "'sim_step'" :=
  (simulation_step rng raincells nsproc_main discretise number_of_years
     datetime_helper).
Local Notation "'sim_loop'" :=
  (simulation_loop rng raincells nsproc_main discretise number_of_years
     datetime_helper).

(** The memory failures among the attempts [a, a + k). *)
Local Notation "'failures' a k" :=
  (Z.of_nat (length (filter memory_error (seq a k))))
  (at level 10, a at level 9, k at level 9).





Lemma sizing_step_inv (st st1 : sizing_state rng) :
  size_step st = Some st1 ->
  (block_id rng st * block_size rng st < number_of_years)%Z
  /\ attempts rng st1 = S (attempts rng st)
  /\ calls rng st1
     = calls rng st
       ++ [(rng_state rng st,
            slice (n_hours datetime_helper)
              (block_id rng st * block_size rng st * 12)
              ((block_id rng st + 1) * block_size rng st * 12))]
  /\ (if memory_error (attempts rng st)
      then block_size rng st1 = (block_size rng st / 2)%Z
           /\ block_id rng st1 = 0%Z
           /\ rng_state rng st1 = default_rng seed
      else block_size rng st1 = block_size rng st
           /\ block_id rng st1 = (block_id rng st + 1)%Z
           /\ rng_state rng st1
              = snd (nsproc_main (rng_state rng st)
                       (slice (n_hours datetime_helper)
                          (block_id rng st * block_size rng st * 12)
                          ((block_id rng st + 1) * block_size rng st * 12)))).
Proof.
  unfold sizing_step.
  destruct (block_id rng st * block_size rng st <? number_of_years)%Z eqn:E;
    [| discriminate].
  apply Z.ltb_lt in E. cbv zeta.
  destruct (memory_error (attempts rng st)); intros H;
    apply (f_equal (fun o => match o with Some s => s | None => st end)) in H;
    subst st1; cbn; repeat split; exact E.
Qed.

Lemma sizing_iter_block_size (k : nat) :
  forall st st',
    size_iter k st = Some st' ->
    attempts rng st' = (attempts rng st + k)%nat
    /\ length (calls rng st') = (length (calls rng st) + k)%nat
    /\ block_size rng st'
       = (block_size rng st / 2 ^ failures (attempts rng st) k)%Z.
Proof.
  induction k as [|k IH]; intros st st' H; cbn [sizing_iter] in H.
  - apply (f_equal (fun o => match o with Some s => s | None => st end)) in H.
    subst st'. cbn. rewrite Z.div_1_r. repeat split; lia.
  - destruct (size_step st) as [st1|] eqn:E; [| discriminate].
    apply sizing_step_inv in E. destruct E as (_ & Ha & Hc & Hm).
    destruct (IH st1 st' H) as (Ha' & Hc' & Hb').
    rewrite Ha', Hc', Hb', Ha, Hc, length_app. cbn [length seq filter].
    split; [lia |]. split; [lia |].
    destruct (memory_error (attempts rng st)); destruct Hm as (-> & _ & _);
      [| reflexivity].
    cbn [length]. rewrite Nat2Z.inj_succ, Z.pow_succ_r by lia.
    rewrite Z.div_div by lia. reflexivity.
Qed.

(** X12.  However the sizing loop got there, after [k] attempts the block size is
    [min(number_of_years, 1000)] halved, rounding down, once for every
    attempt that ended in a memory failure; each attempt has called the
    generator once. *)
Theorem sizing_block_size_after (k : nat) (st : sizing_state rng) :
  size_iter k size_init = Some st ->
  attempts rng st = k
  /\ length (calls rng st) = k
  /\ block_size rng st
     = (Z.min number_of_years 1000 / 2 ^ failures 0 k)%Z.
Proof.
  intros H. apply sizing_iter_block_size in H. exact H.
Qed.






End Blocks.


(** Five attempts on 900 years of which the first three fail. *)
Lemma sizing_block_size_after_witness :
  exists st,
    sizing_iter nat nat unit (fun s => s) (fun r _ => (tt, S r))
      (fun k => Nat.ltb k 3) 900 (repeat (mkMonth 2000 1 744 0 744) (12 * 900))
      0%nat 5 (sizing_init nat nat (fun s => s) 900 0%nat) = Some st
    /\ attempts nat st = 5%nat
    /\ length (calls nat st) = 5%nat
    /\ block_size nat st
       = (Z.min 900 1000
          / 2 ^ Z.of_nat (length (filter (fun k => Nat.ltb k 3) (seq 0 5))))%Z.
Proof.
  eexists. split; [vm_compute; reflexivity |].
  apply (sizing_block_size_after nat nat unit (fun s => s)
           (fun r _ => (tt, S r)) (fun k => Nat.ltb k 3) 900
           (repeat (mkMonth 2000 1 744 0 744) (12 * 900)) 0%nat 5).
  vm_compute. reflexivity.
Defined.



(** ** The domain encloses the points and the grid *)

Lemma fold_min_le (l : array) :
  forall x, fold_left Qmin l x <= x
            /\ Forall (fun y => fold_left Qmin l x <= y) l.
Proof.
  induction l as [|y l IH]; intros x; simpl.
  - split; [apply Qle_refl | constructor].
  - destruct (IH (Qmin x y)) as (H1 & H2).
    pose proof (Q.le_min_l x y). pose proof (Q.le_min_r x y).
    split; [lra |]. constructor; [lra | exact H2].
Qed.

Lemma fold_max_ge (l : array) :
  forall x, x <= fold_left Qmax l x
            /\ Forall (fun y => y <= fold_left Qmax l x) l.
Proof.
  induction l as [|y l IH]; intros x; simpl.
  - split; [apply Qle_refl | constructor].
  - destruct (IH (Qmax x y)) as (H1 & H2).
    pose proof (Q.le_max_l x y). pose proof (Q.le_max_r x y).
    split; [lra |]. constructor; [lra | exact H2].
Qed.

Lemma np_min_le (a : array) (m : Q) :
  np_min a = Ok m -> Forall (fun y => m <= y) a.
Proof.
  destruct a as [|x a]; [discriminate |]. intros H. apply Ok_inj in H.
  subst m. destruct (fold_min_le a x). constructor; assumption.
Qed.

Lemma np_max_ge (a : array) (m : Q) :
  np_max a = Ok m -> Forall (fun y => y <= m) a.
Proof.
  destruct a as [|x a]; [discriminate |]. intros H. apply Ok_inj in H.
  subst m. destruct (fold_max_ge a x). constructor; assumption.
Qed.

(** X16.  For a positive cell size and a table of at least one point,
    [identify_domain_bounds] returns bounds that are whole multiples of the
    cell size and enclose every point and, when a grid is given, the grid
    limits. *)
Theorem identify_domain_bounds_encloses
    (grid : option grid_descriptor) (cell_size : Q) (pts : point_table) :
  0 < cell_size ->
  easting pts <> [] -> northing pts <> [] ->
  exists xmin ymin xmax ymax,
    identify_domain_bounds grid cell_size (Some pts)
    = Ok (xmin, ymin, xmax, ymax)
    /\ Forall (fun x => xmin <= x /\ x <= xmax) (easting pts)
    /\ Forall (fun y => ymin <= y /\ y <= ymax) (northing pts)
    /\ (forall g, grid = Some g ->
          xmin <= fst (fst (fst (grid_limits g)))
          /\ ymin <= snd (fst (fst (grid_limits g)))
          /\ snd (fst (grid_limits g)) <= xmax
          /\ snd (grid_limits g) <= ymax)
    /\ (exists i j k l : Z,
          xmin = inject_Z i * cell_size /\ ymin = inject_Z j * cell_size
          /\ xmax = inject_Z k * cell_size /\ ymax = inject_Z l * cell_size).
Proof.
  intros Hpos Hx Hy.
  destruct pts as [xs ys]. cbn [easting northing] in *.
  destruct xs as [|x0 xs]; [congruence |].
  destruct ys as [|y0 ys]; [congruence |].
  pose proof (np_min_le (x0 :: xs) _ eq_refl) as Hxmin.
  pose proof (np_min_le (y0 :: ys) _ eq_refl) as Hymin.
  pose proof (np_max_ge (x0 :: xs) _ eq_refl) as Hxmax.
  pose proof (np_max_ge (y0 :: ys) _ eq_refl) as Hymax.
  set (pxmin := fold_left Qmin xs x0) in *.
  set (pymin := fold_left Qmin ys y0) in *.
  set (pxmax := fold_left Qmax xs x0) in *.
  set (pymax := fold_left Qmax ys y0) in *.
  assert (Hin : forall lo hi (a : array),
             Forall (fun v => lo <= v) a -> Forall (fun v => v <= hi) a ->
             forall lo' hi', lo' <= lo -> hi <= hi' ->
             Forall (fun v => lo' <= v /\ v <= hi') a).
  { intros lo hi a Hlo Hhi lo' hi' H1 H2.
    rewrite Forall_forall in *. intros v Hv.
    specialize (Hlo v Hv). specialize (Hhi v Hv). split; lra. }
  destruct grid as [g|].
  - destruct g as [gx gy nc nr cs].
    pose proof (round_down_le (Qmin pxmin gx) cell_size Hpos).
    pose proof (round_down_le (Qmin pymin gy) cell_size Hpos).
    pose proof (round_up_ge (Qmax pxmax (gx + inject_Z nc * cs)) cell_size Hpos).
    pose proof (round_up_ge (Qmax pymax (gy + inject_Z nr * cs)) cell_size Hpos).
    pose proof (Q.le_min_l pxmin gx). pose proof (Q.le_min_r pxmin gx).
    pose proof (Q.le_min_l pymin gy). pose proof (Q.le_min_r pymin gy).
    pose proof (Q.le_max_l pxmax (gx + inject_Z nc * cs)).
    pose proof (Q.le_max_r pxmax (gx + inject_Z nc * cs)).
    pose proof (Q.le_max_l pymax (gy + inject_Z nr * cs)).
    pose proof (Q.le_max_r pymax (gy + inject_Z nr * cs)).
    exists (round_down (Qmin pxmin gx) cell_size),
      (round_down (Qmin pymin gy) cell_size),
      (round_up (Qmax pxmax (gx + inject_Z nc * cs)) cell_size),
      (round_up (Qmax pymax (gy + inject_Z nr * cs)) cell_size).
    split; [reflexivity |].
    split; [eapply Hin; [exact Hxmin | exact Hxmax | lra | lra] |].
    split; [eapply Hin; [exact Hymin | exact Hymax | lra | lra] |].
    split.
    + intros g' Hg. apply (f_equal (fun o => match o with
                                             | Some v => v
                                             | None => g'
                                             end)) in Hg.
      subst g'. cbn [grid_limits fst snd xllcorner yllcorner grid_ncols
                       grid_nrows cellsize].
      repeat split; lra.
    + unfold round_down, round_up. do 4 eexists. repeat split.
  - pose proof (round_down_le pxmin cell_size Hpos).
    pose proof (round_down_le pymin cell_size Hpos).
    pose proof (round_up_ge pxmax cell_size Hpos).
    pose proof (round_up_ge pymax cell_size Hpos).
    exists (round_down pxmin cell_size), (round_down pymin cell_size),
      (round_up pxmax cell_size), (round_up pymax cell_size).
    split; [reflexivity |].
    split; [eapply Hin; [exact Hxmin | exact Hxmax | lra | lra] |].
    split; [eapply Hin; [exact Hymin | exact Hymax | lra | lra] |].
    split; [intros g' Hg; discriminate |].
    unfold round_down, round_up. do 4 eexists. repeat split.
Qed.

Lemma identify_domain_bounds_encloses_witness :
  exists xmin ymin xmax ymax,
    identify_domain_bounds (Some (mkGrid 500 250 3 2 1000)) 1000
      (Some (mkPoints [1200; 4100] [-300; 900]))
    = Ok (xmin, ymin, xmax, ymax)
    /\ Forall (fun x => xmin <= x /\ x <= xmax) [1200; 4100]
    /\ Forall (fun y => ymin <= y /\ y <= ymax) [-300; 900]
    /\ (forall g, Some (mkGrid 500 250 3 2 1000) = Some g ->
          xmin <= fst (fst (fst (grid_limits g)))
          /\ ymin <= snd (fst (fst (grid_limits g)))
          /\ snd (fst (grid_limits g)) <= xmax
          /\ snd (grid_limits g) <= ymax)
    /\ (exists i j k l : Z,
          xmin = inject_Z i * 1000 /\ ymin = inject_Z j * 1000
          /\ xmax = inject_Z k * 1000 /\ ymax = inject_Z l * 1000).
Proof.
  apply (identify_domain_bounds_encloses (Some (mkGrid 500 250 3 2 1000)) 1000
           (mkPoints [1200; 4100] [-300; 900])).
  - reflexivity.
  - discriminate.
  - discriminate.
Defined.

(** ** The bin edges of the empirical variogram *)

Lemma removelast_map_seq (f : nat -> Q) (n : nat) :
  removelast (map f (seq 0 (S n))) = map f (seq 0 n).
Proof.
  rewrite seq_S, map_app. cbn [map]. apply removelast_last.
Qed.

Section BinEdges.

Variable max_distance : Q.
Variable distance_bins : Z.
Hypothesis max_distance_pos : 0 < max_distance.
Hypothesis distance_bins_pos : (0 < distance_bins)%Z.

Local Notation "'interval'" := (max_distance / inject_Z distance_bins).
Local Notation "'stop'" := (max_distance + (1 # 10)).
Local Notation "'count'" := (Qceiling ((stop - 0) / interval)).

Lemma interval_pos : 0 < interval.
Proof.
  apply Qlt_shift_div_l; [| lra].
  change 0 with (inject_Z 0). rewrite <- Zlt_Qlt. exact distance_bins_pos.
Qed.

Lemma bins_pos : 0 < inject_Z distance_bins.
Proof.
  change 0 with (inject_Z 0). rewrite <- Zlt_Qlt. exact distance_bins_pos.
Qed.

(** [stop / interval] is [distance_bins * (1 + 1 / (10 * max_distance))]. *)
Lemma stop_over_interval :
  (stop - 0) / interval
  == inject_Z distance_bins
     + inject_Z distance_bins / (10 * max_distance).
Proof.
  pose proof bins_pos. field. split; lra.
Qed.

Lemma count_gt_bins : (distance_bins + 1 <= count)%Z.
Proof.
  pose proof (Qle_ceiling ((stop - 0) / interval)) as Hc.
  rewrite stop_over_interval in Hc at 1.
  assert (0 < inject_Z distance_bins / (10 * max_distance)).
  { pose proof bins_pos. apply Qlt_shift_div_l; lra. }
  assert (Hlt : inject_Z distance_bins < inject_Z count) by lra.
  rewrite <- Zlt_Qlt in Hlt. lia.
Qed.

Lemma count_bins_exact :
  inject_Z distance_bins / 10 <= max_distance ->
  count = (distance_bins + 1)%Z.
Proof.
  intros H.
  assert (0 < inject_Z distance_bins / (10 * max_distance)).
  { pose proof bins_pos. apply Qlt_shift_div_l; lra. }
  assert (inject_Z distance_bins / (10 * max_distance) <= 1).
  { apply Qle_shift_div_r; [lra |].
    assert (inject_Z distance_bins == inject_Z distance_bins / 10 * 10)
      by (field).
    lra. }
  apply Qceiling_unique; rewrite stop_over_interval.
  - replace (distance_bins + 1 - 1)%Z with distance_bins by lia. lra.
  - rewrite inject_Z_plus. change (inject_Z 1) with 1. lra.
Qed.

Lemma count_bins_more :
  max_distance < inject_Z distance_bins / 10 ->
  (distance_bins + 2 <= count)%Z.
Proof.
  intros H.
  pose proof (Qle_ceiling ((stop - 0) / interval)) as Hc.
  rewrite stop_over_interval in Hc at 1.
  assert (1 < inject_Z distance_bins / (10 * max_distance)).
  { apply Qlt_shift_div_l; [lra |].
    assert (inject_Z distance_bins == inject_Z distance_bins / 10 * 10)
      by (field).
    lra. }
  assert (Hlt : inject_Z (distance_bins + 1) < inject_Z count).
  { rewrite inject_Z_plus. change (inject_Z 1) with 1. lra. }
  rewrite <- Zlt_Qlt in Hlt. lia.
Qed.

Lemma bin_edges_of_value :
  bin_edges_of max_distance distance_bins
  = Ok (map (fun k => 0 + inject_Z (Z.of_nat k) * interval)
          (seq 0 (Z.to_nat count - 1))
        ++ [stop]).
Proof.
  unfold bin_edges_of, np_arange.
  pose proof interval_pos as Hi.
  destruct (Qeq_bool interval 0) eqn:E.
  { apply Qeq_bool_iff in E. lra. }
  cbn [bind].
  pose proof count_gt_bins as Hc.
  destruct (Z.to_nat count) as [|n] eqn:En; [lia |].
  unfold set_last.
  destruct (map (fun k => 0 + inject_Z (Z.of_nat k) * interval) (seq 0 (S n)))
    as [|e l] eqn:El.
  { rewrite seq_S, map_app in El. destruct (map _ (seq 0 n)); discriminate. }
  rewrite <- El, removelast_map_seq.
  replace (S n - 1)%nat with n by lia. reflexivity.
Qed.

(** The edges below the last are below it. *)
Lemma regular_edge_below_stop (k : nat) :
  (k < Z.to_nat count - 1)%nat ->
  0 + inject_Z (Z.of_nat k) * interval < stop.
Proof.
  intros Hk.
  pose proof interval_pos as Hi.
  pose proof (Qceiling_lt ((stop - 0) / interval)) as Hc.
  assert (Hk' : inject_Z (Z.of_nat k) <= inject_Z (count - 1)).
  { rewrite <- Zle_Qle. lia. }
  assert (Hlt : inject_Z (Z.of_nat k) < (stop - 0) / interval)
    by (eapply Qle_lt_trans; eassumption).
  apply (Qmult_lt_compat_r _ _ interval Hi) in Hlt.
  pose proof bins_pos.
  assert (He : (stop - 0) / interval * interval == stop)
    by (field; split; lra).
  rewrite He in Hlt. rewrite Qplus_0_l. exact Hlt.
Qed.

End BinEdges.

(** X18.  For a positive largest distance and a positive number of bins the bin
    edges start at 0, increase strictly and end at the largest distance plus
    0.1, so every pairwise distance falls in a bin.  There are
    [distance_bins] bins when [max_distance >= distance_bins / 10], and more
    than that when the largest distance is smaller. *)
Theorem bin_edges_of_increasing (max_distance : Q) (distance_bins : Z) :
  0 < max_distance -> (0 < distance_bins)%Z ->
  exists bin_edges,
    bin_edges_of max_distance distance_bins = Ok bin_edges
    /\ nth 0 bin_edges 0 == 0
    /\ nth (length bin_edges - 1) bin_edges 0 == max_distance + (1 # 10)
    /\ (forall j k, (j < k < length bin_edges)%nat ->
          nth j bin_edges 0 < nth k bin_edges 0)
    /\ (inject_Z distance_bins / 10 <= max_distance ->
        Z.of_nat (length bin_edges) = (distance_bins + 1)%Z)
    /\ (max_distance < inject_Z distance_bins / 10 ->
        (distance_bins + 1 < Z.of_nat (length bin_edges))%Z).
Proof.
  intros Hmd Hn.
  pose proof (count_gt_bins max_distance distance_bins Hmd Hn) as Hc.
  pose proof (interval_pos max_distance distance_bins Hmd Hn) as Hi.
  set (interval := max_distance / inject_Z distance_bins) in *.
  set (n := (Z.to_nat (Qceiling ((max_distance + (1 # 10) - 0) / interval))
             - 1)%nat).
  set (f := fun k : nat => 0 + inject_Z (Z.of_nat k) * interval).
  assert (Hn1 : (1 <= n)%nat) by (unfold n; lia).
  exists (map f (seq 0 n) ++ [max_distance + (1 # 10)]).
  assert (Hnth : forall k, (k < n)%nat ->
             nth k (map f (seq 0 n) ++ [max_distance + (1 # 10)]) 0 = f k).
  { intros k Hk. rewrite app_nth1 by (rewrite length_map, length_seq; lia).
    rewrite (nth_indep _ 0 (f 0%nat))
      by (rewrite length_map, length_seq; lia).
    rewrite map_nth, seq_nth by lia. reflexivity. }
  assert (Hlast : nth n (map f (seq 0 n) ++ [max_distance + (1 # 10)]) 0
                  = max_distance + (1 # 10)).
  { rewrite app_nth2 by (rewrite length_map, length_seq; lia).
    rewrite length_map, length_seq, Nat.sub_diag. reflexivity. }
  assert (Hlen : length (map f (seq 0 n) ++ [max_distance + (1 # 10)])
                 = S n).
  { rewrite length_app, length_map, length_seq. cbn [length]. lia. }
  split; [apply (bin_edges_of_value max_distance distance_bins Hmd Hn) |].
  rewrite Hlen. replace (S n - 1)%nat with n by lia.
  split; [rewrite Hnth by lia; unfold f; cbn; ring |].
  split; [rewrite Hlast; reflexivity |].
  split; [| split].
  - intros j k Hjk.
    assert (Hfj : nth j (map f (seq 0 n) ++ [max_distance + (1 # 10)]) 0 = f j)
      by (apply Hnth; lia).
    rewrite Hfj.
    destruct (Nat.eq_dec k n) as [-> | Hkn].
    + rewrite Hlast.
      apply (regular_edge_below_stop max_distance distance_bins Hmd Hn j).
      fold interval. fold n. lia.
    + rewrite Hnth by lia. unfold f.
      assert (inject_Z (Z.of_nat j) < inject_Z (Z.of_nat k))
        by (rewrite <- Zlt_Qlt; lia).
      assert (inject_Z (Z.of_nat j) * interval
              < inject_Z (Z.of_nat k) * interval)
        by (apply Qmult_lt_compat_r; assumption).
      lra.
  - intros H.
    pose proof (count_bins_exact max_distance distance_bins Hmd Hn H) as Hx.
    fold interval in Hx. unfold n. lia.
  - intros H.
    pose proof (count_bins_more max_distance distance_bins Hmd Hn H) as Hx.
    fold interval in Hx. unfold n. lia.
Qed.

Lemma bin_edges_of_increasing_witness :
  exists bin_edges,
    bin_edges_of (1 # 2) 7 = Ok bin_edges
    /\ nth 0 bin_edges 0 == 0
    /\ nth (length bin_edges - 1) bin_edges 0 == (1 # 2) + (1 # 10)
    /\ (forall j k, (j < k < length bin_edges)%nat ->
          nth j bin_edges 0 < nth k bin_edges 0)
    /\ (inject_Z 7 / 10 <= 1 # 2 -> Z.of_nat (length bin_edges) = (7 + 1)%Z)
    /\ (1 # 2 < inject_Z 7 / 10 -> (7 + 1 < Z.of_nat (length bin_edges))%Z).
Proof.
  apply (bin_edges_of_increasing (1 # 2) 7).
  - reflexivity.
  - reflexivity.
Defined.

(** X19.  With fewer than two calibration points there is no pairwise distance:
    the maximum of the empty distance array raises [ValueError] and no
    variogram is estimated. *)
Theorem empirical_variogram_needs_two_points
    (sqrt : Q -> Q)
    (vario_estimate : point_table -> array -> array -> array * array * list Z)
    (df1 : point_table) (field : array) (distance_bins : Z) :
  (length (easting df1) <= 1)%nat ->
  empirical_variogram sqrt vario_estimate df1 field distance_bins
  = Raise ValueError.
Proof.
  intros H. unfold empirical_variogram, max_distance_of.
  destruct df1 as [xs ys]. cbn [easting northing] in *.
  destruct xs as [|x [|x' xs]]; cbn in H; try lia.
  - reflexivity.
  - destruct ys as [|y ys]; [reflexivity |]. cbn [combine pdist].
    destruct ys; reflexivity.
Qed.

Lemma empirical_variogram_needs_two_points_witness :
  empirical_variogram Qsqrt_exact (fun _ _ _ => ([], [], []))
    (mkPoints [3] [4]) [2] 7
  = Raise ValueError.
Proof.
  apply (empirical_variogram_needs_two_points Qsqrt_exact
           (fun _ _ _ => ([], [], [])) (mkPoints [3] [4]) [2] 7).
  cbn. lia.
Defined.

(** ** The month loop never completes an iteration *)

Lemma map2_same_length {A B C : Type} (f : A -> B -> C) :
  forall (a : list A) (b : list B),
    length a = length b ->
    map2 f a b = Ok (map (fun p => f (fst p) (snd p)) (combine a b)).
Proof.
  induction a as [|x a IH]; intros [|y b] L; simpl in *; try discriminate.
  - reflexivity.
  - rewrite IH by congruence. reflexivity.
Qed.

(** X8.  The non-spatial path of [discretise_by_point] returns only for an empty
    month table (with nothing staged for writing).  For any month table with
    at least one row it raises, whatever the raincells and the buffer are;
    when the columns of the raincell table have one length and every row of
    the buffer has an entry, what it raises is the [TypeError] of the
    seven-argument call of the six-parameter kernel. *)
Theorem discretise_by_point_never_returns
    (datetime_helper : list month_row) (df : raincell_table)
    (timestep_length : Q) (discrete_rainfall : array2) :
  datetime_helper <> [] ->
  (exists e,
      discretise_by_point datetime_helper df timestep_length discrete_rainfall
      = Raise e)
  /\ (length (raincell_end df) = length (raincell_arrival df) ->
      length (raincell_intensity df) = length (raincell_arrival df) ->
      Forall (fun row => (0 < length row)%nat) (rows discrete_rainfall) ->
      discretise_by_point datetime_helper df timestep_length discrete_rainfall
      = Raise TypeError)
  /\ discretise_by_point [] df timestep_length discrete_rainfall = Ok [].
Proof.
  intros Hne. destruct datetime_helper as [|row rest]; [congruence |].
  split; [| split; [| reflexivity]].
  - unfold discretise_by_point. cbn [month_loop].
    destruct (month_step_raises df timestep_length 0 row
                (discrete_rainfall, [])) as (e & ->).
    exists e. reflexivity.
  - intros Le Li Hrows.
    unfold discretise_by_point. cbn [month_loop]. unfold month_step.
    rewrite (map2_same_length _ _ _ (eq_sym Le)). cbn [bind].
    set (mask := map _ (combine (raincell_arrival df) (raincell_end df))).
    assert (Lm : length mask = length (raincell_arrival df)).
    { unfold mask. rewrite length_map, length_combine. lia. }
    rewrite (mask_select_filter mask (raincell_arrival df)) by exact Lm.
    rewrite (mask_select_filter mask (raincell_end df)) by congruence.
    rewrite (mask_select_filter mask (raincell_intensity df)) by congruence.
    cbn [bind].
    destruct (column_of_returns (rows discrete_rainfall) 0 Hrows) as (v & Hv).
    unfold column. rewrite Hv. cbn [bind].
    rewrite discretise_point_call_arity. reflexivity.
Qed.

Lemma discretise_by_point_never_returns_witness :
  (exists e,
      discretise_by_point [mkMonth 2000 1 3 0 3; mkMonth 2000 2 3 3 6]
        (mkTable [0; 4] [1; 5] [2; 2]) 1 (zeros2 3 1) = Raise e)
  /\ (length [1; 5] = length [0; 4] ->
      length [2; 2] = length [0; 4] ->
      Forall (fun row => (0 < length row)%nat) (rows (zeros2 3 1)) ->
      discretise_by_point [mkMonth 2000 1 3 0 3; mkMonth 2000 2 3 3 6]
        (mkTable [0; 4] [1; 5] [2; 2]) 1 (zeros2 3 1) = Raise TypeError)
  /\ discretise_by_point [] (mkTable [0; 4] [1; 5] [2; 2]) 1 (zeros2 3 1)
     = Ok [].
Proof.
  apply (discretise_by_point_never_returns
           [mkMonth 2000 1 3 0 3; mkMonth 2000 2 3 3 6]
           (mkTable [0; 4] [1; 5] [2; 2]) 1 (zeros2 3 1)).
  discriminate.
Defined.

(** ** Grid cell centres *)

Lemma length_concat_uniform {A : Type} (m : nat) (blocks : list (list A)) :
  Forall (fun b => length b = m) blocks ->
  length (concat blocks) = (length blocks * m)%nat.
Proof.
  induction 1 as [|b blocks Hb _ IH]; simpl; [reflexivity |].
  rewrite length_app, IH, Hb. reflexivity.
Qed.

Lemma nth_concat_uniform {A : Type} (m : nat) (d : A) (c : nat) :
  (c < m)%nat ->
  forall (blocks : list (list A)) (r : nat),
    Forall (fun b => length b = m) blocks ->
    (r < length blocks)%nat ->
    nth (r * m + c) (concat blocks) d = nth c (nth r blocks []) d.
Proof.
  intros Hc blocks. induction blocks as [|b blocks IH]; intros r Hall Hr.
  - simpl in Hr. lia.
  - inversion Hall as [|? ? Hb Hrest]; subst.
    destruct r as [|r]; cbn [concat nth].
    + apply app_nth1. simpl. lia.
    + rewrite app_nth2 by (simpl; lia).
      replace (S r * length b + c - length b)%nat
        with (r * length b + c)%nat by (simpl; lia).
      apply IH; [exact Hrest | simpl in Hr; lia].
Qed.

Lemma nth_map_lt {A B : Type} (f : A -> B) (d : B) (d' : A) :
  forall (l : list A) (n : nat),
    (n < length l)%nat -> nth n (map f l) d = f (nth n l d').
Proof.
  induction l as [|x l IH]; intros [|n] H; simpl in *; try lia.
  - reflexivity.
  - apply IH. lia.
Qed.

(** [np.arange(o + s/2, o + n*s, s)] has [n] values, the cell centres. *)
Lemma arange_cell_centres (o s : Q) (n : Z) :
  0 < s -> (0 <= n)%Z ->
  np_arange (o + s / 2) (o + inject_Z n * s) s
  = Ok (map (fun k => o + s / 2 + inject_Z (Z.of_nat k) * s)
          (seq 0 (Z.to_nat n))).
Proof.
  intros Hs Hn. unfold np_arange.
  destruct (Qeq_bool s 0) eqn:E.
  { apply Qeq_bool_iff in E. lra. }
  assert (Hc : Qceiling ((o + inject_Z n * s - (o + s / 2)) / s) = n).
  { assert (Hx : (o + inject_Z n * s - (o + s / 2)) / s
                 == inject_Z n - (1 # 2)) by (field; lra).
    apply Qceiling_unique; rewrite Hx.
    - unfold Z.sub. rewrite inject_Z_plus, inject_Z_opp.
      change (inject_Z 1) with 1. lra.
    - lra. }
  rewrite Hc. reflexivity.
Qed.

(** X17.  For a positive cell size the grid locations are the cell centres, one
    for each cell, row by row from the northernmost row to the southernmost
    and from west to east within a row. *)
Theorem grid_cell_centres_coordinates
    (grid : grid_descriptor) (cell_size : Q) :
  0 < cell_size ->
  (0 <= grid_ncols grid)%Z -> (0 <= grid_nrows grid)%Z ->
  exists xf yf,
    grid_cell_centres grid cell_size = Ok (xf, yf)
    /\ length xf = Z.to_nat (grid_nrows grid * grid_ncols grid)
    /\ length yf = Z.to_nat (grid_nrows grid * grid_ncols grid)
    /\ forall r c : nat,
         (Z.of_nat r < grid_nrows grid)%Z ->
         (Z.of_nat c < grid_ncols grid)%Z ->
         nth (r * Z.to_nat (grid_ncols grid) + c) xf 0
         == xllcorner grid + (inject_Z (Z.of_nat c) + (1 # 2)) * cell_size
         /\ nth (r * Z.to_nat (grid_ncols grid) + c) yf 0
            == yllcorner grid
               + (inject_Z (grid_nrows grid - 1 - Z.of_nat r) + (1 # 2))
                 * cell_size.
Proof.
  intros Hs Hnc Hnr. unfold grid_cell_centres.
  rewrite (arange_cell_centres _ _ _ Hs Hnc).
  rewrite (arange_cell_centres _ _ _ Hs Hnr). cbn [bind].
  set (nc := Z.to_nat (grid_ncols grid)).
  set (nr := Z.to_nat (grid_nrows grid)).
  set (fx := fun k : nat =>
               xllcorner grid + cell_size / 2 + inject_Z (Z.of_nat k) * cell_size).
  set (fy := fun k : nat =>
               yllcorner grid + cell_size / 2 + inject_Z (Z.of_nat k) * cell_size).
  set (x := map fx (seq 0 nc)). set (y := rev (map fy (seq 0 nr))).
  assert (Lx : length x = nc) by (unfold x; rewrite length_map, length_seq; reflexivity).
  assert (Ly : length y = nr)
    by (unfold y; rewrite length_rev, length_map, length_seq; reflexivity).
  assert (Hxb : Forall (fun b => length b = nc) (map (fun _ : Q => x) y)).
  { apply Forall_forall. intros b Hb. apply in_map_iff in Hb.
    destruct Hb as (? & <- & _). exact Lx. }
  assert (Hyb : Forall (fun b => length b = nc)
                  (map (fun yi : Q => map (fun _ : Q => yi) x) y)).
  { apply Forall_forall. intros b Hb. apply in_map_iff in Hb.
    destruct Hb as (? & <- & _). rewrite length_map. exact Lx. }
  exists (concat (map (fun _ : Q => x) y)),
    (concat (map (fun yi : Q => map (fun _ : Q => yi) x) y)).
  split; [reflexivity |].
  assert (Hcount : Z.to_nat (grid_nrows grid * grid_ncols grid)
                   = (nr * nc)%nat) by (unfold nr, nc; lia).
  split; [rewrite (length_concat_uniform nc _ Hxb), length_map, Ly; lia |].
  split; [rewrite (length_concat_uniform nc _ Hyb), length_map, Ly; lia |].
  intros r c Hr Hc.
  assert (Hr' : (r < nr)%nat) by (unfold nr; lia).
  assert (Hc' : (c < nc)%nat) by (unfold nc; lia).
  rewrite (nth_concat_uniform nc 0 c Hc' _ r Hxb)
    by (rewrite length_map; lia).
  rewrite (nth_concat_uniform nc 0 c Hc' _ r Hyb)
    by (rewrite length_map; lia).
  split.
  - rewrite (nth_map_lt (fun _ : Q => x) [] 0) by lia.
    unfold x. rewrite (nth_map_lt fx 0 0%nat) by (rewrite length_seq; lia).
    rewrite seq_nth by lia. unfold fx. cbn [Nat.add]. field.
  - rewrite (nth_map_lt (fun yi : Q => map (fun _ : Q => yi) x) [] 0) by lia.
    rewrite (nth_map_lt (fun _ : Q => nth r y 0) 0 0) by lia.
    unfold y. rewrite rev_nth by (rewrite length_map, length_seq; lia).
    rewrite length_map, length_seq.
    rewrite (nth_map_lt fy 0 0%nat) by (rewrite length_seq; lia).
    rewrite seq_nth by lia. unfold fy. cbn [Nat.add].
    replace (Z.of_nat (nr - S r)) with (grid_nrows grid - 1 - Z.of_nat r)%Z
      by (unfold nr; lia).
    field.
Qed.

Lemma grid_cell_centres_coordinates_witness :
  exists xf yf,
    grid_cell_centres (mkGrid 500 250 3 2 1000) 1000 = Ok (xf, yf)
    /\ length xf = Z.to_nat (2 * 3)
    /\ length yf = Z.to_nat (2 * 3)
    /\ forall r c : nat,
         (Z.of_nat r < 2)%Z ->
         (Z.of_nat c < 3)%Z ->
         nth (r * Z.to_nat 3 + c) xf 0
         == 500 + (inject_Z (Z.of_nat c) + (1 # 2)) * 1000
         /\ nth (r * Z.to_nat 3 + c) yf 0
            == 250 + (inject_Z (2 - 1 - Z.of_nat r) + (1 # 2)) * 1000.
Proof.
  apply (grid_cell_centres_coordinates (mkGrid 500 250 3 2 1000) 1000).
  - reflexivity.
  - cbn. lia.
  - cbn. lia.
Defined.

(** ** The interpolator and the elevation test *)

Section InterpolatorFacts.

Variable sqrt : Q -> Q.
Variable log : Q -> Q.
Variable linregress : array -> array -> result regression.
Variable vario_estimate :
  point_table -> array -> array -> array * array * list Z.
Variable fitted_model : Type.
Variable fit_variogram :
  covariance_kind -> array -> array -> result (fitted_model * Q).

Local Notation "'interpolator'" :=
  (make_phi_interpolator sqrt log linregress vario_estimate fitted_model
     fit_variogram).

(** X20.  When elevation is to be included and neither regression of phi on
    elevation is significant at the 5 per cent level, the local
    [log_transformation] is never assigned and the function stops with
    [UnboundLocalError] at its first use, whatever the calibration data. *)
Theorem make_phi_interpolator_no_significant_regression
    (df1 : list calibration_point) (distance_bins : Z)
    (untransformed_regression log_transformed_regression : regression) :
  linregress (map cal_elevation df1) (map cal_phi df1)
  = Ok untransformed_regression ->
  linregress (map cal_elevation df1) (map log (map cal_phi df1))
  = Ok log_transformed_regression ->
  5 # 100 <= pvalue untransformed_regression ->
  5 # 100 <= pvalue log_transformed_regression ->
  interpolator df1 true distance_bins = Raise UnboundLocalError.
Proof.
  intros Hu Hl Hpu Hpl.
  unfold make_phi_interpolator, elevation_dependence.
  rewrite Hu, Hl. cbn [bind].
  assert (Eu : Qlt_bool (pvalue untransformed_regression) (5 # 100) = false).
  { unfold Qlt_bool. apply negb_false_iff. apply Qle_bool_iff. exact Hpu. }
  assert (El : Qlt_bool (pvalue log_transformed_regression) (5 # 100) = false).
  { unfold Qlt_bool. apply negb_false_iff. apply Qle_bool_iff. exact Hpl. }
  rewrite Eu, El. reflexivity.
Qed.

(** X21.  What a returned interpolator is.  With [include_elevation] it is always
    external-drift kriging on the elevations, one of the two regressions was
    significant, and phi is log-transformed exactly when the
    log-transformed regression has the larger correlation coefficient;
    without it, it is ordinary kriging of the untransformed phi.  In both
    cases kriging is conditioned on the phi values themselves (transformed
    or not), at all calibration points. *)
Theorem make_phi_interpolator_result
    (df1 : list calibration_point) (include_elevation : bool)
    (distance_bins : Z)
    (phi_interpolator : kriging fitted_model) (log_transformation : bool) :
  interpolator df1 include_elevation distance_bins
  = Ok (phi_interpolator, log_transformation) ->
  let pos := mkPoints (map cal_easting df1) (map cal_northing df1) in
  let phi := if log_transformation then map log (map cal_phi df1)
             else map cal_phi df1 in
  if include_elevation then
    (exists model,
        phi_interpolator
        = ExtDrift fitted_model model pos phi (map cal_elevation df1))
    /\ exists untransformed_regression log_transformed_regression,
         linregress (map cal_elevation df1) (map cal_phi df1)
         = Ok untransformed_regression
         /\ linregress (map cal_elevation df1) (map log (map cal_phi df1))
            = Ok log_transformed_regression
         /\ (pvalue untransformed_regression < 5 # 100
             \/ pvalue log_transformed_regression < 5 # 100)
         /\ (log_transformation = true
             <-> rvalue untransformed_regression
                 < rvalue log_transformed_regression)
  else
    log_transformation = false
    /\ exists model, phi_interpolator = Ordinary fitted_model model pos phi.
Proof.
  intros H pos phi. unfold make_phi_interpolator in H.
  apply bind_ok_inv in H. destruct H as ([[[u l] sig] lt] & Hdep & H).
  apply bind_ok_inv in H. destruct H as (lt' & Hlt & H).
  apply bind_ok_inv in H. destruct H as (field & _ & H).
  apply bind_ok_inv in H. destruct H as ([[edges centres] gamma] & _ & H).
  apply bind_ok_inv in H. destruct H as (ex & _ & H).
  apply bind_ok_inv in H. destruct H as (sp & _ & H).
  apply Ok_inj in H.
  apply (f_equal (fun p => (fst p, snd p))) in H. cbn [fst snd] in H.
  assert (Hk := f_equal fst H). assert (Hb := f_equal snd H).
  cbn [fst snd] in Hk, Hb. subst lt'. clear H.
  unfold elevation_dependence in Hdep.
  destruct include_elevation.
  - apply bind_ok_inv in Hdep. destruct Hdep as (ru & Hu & Hdep).
    apply bind_ok_inv in Hdep. destruct Hdep as (rl & Hl & Hdep).
    destruct (Qlt_bool (pvalue ru) (5 # 100)
              || Qlt_bool (pvalue rl) (5 # 100)) eqn:Ep;
      apply Ok_inj in Hdep;
      apply (f_equal (fun p => (snd (fst p), snd p))) in Hdep;
      cbn [fst snd] in Hdep;
      assert (Hs := f_equal fst Hdep); assert (Hv := f_equal snd Hdep);
      cbn [fst snd] in Hs, Hv; subst sig lt; [| discriminate].
    apply Ok_inj in Hlt.
    cbn [andb] in Hk. split.
    + eexists. symmetry. unfold phi, pos. exact Hk.
    + exists ru, rl. split; [exact Hu |]. split; [exact Hl |].
      split.
      * apply orb_prop in Ep. unfold Qlt_bool in Ep.
        destruct Ep as [Ep | Ep]; apply negb_true_iff in Ep;
          [left | right]; apply Qnot_le_lt; intros Hle;
          apply Qle_bool_iff in Hle; congruence.
      * rewrite <- Hlt. rewrite negb_true_iff. split.
        -- intros Hf. apply Qnot_le_lt. intros Hle.
           apply Qle_bool_iff in Hle. congruence.
        -- intros Hlt'. destruct (Qle_bool (rvalue rl) (rvalue ru)) eqn:E;
             [| reflexivity].
           apply Qle_bool_iff in E. lra.
  - apply Ok_inj in Hdep.
    apply (f_equal (fun p => (snd (fst p), snd p))) in Hdep.
    cbn [fst snd] in Hdep.
    assert (Hs := f_equal fst Hdep). assert (Hv := f_equal snd Hdep).
    cbn [fst snd] in Hs, Hv. subst sig lt.
    apply Ok_inj in Hlt. subst log_transformation.
    split; [reflexivity |]. cbn [andb] in Hk.
    eexists. symmetry. exact Hk.
Qed.

End InterpolatorFacts.

(** Regressions with p-values 0.5 and 0.2. *)
Lemma make_phi_interpolator_no_significant_regression_witness :
  make_phi_interpolator Qsqrt_exact (fun v => v)
    (fun _ y => Ok (mkRegression 0 1 0 (nth 0 y 0)))
    (fun _ _ _ => ([], [], [])) unit (fun _ _ _ => Ok (tt, 0))
    [mkCalibration 0 0 10 (1 # 2); mkCalibration 3 4 20 (1 # 5)] true 7
  = Raise UnboundLocalError.
Proof.
  apply (make_phi_interpolator_no_significant_regression Qsqrt_exact
           (fun v => v) (fun _ y => Ok (mkRegression 0 1 0 (nth 0 y 0)))
           (fun _ _ _ => ([], [], [])) unit (fun _ _ _ => Ok (tt, 0))
           [mkCalibration 0 0 10 (1 # 2); mkCalibration 3 4 20 (1 # 5)] 7
           (mkRegression 0 1 0 (1 # 2)) (mkRegression 0 1 0 (1 # 2))).
  - reflexivity.
  - reflexivity.
  - vm_compute. discriminate.
  - vm_compute. discriminate.
Defined.

(** Two significant regressions, the log-transformed one with the larger
    correlation coefficient. *)
Lemma make_phi_interpolator_result_witness :
  (exists model,
      ExtDrift unit tt (mkPoints [0; 3] [0; 4]) [3 # 2; 6 # 5] [10; 20]
      = ExtDrift unit model (mkPoints [0; 3] [0; 4])
          (map (fun v => v + 1) [1 # 2; 1 # 5]) [10; 20])
  /\ exists untransformed_regression log_transformed_regression,
       Ok (mkRegression 0 1 (1 # 2) (1 # 100)) = Ok untransformed_regression
       /\ Ok (mkRegression 0 1 ((1 # 2) + 1) (1 # 100))
          = Ok log_transformed_regression
       /\ (pvalue untransformed_regression < 5 # 100
           \/ pvalue log_transformed_regression < 5 # 100)
       /\ (true = true
           <-> rvalue untransformed_regression
               < rvalue log_transformed_regression).
Proof.
  apply (make_phi_interpolator_result Qsqrt_exact (fun v => v + 1)
           (fun _ y => Ok (mkRegression 0 1 (nth 0 y 0) (1 # 100)))
           (fun _ _ _ => ([], [], [])) unit (fun _ _ _ => Ok (tt, 0))
           [mkCalibration 0 0 10 (1 # 2); mkCalibration 3 4 20 (1 # 5)]
           true 7
           (ExtDrift unit tt (mkPoints [0; 3] [0; 4]) [3 # 2; 6 # 5] [10; 20])
           true).
  vm_compute. reflexivity.
Defined.

(** ** Dictionaries *)

Section DictFacts.

Variables K V : Type.
Variable eqb : K -> K -> bool.
Hypothesis eqb_spec : forall k k', eqb k k' = true <-> k = k'.

Lemma dict_eqb_refl (k : K) : eqb k k = true.
Proof. apply eqb_spec. reflexivity. Qed.

Lemma lookup_store_same (d : list (K * V)) (k : K) (v : V) :
  lookup eqb (store eqb d k v) k = Return v.
Proof.
  unfold lookup. induction d as [|kv d IH]; cbn [store find fst].
  - rewrite dict_eqb_refl. reflexivity.
  - destruct (eqb k (fst kv)) eqn:E; cbn [find fst].
    + rewrite E. reflexivity.
    + rewrite E. exact IH.
Qed.

Lemma lookup_store_other (d : list (K * V)) (k k' : K) (v : V) :
  k' <> k ->
  lookup eqb (store eqb d k v) k' = lookup eqb d k'.
Proof.
  intros Hne. unfold lookup.
  assert (Hkk : eqb k' k = false).
  { destruct (eqb k' k) eqn:E; [| reflexivity].
    apply eqb_spec in E. contradiction. }
  induction d as [|kv d IH]; cbn [store find fst].
  - rewrite Hkk. reflexivity.
  - destruct (eqb k (fst kv)) eqn:E; cbn [find fst].
    + apply eqb_spec in E. rewrite <- E, Hkk. reflexivity.
    + destruct (eqb k' (fst kv)); [reflexivity | exact IH].
Qed.

End DictFacts.

Section PathFacts.

Import String Ascii.
Local Open Scope string_scope.

Lemma atom_eqb_spec (a b : atom) : atom_eqb a b = true <-> a = b.
Proof.
  destruct a as [s|n], b as [t|m]; cbn [atom_eqb];
    try (split; [discriminate | intros H; discriminate H]).
  - rewrite String.eqb_eq. split; congruence.
  - rewrite Z.eqb_eq. split; congruence.
Qed.

Lemma key_eqb_spec : forall k k', key_eqb k k' = true <-> k = k'.
Proof.
  induction k as [|a k IH]; intros [|a' k']; cbn [key_eqb];
    try (split; [discriminate | intros H; discriminate H]).
  - split; reflexivity.
  - rewrite andb_true_iff, atom_eqb_spec, IH. split.
    + intros [-> ->]. reflexivity.
    + intros H. injection H as -> ->. split; reflexivity.
Qed.

Lemma string_eqb_spec (s t : string) : String.eqb s t = true <-> s = t.
Proof. apply String.eqb_eq. Qed.

(** *** Grid output *)

Lemma output_cases_loop_spatial_number
    (output_type output_format output_subfolder : string)
    (realisation_id n : Z) (rest : list (Z * atom))
    (output_paths : list (list atom * string)) :
  output_cases_loop true output_type output_format output_subfolder
    ((realisation_id, Int n) :: rest) output_paths
  = Throw (Builtin TypeError).
Proof. reflexivity. Qed.

Lemma output_cases_loop_unknown_format
    (output_type output_format output_subfolder : string)
    (realisation_id : Z) (location_id : atom) (rest : list (Z * atom))
    (output_paths : list (list atom * string)) :
  lookup String.eqb output_format_extensions output_format = Throw KeyError ->
  output_cases_loop false output_type output_format output_subfolder
    ((realisation_id, location_id) :: rest) output_paths
  = Throw KeyError.
Proof. intros H. cbn [output_cases_loop negb]. rewrite H. reflexivity. Qed.

Lemma output_paths_helper_grid (spatial_model : bool)
    (output_folder : string) (output_subfolders : list (string * string))
    (points catchments : option (list atom)) (realisation_ids : list Z) :
  realisation_ids <> [] ->
  (exists e,
      output_paths_helper spatial_model "grid" "nc" output_folder
        output_subfolders points catchments realisation_ids = Throw e)
  /\ (forall subfolder,
         lookup String.eqb output_subfolders "grid" = Return subfolder ->
         output_paths_helper spatial_model "grid" "nc" output_folder
           output_subfolders points catchments realisation_ids
         = Throw (if spatial_model then Builtin TypeError else KeyError)).
Proof.
  intros Hne. destruct realisation_ids as [|r rs]; [congruence |].
  unfold output_paths_helper.
  change ("grid" =? "point") with false.
  change ("grid" =? "catchment") with false.
  change ("grid" =? "grid") with true. cbv iota.
  destruct (lookup String.eqb output_subfolders "grid") as [sub|e] eqn:E;
    cbn [and_then].
  - cbn [read_local lift and_then fst snd list_prod map app].
    destruct spatial_model.
    + rewrite output_cases_loop_spatial_number.
      split; [eexists; reflexivity |]. intros ? _. reflexivity.
    + rewrite output_cases_loop_unknown_format by reflexivity.
      split; [eexists; reflexivity |]. intros ? _. reflexivity.
  - split; [eexists; reflexivity |]. intros ? H. discriminate H.
Qed.

(** X24.  As soon as ['grid'] is among the output types and there is a
    realisation, [make_output_paths] raises: the helper is called with the
    format ['nc'], which is not a key of the extension table (its key is
    ['netcdf']), and in the spatial model the file name is built by adding
    the integer location id 1 to a string.  With ['grid'] the first output
    type and a grid subfolder configured, the exception is [TypeError] in
    the spatial model and [KeyError] otherwise. *)
Theorem make_output_paths_grid_raises (spatial_model : bool)
    (output_types : list string) (output_format output_folder : string)
    (output_subfolders : list (string * string))
    (points catchments : option (list atom)) (realisation_ids : list Z) :
  In "grid" output_types -> realisation_ids <> [] ->
  (exists e,
      make_output_paths spatial_model output_types output_format
        output_folder output_subfolders points catchments realisation_ids
      = Throw e)
  /\ (forall subfolder,
         hd_error output_types = Some "grid" ->
         lookup String.eqb output_subfolders "grid" = Return subfolder ->
         make_output_paths spatial_model output_types output_format
           output_folder output_subfolders points catchments realisation_ids
         = Throw (if spatial_model then Builtin TypeError else KeyError)).
Proof.
  intros Hin Hne. unfold make_output_paths.
  destruct (output_paths_helper_grid spatial_model output_folder
              output_subfolders points catchments realisation_ids Hne)
    as ((eg & Hg) & Hg').
  split.
  - generalize (@nil (list atom * string)).
    induction output_types as [|t rest IH]; intros acc; [destruct Hin |].
    cbn [output_types_loop].
    destruct (String.eqb_spec t "grid") as [-> | Hng].
    + rewrite Hg. eexists. reflexivity.
    + destruct (output_paths_helper spatial_model t output_format
                  output_folder output_subfolders points catchments
                  realisation_ids) as [paths|e]; cbn [and_then].
      * apply IH. destruct Hin as [-> | Hin]; [congruence | exact Hin].
      * eexists. reflexivity.
  - intros subfolder Hhd Hsub.
    destruct output_types as [|t rest]; [discriminate |].
    cbn [hd_error] in Hhd.
    apply (f_equal (fun o => match o with Some s => s | None => t end)) in Hhd.
    subst t. cbn [output_types_loop].
    change ("grid" =? "grid") with true. cbv iota.
    rewrite (Hg' subfolder Hsub). reflexivity.
Qed.

Lemma make_output_paths_grid_raises_witness :
  (exists e,
      make_output_paths true ["point"; "grid"] "csv" "out"
        [("point", "p"); ("grid", "g")] (Some [Str "a"]) None [1%Z; 2%Z]
      = Throw e)
  /\ (forall subfolder,
         hd_error ["point"; "grid"] = Some "grid" ->
         lookup String.eqb [("point", "p"); ("grid", "g")] "grid"
         = Return subfolder ->
         make_output_paths true ["point"; "grid"] "csv" "out"
           [("point", "p"); ("grid", "g")] (Some [Str "a"]) None [1%Z; 2%Z]
         = Throw (if true then Builtin TypeError else KeyError)).
Proof.
  apply (make_output_paths_grid_raises true ["point"; "grid"] "csv" "out"
           [("point", "p"); ("grid", "g")] (Some [Str "a"]) None [1%Z; 2%Z]).
  - right. left. reflexivity.
  - discriminate.
Defined.

(** *** Appending blocks to a file *)

Lemma append_assoc (a b c : string) : (a ++ b) ++ c = a ++ b ++ c.
Proof.
  induction a as [|x a IH]; cbn [append]; [reflexivity |].
  rewrite IH. reflexivity.
Qed.

Lemma concat_cons (sep x : string) (l : list string) :
  l <> [] -> concat sep (x :: l) = x ++ sep ++ concat sep l.
Proof. destruct l; [congruence | reflexivity]. Qed.

(** Two joined blocks written one after the other: the last line of the
    first and the first line of the second become one line. *)
Lemma concat_fuses (sep : string) (l1 l2 : list string) :
  l1 <> [] -> l2 <> [] ->
  concat sep l1 ++ concat sep l2
  = concat sep (removelast l1 ++ [(last l1 "" ++ hd "" l2)%string] ++ tl l2)%list.
Proof.
  intros H1 H2. destruct l2 as [|y l2]; [congruence |]. cbn [hd tl].
  induction l1 as [|x l1 IH]; [congruence |].
  destruct l1 as [|x' l1].
  - cbn [removelast last app].
    destruct l2 as [|y' l2]; [reflexivity |].
    rewrite (concat_cons sep y (y' :: l2)) by discriminate.
    rewrite (concat_cons sep (x ++ y) (y' :: l2)) by discriminate.
    symmetry. apply append_assoc.
  - change (removelast (x :: x' :: l1)) with (x :: removelast (x' :: l1)).
    change (last (x :: x' :: l1) "") with (last (x' :: l1) "").
    rewrite (concat_cons sep x (x' :: l1)) by discriminate.
    change ((x :: removelast (x' :: l1))
            ++ [(last (x' :: l1) "" ++ y)%string] ++ l2)%list
      with (x :: (removelast (x' :: l1)
                  ++ [(last (x' :: l1) "" ++ y)%string] ++ l2))%list.
    rewrite (concat_cons sep x
               (removelast (x' :: l1)
                ++ [(last (x' :: l1) "" ++ y)%string] ++ l2)%list)
      by (destruct (removelast (x' :: l1)); discriminate).
    rewrite <- IH by discriminate.
    rewrite !append_assoc. reflexivity.
Qed.

Lemma file_content_append (files : list (string * string))
    (path text : string) :
  file_content (append_file files path text) path
  = file_content files path ++ text.
Proof.
  unfold append_file.
  pose proof (lookup_store_same string string String.eqb string_eqb_spec
                files path (file_content files path ++ text)) as H.
  unfold lookup in H. unfold file_content at 1.
  destruct (find _ (store _ _ _ _)) as [f|]; [| discriminate].
  apply (f_equal (fun o => match o with Return s => s | Throw _ => "" end))
    in H.
  exact H.
Qed.

Section WriteFacts.

Variable format_1f : Q -> string.

(** X26.  [write_output] appends each series joined by newlines and adds no
    newline after the last value.  So when the blocks of a realisation are
    written one after the other to the same path, the last value of a block
    and the first value of the next end up on one line: two blocks of [m]
    and [n] values leave [m + n - 1] lines. *)
Theorem write_output_blocks_fuse
    (output_key : list atom) (output_path : string)
    (output_paths : list (list atom * string))
    (files : list (string * string)) (block1 block2 : array) :
  lookup key_eqb output_paths output_key = Return output_path ->
  block1 <> [] -> block2 <> [] ->
  let lines1 := map (format_value format_1f) block1 in
  let lines2 := map (format_value format_1f) block2 in
  let fused :=
    (removelast lines1 ++ [(last lines1 "" ++ hd "" lines2)%string] ++ tl lines2)%list in
  exists files1 files2,
    write_output format_1f [(output_key, block1)] output_paths files
    = Return files1
    /\ write_output format_1f [(output_key, block2)] output_paths files1
       = Return files2
    /\ file_content files2 output_path
       = file_content files output_path ++ concat newline fused
    /\ List.length fused = (List.length block1 + List.length block2 - 1)%nat.
Proof.
  intros Hp H1 H2 lines1 lines2 fused.
  cbn [write_output]. rewrite Hp. cbn [and_then].
  eexists. eexists. split; [reflexivity |]. split; [reflexivity |].
  split.
  - rewrite !file_content_append. rewrite append_assoc. f_equal.
    apply concat_fuses; unfold lines1, lines2.
    + destruct block1; [congruence | discriminate].
    + destruct block2; [congruence | discriminate].
  - unfold fused. rewrite !length_app. cbn [List.length].
    assert (L1 : List.length (removelast lines1)
                 = (List.length block1 - 1)%nat).
    { unfold lines1. destruct block1 as [|v b]; [congruence |].
      rewrite <- (length_map (format_value format_1f) (v :: b)).
      set (l := map (format_value format_1f) (v :: b)).
      assert (Hl : l <> []) by (unfold l; discriminate).
      destruct (exists_last Hl) as (l' & a & ->).
      rewrite removelast_last, length_app. cbn [List.length]. lia. }
    assert (L2 : List.length (tl lines2) = (List.length block2 - 1)%nat).
    { unfold lines2. destruct block2 as [|v b]; [congruence |].
      cbn [map tl List.length]. rewrite length_map. lia. }
    rewrite L1, L2.
    destruct block1; [congruence |]. destruct block2; [congruence |].
    cbn [List.length]. lia.
Qed.

End WriteFacts.

(** Two blocks of two values each, written to one path. *)
Lemma write_output_blocks_fuse_witness :
  let format_1f := fun v : Q => if Qeq_bool v 0 then "0.0" else "1.5" in
  let lines1 := map (format_value format_1f) [0; 1] in
  let lines2 := map (format_value format_1f) [1; 0] in
  let fused :=
    (removelast lines1 ++ [(last lines1 "" ++ hd "" lines2)%string] ++ tl lines2)%list in
  exists files1 files2,
    write_output format_1f [([Str "point"; Int 1; Int 1], [0; 1])]
      [([Str "point"; Int 1; Int 1], "out/r1.csv")] []
    = Return files1
    /\ write_output format_1f [([Str "point"; Int 1; Int 1], [1; 0])]
         [([Str "point"; Int 1; Int 1], "out/r1.csv")] files1
       = Return files2
    /\ file_content files2 "out/r1.csv"
       = file_content [] "out/r1.csv" ++ concat newline fused
    /\ List.length fused = (List.length [0; 1] + List.length [1; 0] - 1)%nat.
Proof.
  apply (write_output_blocks_fuse
           (fun v : Q => if Qeq_bool v 0 then "0.0" else "1.5")
           [Str "point"; Int 1; Int 1] "out/r1.csv"
           [([Str "point"; Int 1; Int 1], "out/r1.csv")] [] [0; 1] [1; 0]).
  - reflexivity.
  - discriminate.
  - discriminate.
Defined.

End PathFacts.

(** ** Catchment output and the phi of the grid *)

Lemma and_then_inv {A B : Type} (m : outcome A) (k : A -> outcome B) (b : B) :
  and_then m k = Return b -> exists a, m = Return a /\ k a = Return b.
Proof.
  destruct m as [a|e]; cbn [and_then]; intros H; [| discriminate].
  exists a. split; [reflexivity | exact H].
Qed.

Lemma Return_inj {A : Type} (a b : A) : Return a = Return b -> a = b.
Proof. intros H. injection H as ->. reflexivity. Qed.

Section MetadataFacts.

Import String Ascii.
Local Open Scope string_scope.

(** Storing under another key leaves a missing key missing. *)
Lemma store_lacks (d : metadata) (k k' : list atom) (v : array) :
  k' <> k ->
  lookup key_eqb d k' = Throw KeyError ->
  lookup key_eqb (store key_eqb d k v) k' = Throw KeyError.
Proof.
  intros Hne H.
  rewrite (lookup_store_other (list atom) array key_eqb key_eqb_spec d k k' v Hne).
  exact H.
Qed.

Lemma in_types_In (t : string) (output_types : list string) :
  in_types t output_types = true <-> In t output_types.
Proof.
  unfold in_types. rewrite existsb_exists. split.
  - intros (x & Hx & E). apply String.eqb_eq in E. subst. exact Hx.
  - intros H. exists t. split; [exact H | apply String.eqb_refl].
Qed.

(** [create_discretisation_metadata_arrays] stores coordinates and
    elevations only. *)
Lemma create_lacks_phi (points : option points_frame)
    (grid : option grid_descriptor) (cell_size : Q)
    (dem : option (outcome array)) (d : metadata) (t : string) (season : Z) :
  create_discretisation_metadata_arrays points grid cell_size dem = Return d ->
  lookup key_eqb d [Str t; Str "phi"; Int season] = Throw KeyError.
Proof.
  unfold create_discretisation_metadata_arrays. intros H.
  assert (H0 : forall d0 : metadata,
             d0 = match points with
                  | Some pts =>
                      match frame_elevation pts with
                      | Some z =>
                          store key_eqb
                            (store key_eqb
                               (store key_eqb [] [Str "point"; Str "x"]
                                  (easting (frame_points pts)))
                               [Str "point"; Str "y"]
                               (northing (frame_points pts)))
                            [Str "point"; Str "z"] z
                      | None =>
                          store key_eqb
                            (store key_eqb [] [Str "point"; Str "x"]
                               (easting (frame_points pts)))
                            [Str "point"; Str "y"]
                            (northing (frame_points pts))
                      end
                  | None => []
                  end ->
             lookup key_eqb d0 [Str t; Str "phi"; Int season] = Throw KeyError).
  { intros d0 ->. destruct points as [pts|]; [| reflexivity].
    destruct (frame_elevation pts);
      repeat (apply store_lacks; [discriminate |]); reflexivity. }
  cbv zeta in H.
  destruct grid as [g|].
  - apply and_then_inv in H. destruct H as (centres & _ & H).
    destruct dem as [resampled|].
    + apply and_then_inv in H. destruct H as (z & _ & H).
      apply Return_inj in H. subst d.
      repeat (apply store_lacks; [discriminate |]). apply H0. reflexivity.
    + apply Return_inj in H. subst d.
      repeat (apply store_lacks; [discriminate |]). apply H0. reflexivity.
  - apply Return_inj in H. subst d. apply H0. reflexivity.
Qed.

Section PhiFacts.

Variable sqrt : Q -> Q.
Variable log : Q -> Q.
Variable exp : Q -> Q.
Variable linregress : array -> array -> result regression.
Variable vario_estimate :
  point_table -> array -> array -> array * array * list Z.
Variable fitted_model : Type.
Variable fit_variogram :
  covariance_kind -> array -> array -> result (fitted_model * Q).
Variable interpolate :
  kriging fitted_model -> array -> array -> option array -> outcome array.
Variable set_to_list : list string -> list string.

(** The list made of a set has no element that is not in the set. *)
Hypothesis set_to_list_sound :
  forall l t, In t (set_to_list l) -> In t l.

Lemma phi_for_type_lacks (dem_present : bool)
    (interpolator : kriging fitted_model) (log_transformation : bool)
    (season : Z) (output_type : string) (d d' : metadata)
    (t : string) (s : Z) :
  output_type <> t ->
  lookup key_eqb d [Str t; Str "phi"; Int s] = Throw KeyError ->
  phi_for_type exp fitted_model interpolate dem_present interpolator
    log_transformation season output_type d = Return d' ->
  lookup key_eqb d' [Str t; Str "phi"; Int s] = Throw KeyError.
Proof.
  intros Hne Hd H. unfold phi_for_type in H.
  apply and_then_inv in H. destruct H as (x & _ & H).
  apply and_then_inv in H. destruct H as (y & _ & H).
  apply and_then_inv in H. destruct H as (ip & _ & H).
  cbv zeta in H.
  apply and_then_inv in H. destruct H as (cur & _ & H).
  apply Return_inj in H. subst d'.
  repeat (apply store_lacks; [congruence |]). exact Hd.
Qed.

Lemma phi_types_loop_lacks (dem_present : bool)
    (interpolator : kriging fitted_model) (log_transformation : bool)
    (season : Z) (t : string) (s : Z) (output_types : list string) :
  ~ In t output_types ->
  forall d d',
    lookup key_eqb d [Str t; Str "phi"; Int s] = Throw KeyError ->
    phi_types_loop exp fitted_model interpolate dem_present interpolator
      log_transformation season output_types d = Return d' ->
    lookup key_eqb d' [Str t; Str "phi"; Int s] = Throw KeyError.
Proof.
  induction output_types as [|ot rest IH]; intros Hnin d d' Hd H;
    cbn [phi_types_loop] in H.
  - apply Return_inj in H. subst. exact Hd.
  - apply and_then_inv in H. destruct H as (d1 & H1 & H2).
    apply (IH (fun Hin => Hnin (or_intror Hin)) d1 d'); [| exact H2].
    eapply phi_for_type_lacks; [| exact Hd | exact H1].
    intros ->. apply Hnin. left. reflexivity.
Qed.

(** [get_phi] stores phi for the output types ['point'] and ['grid'] that
    are among [output_types], and for no other. *)
Lemma get_phi_lacks (dem_present : bool) (phi : list (Z * calibration_point))
    (output_types : list string) (t : string) (s : Z)
    (unique_seasons : list Z) :
  ~ In t output_types ->
  forall d d',
    lookup key_eqb d [Str t; Str "phi"; Int s] = Throw KeyError ->
    get_phi sqrt log exp linregress vario_estimate fitted_model fit_variogram
      interpolate set_to_list unique_seasons dem_present phi output_types d
    = Return d' ->
    lookup key_eqb d' [Str t; Str "phi"; Int s] = Throw KeyError.
Proof.
  intros Hnin.
  induction unique_seasons as [|season rest IH]; intros d d' Hd H;
    cbn [get_phi] in H.
  - apply Return_inj in H. subst. exact Hd.
  - cbv zeta in H.
    apply and_then_inv in H. destruct H as (made & _ & H).
    apply and_then_inv in H. destruct H as (d1 & H1 & H2).
    apply (IH d1 d'); [| exact H2].
    eapply phi_types_loop_lacks; [| exact Hd | exact H1].
    intros Hin. apply set_to_list_sound in Hin.
    apply filter_In in Hin. destruct Hin as (_ & Hin).
    apply in_types_In in Hin. contradiction.
Qed.

End PhiFacts.

Lemma catchment_weights_loop_lacks (t : string) (s : Z)
    (catchment_points : list (atom * (array * array * array))) :
  forall d d',
    lookup key_eqb d [Str t; Str "phi"; Int s] = Throw KeyError ->
    catchment_weights_loop catchment_points d = Return d' ->
    lookup key_eqb d' [Str t; Str "phi"; Int s] = Throw KeyError.
Proof.
  induction catchment_points as [|[c [[x y] w]] rest IH]; intros d d' Hd H;
    cbn [catchment_weights_loop] in H.
  - apply Return_inj in H. subst. exact Hd.
  - apply and_then_inv in H. destruct H as (gx & _ & H).
    apply and_then_inv in H. destruct H as (u1 & _ & H).
    apply and_then_inv in H. destruct H as (gy & _ & H).
    apply and_then_inv in H. destruct H as (u2 & _ & H).
    eapply IH; [| exact H].
    apply store_lacks; [discriminate | exact Hd].
Qed.

Lemma subset_entry_lacks (key k : list atom) (mask : list bool)
    (d d' : metadata) :
  k <> key ->
  lookup key_eqb d k = Throw KeyError ->
  subset_entry key mask d = Return d' ->
  lookup key_eqb d' k = Throw KeyError.
Proof.
  intros Hne Hd H. unfold subset_entry in H.
  apply and_then_inv in H. destruct H as (v & _ & H).
  apply and_then_inv in H. destruct H as (v' & _ & H).
  apply Return_inj in H. subst d'.
  apply store_lacks; assumption.
Qed.

Lemma subset_entries_lacks (k : list atom) (mask : list bool)
    (keys : list (list atom)) :
  ~ In k keys ->
  forall d d',
    lookup key_eqb d k = Throw KeyError ->
    subset_entries keys mask d = Return d' ->
    lookup key_eqb d' k = Throw KeyError.
Proof.
  induction keys as [|key rest IH]; intros Hnin d d' Hd H;
    cbn [subset_entries] in H.
  - apply Return_inj in H. subst. exact Hd.
  - apply and_then_inv in H. destruct H as (d1 & H1 & H2).
    apply (IH (fun Hin => Hnin (or_intror Hin)) d1 d'); [| exact H2].
    eapply subset_entry_lacks; [| exact Hd | exact H1].
    intros ->. apply Hnin. left. reflexivity.
Qed.

(** Pruning the grid to the catchments needs the phi of the grid for every
    season. *)
Lemma get_catchment_weights_lacks
    (catchment_points : outcome (list (atom * (array * array * array))))
    (d : metadata) (output_types : list string) (dem_present : bool)
    (season : Z) (rest : list Z) :
  In "catchment" output_types -> ~ In "grid" output_types ->
  lookup key_eqb d [Str "grid"; Str "phi"; Int season] = Throw KeyError ->
  exists e,
    get_catchment_weights catchment_points d output_types dem_present
      (season :: rest) = Throw e.
Proof.
  intros Hc Hg Hd. unfold get_catchment_weights.
  destruct catchment_points as [cps|e0]; cbn [and_then];
    [| eexists; reflexivity].
  destruct (catchment_weights_loop cps d) as [d1|e1] eqn:E1; cbn [and_then];
    [| eexists; reflexivity].
  pose proof (catchment_weights_loop_lacks "grid" season cps d d1 Hd E1) as H1.
  rewrite (proj2 (in_types_In "catchment" output_types) Hc).
  assert (Eg : in_types "grid" output_types = false).
  { destruct (in_types "grid" output_types) eqn:E; [| reflexivity].
    apply in_types_In in E. contradiction. }
  rewrite Eg. cbn [negb andb].
  destruct (lookup key_eqb d1 [Str "grid"; Str "x"]) as [gx|e2];
    cbn [and_then]; [| eexists; reflexivity].
  destruct (catchment_mask_loop (map fst cps) d1
              (repeat false (List.length gx))) as [mask|e3];
    cbn [and_then]; [| eexists; reflexivity].
  destruct (subset_entry [Str "grid"; Str "x"] mask d1) as [d2|e4] eqn:E2;
    cbn [and_then]; [| eexists; reflexivity].
  pose proof (subset_entry_lacks [Str "grid"; Str "x"]
                [Str "grid"; Str "phi"; Int season] mask d1 d2
                ltac:(discriminate) H1 E2) as H2.
  destruct (subset_entry [Str "grid"; Str "y"] mask d2) as [d3|e5] eqn:E3;
    cbn [and_then]; [| eexists; reflexivity].
  pose proof (subset_entry_lacks [Str "grid"; Str "y"]
                [Str "grid"; Str "phi"; Int season] mask d2 d3
                ltac:(discriminate) H2 E3) as H3.
  assert (H4 : forall d4,
             (if dem_present
              then subset_entry [Str "grid"; Str "z"] mask d3
              else Return d3) = Return d4 ->
             lookup key_eqb d4 [Str "grid"; Str "phi"; Int season]
             = Throw KeyError).
  { intros d4 E4. destruct dem_present.
    - eapply subset_entry_lacks; [| exact H3 | exact E4]. discriminate.
    - apply Return_inj in E4. subst. exact H3. }
  destruct (if dem_present
            then subset_entry [Str "grid"; Str "z"] mask d3
            else Return d3) as [d4|e6]; cbn [and_then];
    [| eexists; reflexivity].
  specialize (H4 d4 eq_refl).
  destruct (subset_entries
              (map (fun c : atom * (array * array * array) =>
                      [Str "catchment"; Str "weights"; fst c]) cps)
              mask d4) as [d5|e7] eqn:E5; cbn [and_then];
    [| eexists; reflexivity].
  assert (H5 : lookup key_eqb d5 [Str "grid"; Str "phi"; Int season]
               = Throw KeyError).
  { eapply subset_entries_lacks; [| exact H4 | exact E5].
    intros Hin. apply in_map_iff in Hin. destruct Hin as (c & Hc' & _).
    discriminate. }
  cbn [map subset_entries]. unfold subset_entry. rewrite H5.
  eexists. reflexivity.
Qed.

Lemma output_types_loop_grid (spatial_model : bool)
    (output_format output_folder : string)
    (output_subfolders : list (string * string))
    (points catchments : option (list atom)) (realisation_ids : list Z)
    (output_types : list string) :
  In "grid" output_types -> realisation_ids <> [] ->
  forall acc, exists e,
    output_types_loop spatial_model output_format output_folder
      output_subfolders points catchments realisation_ids output_types acc
    = Throw e.
Proof.
  intros Hin Hne.
  destruct (output_paths_helper_grid spatial_model output_folder
              output_subfolders points catchments realisation_ids Hne)
    as ((eg & Hg) & _).
  induction output_types as [|t rest IH]; intros acc; [destruct Hin |].
  cbn [output_types_loop].
  destruct (String.eqb_spec t "grid") as [-> | Hng].
  - rewrite Hg. eexists. reflexivity.
  - destruct (output_paths_helper spatial_model t output_format
                output_folder output_subfolders points catchments
                realisation_ids) as [paths|e]; cbn [and_then].
    + apply IH. destruct Hin as [-> | Hin]; [congruence | exact Hin].
    + eexists. reflexivity.
Qed.

(** X23.  In the spatial model the statements of [main] before the realisation
    loop never complete when ['catchment'] is among the output types, there
    is a realisation to simulate and there is a season.  With ['grid'] also
    among the output types [make_output_paths] raises; without it,
    [get_phi] computes phi for the output types ['point'] and ['grid'] only,
    so the grid has no phi when [get_catchment_weights] prunes it to the
    catchments and asks for [('grid', 'phi', season)]. *)
Theorem main_preamble_catchment_output_raises
    (sqrt log exp : Q -> Q)
    (linregress : array -> array -> result regression)
    (vario_estimate : point_table -> array -> array -> array * array * list Z)
    (fitted_model : Type)
    (fit_variogram :
       covariance_kind -> array -> array -> result (fitted_model * Q))
    (interpolate :
       kriging fitted_model -> array -> array -> option array -> outcome array)
    (set_to_list : list string -> list string)
    (output_types : list string)
    (output_folder : string) (output_subfolders : list (string * string))
    (output_format : string) (unique_seasons : list Z)
    (points : option points_frame) (catchment_names : option (list atom))
    (catchment_points : outcome (list (atom * (array * array * array))))
    (grid : option grid_descriptor) (cell_size : Q)
    (dem : option (outcome array)) (phi : list (Z * calibration_point))
    (number_of_realisations : nat) :
  (forall l t, In t (set_to_list l) -> In t l) ->
  In "catchment" output_types ->
  number_of_realisations <> 0%nat ->
  unique_seasons <> [] ->
  exists e,
    main_preamble sqrt log exp linregress vario_estimate fitted_model
      fit_variogram interpolate set_to_list true output_types output_folder
      output_subfolders output_format unique_seasons points catchment_names
      catchment_points grid cell_size dem phi number_of_realisations
    = Throw e.
Proof.
  intros Hset Hc Hn Hs. unfold main_preamble. cbv zeta.
  destruct (in_dec String.string_dec "grid" output_types) as [Hg | Hg].
  - unfold make_output_paths.
    destruct (output_types_loop_grid true output_format output_folder
                output_subfolders (option_map frame_names points)
                catchment_names (realisation_ids number_of_realisations)
                output_types Hg) with (acc := @nil (list atom * string))
      as (e & ->).
    + unfold realisation_ids. destruct number_of_realisations; [congruence |].
      discriminate.
    + eexists. reflexivity.
  - destruct (make_output_paths true output_types output_format output_folder
                output_subfolders (option_map frame_names points)
                catchment_names (realisation_ids number_of_realisations))
      as [paths|e0]; cbn [and_then]; [| eexists; reflexivity].
    destruct (lift (identify_domain_bounds grid cell_size
                      (option_map frame_points points))) as [bounds|e1];
      cbn [and_then]; [| eexists; reflexivity].
    destruct (create_discretisation_metadata_arrays points grid cell_size dem)
      as [d0|e2] eqn:E0; cbn [and_then]; [| eexists; reflexivity].
    destruct (get_phi sqrt log exp linregress vario_estimate fitted_model
                fit_variogram interpolate set_to_list unique_seasons
                match dem with Some _ => true | None => false end
                phi output_types d0) as [d1|e3] eqn:E1;
      cbn [and_then]; [| eexists; reflexivity].
    rewrite (proj2 (in_types_In "catchment" output_types) Hc).
    destruct unique_seasons as [|season rest]; [congruence |].
    destruct (get_catchment_weights_lacks catchment_points d1 output_types
                match dem with Some _ => true | None => false end
                season rest Hc Hg) as (e & ->).
    + eapply (get_phi_lacks sqrt log exp linregress vario_estimate
                fitted_model fit_variogram interpolate set_to_list Hset);
        [exact Hg | | exact E1].
      eapply create_lacks_phi. exact E0.
    + eexists. reflexivity.
Qed.

(** Catchment output without grid output, one season and one realisation:
    the set-up gets as far as pruning the grid and stops there. *)
Lemma main_preamble_catchment_output_raises_witness :
  exists e,
    main_preamble Qsqrt_exact (fun v => v) (fun v => v)
      (fun _ _ => Ok (mkRegression 0 1 0 (1 # 100)))
      (fun _ _ _ => ([], [], [])) unit (fun _ _ _ => Ok (tt, 0))
      (fun _ x _ _ => Return x) (fun l => l) true ["point"; "catchment"]
      "out" [("point", "p"); ("catchment", "c")] "csv" [1%Z]
      (Some (mkFrame [Str "a"; Str "b"] (mkPoints [0; 3] [0; 4]) None))
      (Some [Str "c1"])
      (Return [(Str "c1", ([500; 1500], [500; 500], [1; 0]))])
      (Some (mkGrid 0 0 2 1 1000)) 1000 None
      [(1%Z, mkCalibration 0 0 10 (1 # 2)); (1%Z, mkCalibration 3 4 20 (1 # 5))]
      1
    = Throw e.
Proof.
  apply (main_preamble_catchment_output_raises Qsqrt_exact (fun v => v)
           (fun v => v) (fun _ _ => Ok (mkRegression 0 1 0 (1 # 100)))
           (fun _ _ _ => ([], [], [])) unit (fun _ _ _ => Ok (tt, 0))
           (fun _ x _ _ => Return x) (fun l => l) ["point"; "catchment"]
           "out" [("point", "p"); ("catchment", "c")] "csv" [1%Z]
           (Some (mkFrame [Str "a"; Str "b"] (mkPoints [0; 3] [0; 4]) None))
           (Some [Str "c1"])
           (Return [(Str "c1", ([500; 1500], [500; 500], [1; 0]))])
           (Some (mkGrid 0 0 2 1 1000)) 1000 None
           [(1%Z, mkCalibration 0 0 10 (1 # 2));
            (1%Z, mkCalibration 3 4 20 (1 # 5))] 1).
  - intros l t H. exact H.
  - right. left. reflexivity.
  - discriminate.
  - discriminate.
Defined.

End MetadataFacts.

(** ** The phi stored by [get_phi] *)

Section PhiValues.

Import String Ascii.
Local Open Scope string_scope.

Variable sqrt : Q -> Q.
Variable log : Q -> Q.
Variable exp : Q -> Q.
Variable linregress : array -> array -> result regression.
Variable vario_estimate :
  point_table -> array -> array -> array * array * list Z.
Variable fitted_model : Type.
Variable fit_variogram :
  covariance_kind -> array -> array -> result (fitted_model * Q).
Variable interpolate :
  kriging fitted_model -> array -> array -> option array -> outcome array.
Variable set_to_list : list string -> list string.

Lemma lookup_store_cases (d : metadata) (k k' : list atom) (v : array) :
  lookup key_eqb (store key_eqb d k v) k'
  = if key_eqb k' k then Return v else lookup key_eqb d k'.
Proof.
  destruct (key_eqb k' k) eqn:E.
  - apply key_eqb_spec in E. subst k'.
    apply (lookup_store_same (list atom) array key_eqb key_eqb_spec).
  - apply (lookup_store_other (list atom) array key_eqb key_eqb_spec).
    intros ->. rewrite (proj2 (key_eqb_spec k k) eq_refl) in E. discriminate.
Qed.

Lemma clamp_nonneg (a : array) :
  Forall (fun v => 0 <= v) (map (fun v => if Qlt_bool v 0 then 0 else v) a).
Proof.
  apply Forall_forall. intros v Hv. apply in_map_iff in Hv.
  destruct Hv as (u & <- & _). unfold Qlt_bool.
  destruct (Qle_bool 0 u) eqn:E; cbn [negb].
  - apply Qle_bool_iff. exact E.
  - apply Qle_refl.
Qed.

Local Notation "'phi_nonneg' d" :=
  (forall (t : string) (s : Z) (p : array),
      lookup key_eqb d [Str t; Str "phi"; Int s] = Return p ->
      Forall (fun v => 0 <= v) p)
  (at level 10, d at level 9).

Local Notation "'present' d k" :=
  (exists p : array, lookup key_eqb d k = Return p)
  (at level 10, d at level 9, k at level 9).

Lemma store_present (d : metadata) (k k' : list atom) (v : array) :
  present d k' -> present (store key_eqb d k v) k'.
Proof.
  intros (p & Hp). rewrite lookup_store_cases.
  destruct (key_eqb k' k); [exists v; reflexivity | exists p; exact Hp].
Qed.

Lemma phi_for_type_values (dem_present : bool)
    (interpolator : kriging fitted_model) (log_transformation : bool)
    (season : Z) (output_type : string) (d d' : metadata) :
  phi_for_type exp fitted_model interpolate dem_present interpolator
    log_transformation season output_type d = Return d' ->
  (phi_nonneg d -> phi_nonneg d')
  /\ present d' [Str output_type; Str "phi"; Int season]
  /\ (forall k, present d k -> present d' k).
Proof.
  intros H. unfold phi_for_type in H.
  apply and_then_inv in H. destruct H as (x & _ & H).
  apply and_then_inv in H. destruct H as (y & _ & H).
  apply and_then_inv in H. destruct H as (ip & _ & H).
  cbv zeta in H.
  apply and_then_inv in H. destruct H as (cur & _ & H).
  apply Return_inj in H. subst d'.
  split; [| split].
  - intros Hd t s p Hp. rewrite lookup_store_cases in Hp.
    destruct (key_eqb [Str t; Str "phi"; Int s]
                [Str output_type; Str "phi"; Int season]) eqn:E.
    + apply Return_inj in Hp. subst p. apply clamp_nonneg.
    + rewrite lookup_store_cases, E in Hp. eapply Hd. exact Hp.
  - eexists.
    apply (lookup_store_same (list atom) array key_eqb key_eqb_spec).
  - intros k Hk. apply store_present, store_present. exact Hk.
Qed.

Lemma phi_types_loop_values (dem_present : bool)
    (interpolator : kriging fitted_model) (log_transformation : bool)
    (season : Z) (output_types : list string) :
  forall d d',
    phi_types_loop exp fitted_model interpolate dem_present interpolator
      log_transformation season output_types d = Return d' ->
    (phi_nonneg d -> phi_nonneg d')
    /\ (forall t, In t output_types ->
          present d' [Str t; Str "phi"; Int season])
    /\ (forall k, present d k -> present d' k).
Proof.
  induction output_types as [|ot rest IH]; intros d d' H;
    cbn [phi_types_loop] in H.
  - apply Return_inj in H. subst d'.
    split; [intros Hd; exact Hd |].
    split; [intros t [] | intros k Hk; exact Hk].
  - apply and_then_inv in H. destruct H as (d1 & H1 & H2).
    destruct (phi_for_type_values _ _ _ _ _ _ _ H1) as (N1 & P1 & M1).
    destruct (IH d1 d' H2) as (N2 & P2 & M2).
    split; [intros Hd; apply N2, N1; exact Hd |].
    split; [| intros k Hk; apply M2, M1; exact Hk].
    intros t [<- | Hin]; [apply M2; exact P1 | apply P2; exact Hin].
Qed.

Lemma get_phi_values (dem_present : bool)
    (phi : list (Z * calibration_point)) (output_types : list string)
    (unique_seasons : list Z) :
  forall d d',
    get_phi sqrt log exp linregress vario_estimate fitted_model fit_variogram
      interpolate set_to_list unique_seasons dem_present phi output_types d
    = Return d' ->
    (phi_nonneg d -> phi_nonneg d')
    /\ (forall t s,
          In s unique_seasons ->
          In t (set_to_list
                  (filter (fun t => in_types t output_types)
                     ["point"; "grid"])) ->
          present d' [Str t; Str "phi"; Int s])
    /\ (forall k, present d k -> present d' k).
Proof.
  induction unique_seasons as [|season rest IH]; intros d d' H;
    cbn [get_phi] in H.
  - apply Return_inj in H. subst d'.
    split; [intros Hd; exact Hd |].
    split; [intros t s [] | intros k Hk; exact Hk].
  - cbv zeta in H.
    apply and_then_inv in H. destruct H as (made & _ & H).
    apply and_then_inv in H. destruct H as (d1 & H1 & H2).
    destruct (phi_types_loop_values _ _ _ _ _ _ _ H1) as (N1 & P1 & M1).
    destruct (IH d1 d' H2) as (N2 & P2 & M2).
    split; [intros Hd; apply N2, N1; exact Hd |].
    split; [| intros k Hk; apply M2, M1; exact Hk].
    intros t s [<- | Hin] Ht; [apply M2, P1; exact Ht | apply P2; assumption].
Qed.

(** X22.  When [get_phi] returns (on metadata that held no phi before), every
    phi array it leaves in the metadata is free of negative values --
    interpolated values below zero are replaced by zero -- and there is one
    such array for each season and each of the output types ['point'] and
    ['grid'] that was asked for. *)
Theorem get_phi_never_negative (dem_present : bool)
    (phi : list (Z * calibration_point)) (output_types : list string)
    (unique_seasons : list Z) (d d' : metadata) :
  (forall l t, In t (set_to_list l) <-> In t l) ->
  (forall t s, lookup key_eqb d [Str t; Str "phi"; Int s] = Throw KeyError) ->
  get_phi sqrt log exp linregress vario_estimate fitted_model fit_variogram
    interpolate set_to_list unique_seasons dem_present phi output_types d
  = Return d' ->
  (forall t s p,
      lookup key_eqb d' [Str t; Str "phi"; Int s] = Return p ->
      Forall (fun v => 0 <= v) p)
  /\ (forall t s,
        t = "point" \/ t = "grid" ->
        In t output_types -> In s unique_seasons ->
        exists p, lookup key_eqb d' [Str t; Str "phi"; Int s] = Return p).
Proof.
  intros Hset Hd H.
  destruct (get_phi_values _ _ _ _ _ _ H) as (N & P & _).
  split.
  - apply N. intros t s p Hp. rewrite Hd in Hp. discriminate.
  - intros t s Ht Hin Hs. apply P; [exact Hs |].
    apply Hset. apply filter_In. split.
    + destruct Ht as [-> | ->]; [left | right; left]; reflexivity.
    + apply in_types_In. exact Hin.
Qed.

End PhiValues.

Section PhiValuesWitness.

Import String Ascii.
Local Open Scope string_scope.

(** Kriging that returns a negative value at the second point. *)
Lemma get_phi_never_negative_witness :
  let d' := [([Str "point"; Str "x"], [0; 3]);
             ([Str "point"; Str "y"], [0; 4]);
             ([Str "point"; Str "phi"; Int 1], [1; 0])] in
  (forall t s p,
      lookup key_eqb d' [Str t; Str "phi"; Int s] = Return p ->
      Forall (fun v => 0 <= v) p)
  /\ (forall t s,
        t = "point" \/ t = "grid" ->
        In t ["point"] -> In s [1%Z] ->
        exists p, lookup key_eqb d' [Str t; Str "phi"; Int s] = Return p).
Proof.
  apply (get_phi_never_negative Qsqrt_exact (fun v => v) (fun v => v)
           (fun _ _ => Ok (mkRegression 0 1 0 (1 # 100)))
           (fun _ _ _ => ([], [], [])) unit (fun _ _ _ => Ok (tt, 0))
           (fun _ x _ _ => Return (map (fun v => 1 - v) x)) (fun l => l)
           false
           [(1%Z, mkCalibration 0 0 10 (1 # 2));
            (1%Z, mkCalibration 3 4 20 (1 # 5))]
           ["point"] [1%Z]
           [([Str "point"; Str "x"], [0; 3]); ([Str "point"; Str "y"], [0; 4])]).
  - intros l t. split; intros H; exact H.
  - intros t s. unfold lookup. cbn [find fst key_eqb atom_eqb].
    destruct (t =? "point"); reflexivity.
  - vm_compute. reflexivity.
Defined.

End PhiValuesWitness.

(** ** The path table *)

Section PathTable.

Import String Ascii.
Local Open Scope string_scope.

Variable spatial_model : bool.
Variables output_format output_folder extension : string.
Variable output_subfolders : list (string * string).
Variables points catchments : option (list atom).
Variable realisation_ids : list Z.

Hypothesis extension_known :
  lookup String.eqb output_format_extensions output_format = Return extension.

Local Notation "'path_of'" :=
  (expected_path spatial_model output_folder output_subfolders extension).

(** Every entry of a table holds the path that belongs to its key. *)
Local Notation "'table_ok' d" :=
  (Forall (fun kv : list atom * string => snd kv = path_of (fst kv)) d)
  (at level 10, d at level 9).

Local Notation "'has' d k" :=
  (exists v : string, lookup key_eqb d k = Return v)
  (at level 10, d at level 9, k at level 9).

Lemma store_table_ok (d : list (list atom * string)) (k : list atom)
    (v : string) :
  table_ok d -> v = path_of k -> table_ok (store key_eqb d k v).
Proof.
  intros Hd Hv. induction Hd as [|kv d Hkv Hd IH]; cbn [store].
  - constructor; [exact Hv | constructor].
  - destruct (key_eqb k (fst kv)) eqn:E.
    + apply key_eqb_spec in E. subst k.
      constructor; [exact Hv | exact Hd].
    + constructor; [exact Hkv | exact IH].
Qed.

Lemma lookup_table_ok (d : list (list atom * string)) (k : list atom)
    (v : string) :
  table_ok d -> lookup key_eqb d k = Return v -> v = path_of k.
Proof.
  intros Hd H. unfold lookup in H.
  destruct (find (fun kv => key_eqb k (fst kv)) d) as [kv|] eqn:E;
    [| discriminate].
  apply Return_inj in H. subst v.
  apply find_some in E. destruct E as (Hin & E).
  apply key_eqb_spec in E. subst k.
  rewrite Forall_forall in Hd. apply Hd. exact Hin.
Qed.

Lemma store_has (d : list (list atom * string)) (k k' : list atom)
    (v : string) :
  has d k' -> has (store key_eqb d k v) k'.
Proof.
  intros (p & Hp). destruct (key_eqb k' k) eqn:E.
  - apply key_eqb_spec in E. subst k'. exists v.
    apply (lookup_store_same (list atom) string key_eqb key_eqb_spec).
  - exists p.
    rewrite (lookup_store_other (list atom) string key_eqb key_eqb_spec);
      [exact Hp |].
    intros ->. rewrite (proj2 (key_eqb_spec k k) eq_refl) in E. discriminate.
Qed.

Lemma output_cases_loop_table (output_type subfolder : string)
    (output_cases : list (Z * atom)) :
  lookup String.eqb output_subfolders output_type = Return subfolder ->
  forall acc d,
    output_cases_loop spatial_model output_type output_format
      (os_path_join output_folder subfolder) output_cases acc = Return d ->
    (table_ok acc -> table_ok d)
    /\ (forall k, has acc k -> has d k)
    /\ (forall realisation_id location_id,
          In (realisation_id, location_id) output_cases ->
          has d [Str output_type; location_id; Int realisation_id]).
Proof.
  intros Hsub.
  induction output_cases as [|[rid loc] rest IH]; intros acc d H;
    cbn [output_cases_loop] in H.
  - apply Return_inj in H. subst d.
    split; [intros Ha; exact Ha |].
    split; [intros k Hk; exact Hk | intros ? ? []].
  - apply and_then_inv in H. destruct H as (name & Hname & H).
    destruct (IH _ d H) as (T & M & P).
    assert (Hpath : os_path_join (os_path_join output_folder subfolder) name
                    = path_of [Str output_type; loc; Int rid]).
    { unfold expected_path. rewrite Hsub. f_equal.
      unfold expected_file_name.
      destruct spatial_model; cbn [negb] in Hname.
      - apply and_then_inv in Hname. destruct Hname as (stem & Hstem & Hname).
        rewrite extension_known in Hname. cbn [and_then] in Hname.
        apply Return_inj in Hname. subst name.
        destruct loc as [n|n]; cbn [add_str] in Hstem; [| discriminate].
        apply Return_inj in Hstem. subst stem. apply append_assoc.
      - rewrite extension_known in Hname. cbn [and_then] in Hname.
        apply Return_inj in Hname. subst name. reflexivity. }
    split; [| split].
    + intros Ha. apply T. apply store_table_ok; [exact Ha | exact Hpath].
    + intros k Hk. apply M. apply store_has. exact Hk.
    + intros rid' loc' [E | Hin].
      * injection E as <- <-. apply M. eexists.
        apply (lookup_store_same (list atom) string key_eqb key_eqb_spec).
      * apply P. exact Hin.
Qed.

Lemma output_paths_helper_table (output_type : string)
    (paths : list (list atom * string)) :
  output_paths_helper spatial_model output_type
    (if output_type =? "grid" then "nc" else output_format)
    output_folder output_subfolders points catchments realisation_ids
  = Return paths ->
  table_ok paths
  /\ (forall realisation_id location_id,
        In realisation_id realisation_ids ->
        In location_id
          (location_ids_of spatial_model output_type points catchments) ->
        has paths [Str output_type; location_id; Int realisation_id]).
Proof.
  intros H.
  destruct (String.eqb_spec output_type "grid") as [-> | Hng].
  - destruct realisation_ids as [|r rs] eqn:Er.
    + unfold output_paths_helper in H.
      apply and_then_inv in H. destruct H as (locals & _ & H).
      apply and_then_inv in H. destruct H as (l & _ & H).
      cbn [list_prod output_cases_loop] in H.
      apply Return_inj in H. subst paths.
      split; [constructor | intros ? ? []].
    + destruct (output_paths_helper_grid spatial_model output_folder
                  output_subfolders points catchments (r :: rs)
                  ltac:(discriminate)) as ((e & He) & _).
      rewrite He in H. discriminate.
  - unfold output_paths_helper, location_ids_of in *.
    destruct (String.eqb_spec output_type "point") as [-> | Hnp].
    + apply and_then_inv in H. destruct H as (locals & Hl & H).
      apply and_then_inv in Hl. destruct Hl as (ids & Hids & Hl).
      apply and_then_inv in Hl. destruct Hl as (sub & Hsub & Hl).
      apply Return_inj in Hl. subst locals.
      cbn [read_local lift and_then fst snd] in H.
      destruct (output_cases_loop_table "point" sub _ Hsub _ _ H)
        as (T & _ & P).
      split; [apply T; constructor |].
      intros rid loc Hr Hloc. apply P. apply in_prod; [exact Hr |].
      destruct spatial_model.
      * destruct points as [names|]; cbn [names_of] in Hids; [| discriminate].
        apply Return_inj in Hids. subst ids. exact Hloc.
      * apply Return_inj in Hids. subst ids. exact Hloc.
    + destruct (String.eqb_spec output_type "catchment") as [-> | Hnc].
      * apply and_then_inv in H. destruct H as (locals & Hl & H).
        apply and_then_inv in Hl. destruct Hl as (ids & Hids & Hl).
        apply and_then_inv in Hl. destruct Hl as (sub & Hsub & Hl).
        apply Return_inj in Hl. subst locals.
        cbn [read_local lift and_then fst snd] in H.
        destruct (output_cases_loop_table "catchment" sub _ Hsub _ _ H)
          as (T & _ & P).
        split; [apply T; constructor |].
        intros rid loc Hr Hloc. apply P. apply in_prod; [exact Hr |].
        destruct catchments as [names|]; cbn [names_of] in Hids;
          [| discriminate].
        apply Return_inj in Hids. subst ids. exact Hloc.
      * rewrite (proj2 (String.eqb_neq output_type "grid") Hng) in H.
        cbn [and_then read_local lift] in H. discriminate.
Qed.

Lemma fold_store_table (paths : list (list atom * string)) :
  forall acc,
    table_ok paths ->
    (table_ok acc ->
     table_ok (fold_left (fun d kv => store key_eqb d (fst kv) (snd kv))
                 paths acc))
    /\ (forall k, has acc k ->
          has (fold_left (fun d kv => store key_eqb d (fst kv) (snd kv))
                 paths acc) k)
    /\ (forall k, has paths k ->
          has (fold_left (fun d kv => store key_eqb d (fst kv) (snd kv))
                 paths acc) k).
Proof.
  induction paths as [|kv rest IH]; intros acc Hp; cbn [fold_left].
  - split; [intros Ha; exact Ha |].
    split; [intros k Hk; exact Hk |].
    intros k (v & Hv). discriminate Hv.
  - inversion Hp as [|? ? Hkv Hrest]; subst.
    destruct (IH (store key_eqb acc (fst kv) (snd kv)) Hrest) as (T & M & P).
    split; [| split].
    + intros Ha. apply T. apply store_table_ok; assumption.
    + intros k Hk. apply M. apply store_has. exact Hk.
    + intros k (v & Hv). unfold lookup in Hv. cbn [find] in Hv.
      destruct (key_eqb k (fst kv)) eqn:E.
      * apply key_eqb_spec in E. subst k. apply M. eexists.
        apply (lookup_store_same (list atom) string key_eqb key_eqb_spec).
      * apply P. exists v. exact Hv.
Qed.

Lemma output_types_loop_table (output_types : list string) :
  forall acc d,
    output_types_loop spatial_model output_format output_folder
      output_subfolders points catchments realisation_ids output_types acc
    = Return d ->
    (table_ok acc -> table_ok d)
    /\ (forall k, has acc k -> has d k)
    /\ (forall output_type realisation_id location_id,
          In output_type output_types ->
          In realisation_id realisation_ids ->
          In location_id
            (location_ids_of spatial_model output_type points catchments) ->
          has d [Str output_type; location_id; Int realisation_id]).
Proof.
  induction output_types as [|t rest IH]; intros acc d H;
    cbn [output_types_loop] in H.
  - apply Return_inj in H. subst d.
    split; [intros Ha; exact Ha |].
    split; [intros k Hk; exact Hk | intros ? ? ? []].
  - apply and_then_inv in H. destruct H as (paths & Hpaths & H).
    destruct (output_paths_helper_table t paths Hpaths) as (Tp & Pp).
    destruct (fold_store_table paths acc Tp) as (Tf & Mf & Pf).
    destruct (IH _ d H) as (T & M & P).
    split; [| split].
    + intros Ha. apply T, Tf. exact Ha.
    + intros k Hk. apply M, Mf. exact Hk.
    + intros ot rid loc [<- | Hin] Hr Hloc.
      * apply M, Pf, Pp; assumption.
      * apply P; assumption.
Qed.

(** X25.  When [make_output_paths] returns, its table has, for every output type
    asked for, every location of that type and every realisation, the
    path [<output folder>/<subfolder of the type>/<file name>], the file
    name being [<name>_r<realisation><extension>] in the spatial model and
    [r<realisation><extension>] in the point model. *)
Theorem make_output_paths_table
    (output_types : list string) (d : list (list atom * string)) :
  make_output_paths spatial_model output_types output_format output_folder
    output_subfolders points catchments realisation_ids = Return d ->
  forall output_type location_id realisation_id subfolder,
    In output_type output_types ->
    In realisation_id realisation_ids ->
    In location_id
      (location_ids_of spatial_model output_type points catchments) ->
    lookup String.eqb output_subfolders output_type = Return subfolder ->
    lookup key_eqb d [Str output_type; location_id; Int realisation_id]
    = Return
        (os_path_join (os_path_join output_folder subfolder)
           (expected_file_name spatial_model location_id realisation_id
              extension)).
Proof.
  intros H t loc rid sub Ht Hr Hloc Hsub. unfold make_output_paths in H.
  destruct (output_types_loop_table output_types [] d H) as (T & _ & P).
  destruct (P t rid loc Ht Hr Hloc) as (v & Hv).
  rewrite Hv. f_equal.
  rewrite (lookup_table_ok d _ v (T (Forall_nil _)) Hv).
  unfold expected_path. rewrite Hsub. reflexivity.
Qed.

End PathTable.

Section PathTableWitness.

Import String Ascii.
Local Open Scope string_scope.

(** Two points, a catchment and two realisations. *)
Lemma make_output_paths_table_witness :
  lookup key_eqb
    [([Str "point"; Str "a"; Int 1], "out/p/a_r1.csv");
     ([Str "point"; Str "b"; Int 1], "out/p/b_r1.csv");
     ([Str "point"; Str "a"; Int 2], "out/p/a_r2.csv");
     ([Str "point"; Str "b"; Int 2], "out/p/b_r2.csv");
     ([Str "catchment"; Str "c1"; Int 1], "out/c/c1_r1.csv");
     ([Str "catchment"; Str "c1"; Int 2], "out/c/c1_r2.csv")]
    [Str "catchment"; Str "c1"; Int 2]
  = Return
      (os_path_join (os_path_join "out" "c")
         (expected_file_name true (Str "c1") 2 ".csv")).
Proof.
  apply (make_output_paths_table true "csv" "out" ".csv"
           [("point", "p"); ("catchment", "c")]
           (Some [Str "a"; Str "b"]) (Some [Str "c1"]) [1%Z; 2%Z]
           eq_refl ["point"; "catchment"]).
  - vm_compute. reflexivity.
  - right. left. reflexivity.
  - right. left. reflexivity.
  - left. reflexivity.
  - reflexivity.
Defined.

End PathTableWitness.

(** ** The simulation pass finishes; an end-to-end run of the point model *)


Section Finishing.

Variables rng seed_sequence raincells : Type.
Variable default_rng : seed_sequence -> rng.
Variable nsproc_main : rng -> list Q -> raincells * rng.
Variable memory_error : nat -> bool.
Variable discretise : Z -> list month_row -> raincells -> result unit.
Variable number_of_years : Z.
Variable datetime_helper : list month_row.
Variable seed : seed_sequence.

Local Notation "'sim_step'" :=
  (simulation_step rng raincells nsproc_main discretise number_of_years
     datetime_helper).
Local Notation "'sim_loop'" :=
  (simulation_loop rng raincells nsproc_main discretise number_of_years
     datetime_helper).

Lemma simulation_step_cases (realisation_id size : Z)
    (st : simulation_state rng) :
  (number_of_years <= sim_block_id rng st * size)%Z
  /\ sim_step realisation_id size st = None
  \/ (sim_block_id rng st * size < number_of_years)%Z
     /\ ((exists st',
             sim_step realisation_id size st = Some (Ok st')
             /\ sim_block_id rng st' = (sim_block_id rng st + 1)%Z)
         \/ exists e,
             sim_step realisation_id size st = Some (Raise e)
             /\ discretise realisation_id
                  (slice datetime_helper (sim_block_id rng st * size * 12)
                     ((sim_block_id rng st + 1) * size * 12))
                  (fst (nsproc_main (sim_rng rng st)
                          (slice (n_hours datetime_helper)
                             (sim_block_id rng st * size * 12)
                             ((sim_block_id rng st + 1) * size * 12))))
                = Raise e).
Proof.
  unfold simulation_step.
  destruct (sim_block_id rng st * size <? number_of_years)%Z eqn:E.
  - apply Z.ltb_lt in E. right. split; [exact E |]. cbv zeta.
    destruct (discretise realisation_id _ _) as [u|e]; cbn [bind].
    + left. eexists. split; reflexivity.
    + right. exists e. split; reflexivity.
  - apply Z.ltb_ge in E. left. split; [exact E | reflexivity].
Qed.

Lemma simulation_loop_finishes_from (realisation_id size : Z) (fuel : nat) :
  (0 < size)%Z ->
  forall st,
    (0 <= sim_block_id rng st)%Z ->
    (Z.to_nat (number_of_years - sim_block_id rng st * size) <= fuel)%nat ->
    exists r,
      sim_loop fuel realisation_id size st = Some r
      /\ ((forall i block df, discretise i block df = Ok tt) ->
          exists st', r = Ok st').
Proof.
  intros Hsize.
  induction fuel as [|fuel IH]; intros st Hb Hf; cbn [simulation_loop];
    destruct (simulation_step_cases realisation_id size st)
      as [(Hc & ->) | (Hc & [(st1 & -> & Hb1) | (e & -> & He)])];
    try (eexists; split; [reflexivity | intros _; eexists; reflexivity]);
    try (eexists; split; [reflexivity |]; intros Hok; rewrite Hok in He;
         discriminate).
  - lia.
  - apply IH; [lia | rewrite Hb1; nia].
Qed.

(** X11.  With a positive block size the simulation pass is over after at most
    [number_of_years] iterations: it returns, or it stops at the first
    block whose discretisation raises; it returns whenever no
    discretisation raises. *)
Theorem simulation_loop_finishes
    (fuel : nat) (realisation_id size : Z) (rng0 : rng) :
  (0 < size)%Z ->
  (Z.to_nat number_of_years <= fuel)%nat ->
  exists r,
    simulation_loop rng raincells nsproc_main discretise number_of_years
      datetime_helper fuel realisation_id size
      (mkSimulation rng 0 rng0 [] [])
    = Some r
    /\ ((forall i block df, discretise i block df = Ok tt) ->
        exists st, r = Ok st).
Proof.
  intros Hsize Hf.
  apply simulation_loop_finishes_from; cbn [sim_block_id]; [exact Hsize | | ];
    lia.
Qed.

End Finishing.

Lemma simulation_loop_finishes_witness :
  exists r,
    simulation_loop nat unit (fun r _ => (tt, S r)) (fun _ _ _ => Ok tt) 10
      (repeat (mkMonth 2000 1 744 0 744) 120) 10 1 4
      (mkSimulation nat 0 0%nat [] []) = Some r
    /\ ((forall (i : Z) (block : list month_row) (df : unit),
            (fun _ _ _ => Ok tt) i block df = Ok tt) ->
        exists st, r = Ok st).
Proof.
  apply (simulation_loop_finishes nat unit (fun r _ => (tt, S r))
           (fun _ _ _ => Ok tt) 10 (repeat (mkMonth 2000 1 744 0 744) 120)
           10 1 4 0%nat).
  - reflexivity.
  - vm_compute. lia.
Defined.

Section EndToEnd.

Variables rng seed_sequence : Type.
Variable default_rng : seed_sequence -> rng.
Variable nsproc_main : rng -> list Q -> raincell_table * rng.
Variable number_of_years : Z.
Variable datetime_helper : list month_row.
Variable seed : seed_sequence.
Variable timestep_length : Q.
Variable discrete_rainfall : array2.

(** The discretisation of a block in the point model. *)
Local Notation "'discretise_block'" :=
  (fun (_ : Z) (block : list month_row) (df : raincell_table) =>
     _ <- discretise_by_point block df timestep_length discrete_rainfall ;;
     Ok tt).


End EndToEnd.



(** ** How a value is written *)

Section Formatting.

Import String Ascii.
Local Open Scope string_scope.

Lemma list_ascii_of_string_app (a b : string) :
  list_ascii_of_string (a ++ b)
  = (list_ascii_of_string a ++ list_ascii_of_string b)%list.
Proof.
  induction a as [|c a IH]; cbn [append list_ascii_of_string app];
    [reflexivity |].
  rewrite IH. reflexivity.
Qed.

Lemma string_of_list_ascii_app (l l' : list ascii) :
  string_of_list_ascii (l ++ l')%list
  = string_of_list_ascii l ++ string_of_list_ascii l'.
Proof.
  induction l as [|c l IH]; cbn [app string_of_list_ascii append];
    [reflexivity |].
  rewrite IH. reflexivity.
Qed.

Lemma ends_with_last (c x : ascii) (l : list ascii) :
  ends_with c (string_of_list_ascii (l ++ [x])%list) = Ascii.eqb c x.
Proof.
  induction l as [|y l IH]; cbn [app string_of_list_ascii ends_with].
  - reflexivity.
  - destruct (string_of_list_ascii (l ++ [x])%list) as [|z s] eqn:E.
    + destruct l; discriminate E.
    + exact IH.
Qed.

(** A string that does not end in [c] has nothing stripped. *)
Lemma rstrip_none (c : ascii) (s : string) :
  ends_with c s = false -> rstrip c s = s.
Proof.
  intros H. unfold rstrip.
  destruct (list_ascii_of_string s) as [|y l] eqn:E using rev_ind.
  - cbn. rewrite <- (string_of_list_ascii_of_string s), E. reflexivity.
  - clear IHl.
    rewrite <- (string_of_list_ascii_of_string s), E in H.
    rewrite ends_with_last in H.
    rewrite rev_app_distr. cbn [rev app drop_while]. rewrite H.
    change (y :: rev l)%list with (rev [y] ++ rev l)%list.
    rewrite <- rev_app_distr. rewrite rev_involutive, <- E.
    apply string_of_list_ascii_of_string.
Qed.

(** Trailing copies of [c] after a string that does not end in [c] are
    stripped, and nothing more. *)
Lemma rstrip_repeat (c : ascii) (s : string) (n : nat) :
  ends_with c s = false ->
  rstrip c (s ++ string_of_list_ascii (repeat c n)) = s.
Proof.
  intros H. unfold rstrip.
  rewrite list_ascii_of_string_app, list_ascii_of_string_of_list_ascii.
  rewrite rev_app_distr, rev_repeat.
  assert (Hd : forall l, drop_while (Ascii.eqb c) (repeat c n ++ l)%list
                         = drop_while (Ascii.eqb c) l).
  { intros l. induction n as [|n IH]; cbn [repeat app drop_while];
      [reflexivity |].
    rewrite Ascii.eqb_refl. exact IH. }
  rewrite Hd. apply (rstrip_none c s H).
Qed.

Section FormatValue.

Variable format_1f : Q -> string.

(** X27.  A value that ['%.1f'] renders as [whole.d] is written as [whole] when
    the decimal [d] is zero and as [whole.d] otherwise: the zeros and the
    point after the whole part are removed, the whole part itself is never
    shortened (100.0 is written 100). *)
Theorem format_value_shape (value : Q) (whole : string) (d : ascii) :
  format_1f value = whole ++ "." ++ String d "" ->
  ends_with "." whole = false ->
  d <> "."%char ->
  format_value format_1f value
  = if Ascii.eqb d "0" then whole else whole ++ "." ++ String d "".
Proof.
  intros Hf Hw Hd. unfold format_value. rewrite Hf.
  destruct (Ascii.eqb_spec d "0"%char) as [-> | Hn0].
  - assert (H0 : rstrip "0" (whole ++ "." ++ "0") = whole ++ ".").
    { rewrite <- append_assoc.
      apply (rstrip_repeat "0" (whole ++ ".") 1).
      rewrite <- (string_of_list_ascii_of_string whole).
      change "." with (string_of_list_ascii ["."%char]).
      rewrite <- string_of_list_ascii_app. apply ends_with_last. }
    rewrite H0.
    apply (rstrip_repeat "." whole 1). exact Hw.
  - assert (Hlast : forall c,
               ends_with c (whole ++ "." ++ String d "") = Ascii.eqb c d).
    { intros c. rewrite <- append_assoc.
      rewrite <- (string_of_list_ascii_of_string (whole ++ ".")).
      change (String d "") with (string_of_list_ascii [d]).
      rewrite <- string_of_list_ascii_app. apply ends_with_last. }
    rewrite (rstrip_none "0") by
      (rewrite Hlast; apply Ascii.eqb_neq; congruence).
    apply rstrip_none. rewrite Hlast. apply Ascii.eqb_neq. congruence.
Qed.

End FormatValue.

Lemma format_value_shape_witness :
  format_value (fun _ => "100.0") 100
  = if Ascii.eqb "0" "0" then "100" else "100" ++ "." ++ String "0" "".
Proof.
  apply (format_value_shape (fun _ => "100.0") 100 "100" "0"%char).
  - reflexivity.
  - reflexivity.
  - discriminate.
Defined.

End Formatting.

(** ** The spatial month loop never gets past the discretisation *)

Section SpatialMonthFacts.

Import String Ascii.
Local Open Scope string_scope.

Variable sqrt : Q -> Q.
Variable set_to_list : list string -> list string.

(** The month loop passes thirteen positional arguments (it still passes
    [end_time]) to a kernel that takes twelve. *)
Lemma discretise_spatial_call_arity (s e tl : Q) (a b c x y r px py pp : array)
    (m : array2) :
  discretise_spatial_call sqrt
    [AFloat s; AFloat e; AFloat tl; AArray a; AArray b; AArray c; AArray2 m;
     AArray x; AArray y; AArray r; AArray px; AArray py; AArray pp]
  = Raise TypeError.
Proof. reflexivity. Qed.

Lemma spatial_calls_loop_raises (row : month_row) (season : Z) (tl : Q)
    (a b c x y r : array) (discretisation_metadata : metadata)
    (output_types : list string) (discrete_rainfall : list (string * array2)) :
  output_types <> [] ->
  exists e,
    spatial_calls_loop sqrt row season tl a b c x y r discretisation_metadata
      output_types discrete_rainfall = Throw e.
Proof.
  intros Hne. destruct output_types as [|t rest]; [congruence |].
  cbn [spatial_calls_loop]. cbv zeta.
  destruct (lookup String.eqb discrete_rainfall _) as [buffer|e1];
    cbn [and_then]; [| eexists; reflexivity].
  destruct (lookup key_eqb discretisation_metadata _) as [xs|e2];
    cbn [and_then]; [| eexists; reflexivity].
  destruct (lookup key_eqb discretisation_metadata _) as [ys|e3];
    cbn [and_then]; [| eexists; reflexivity].
  destruct (lookup key_eqb discretisation_metadata _) as [phi|e4];
    cbn [and_then]; [| eexists; reflexivity].
  rewrite discretise_spatial_call_arity. eexists. reflexivity.
Qed.

(** X9.  In the spatial model no iteration of the month loop of
    [discretise_by_point] gets past the discretisation when an output type
    is asked for: whatever the raincells, the buffers and the metadata are,
    the statements up to the end of the loop over output types raise.  When
    the season of the month is defined, the columns of the raincell table
    have one length and the buffer and the metadata of the first output
    type are there, what is raised is the [TypeError] of the
    thirteen-argument call of the twelve-parameter kernel. *)
Theorem spatial_month_calls_raise
    (season_definitions : list (Z * Z)) (df : spatial_raincell_table)
    (output_types : list string) (timestep_length : Q)
    (discretisation_metadata : metadata) (row : month_row)
    (discrete_rainfall : list (string * array2)) :
  (forall l t, In t l -> In t (set_to_list l)) ->
  output_types <> [] ->
  (exists e,
      spatial_month_calls sqrt set_to_list season_definitions df output_types
        timestep_length discretisation_metadata row discrete_rainfall
      = Throw e)
  /\ (forall season output_type buffer xs ys phi,
        lookup Z.eqb season_definitions (month row) = Return season ->
        List.length (raincell_end (temporal_columns df))
        = List.length (raincell_arrival (temporal_columns df)) ->
        List.length (raincell_intensity (temporal_columns df))
        = List.length (raincell_arrival (temporal_columns df)) ->
        List.length (raincell_x df)
        = List.length (raincell_arrival (temporal_columns df)) ->
        List.length (raincell_y df)
        = List.length (raincell_arrival (temporal_columns df)) ->
        List.length (raincell_radii_column df)
        = List.length (raincell_arrival (temporal_columns df)) ->
        in_types "catchment" output_types && in_types "grid" output_types
        = false ->
        hd_error output_types = Some output_type ->
        let discretisation_case :=
          if output_type =? "catchment" then "grid" else output_type in
        lookup String.eqb discrete_rainfall discretisation_case
        = Return buffer ->
        lookup key_eqb discretisation_metadata
          [Str discretisation_case; Str "x"] = Return xs ->
        lookup key_eqb discretisation_metadata
          [Str discretisation_case; Str "y"] = Return ys ->
        lookup key_eqb discretisation_metadata
          [Str discretisation_case; Str "phi"; Int season] = Return phi ->
        spatial_month_calls sqrt set_to_list season_definitions df
          output_types timestep_length discretisation_metadata row
          discrete_rainfall
        = Throw (Builtin TypeError)).
Proof.
  intros Hset Hne. split.
  - unfold spatial_month_calls.
    destruct (lookup Z.eqb season_definitions (month row)) as [season|e0];
      cbn [and_then]; [| eexists; reflexivity].
    cbv zeta.
    destruct (lift (map2 _ _ _)) as [mask|e1]; cbn [and_then];
      [| eexists; reflexivity].
    destruct (lift (mask_select mask _)) as [a|e2]; cbn [and_then];
      [| eexists; reflexivity].
    destruct (lift (mask_select mask _)) as [b|e3]; cbn [and_then];
      [| eexists; reflexivity].
    destruct (lift (mask_select mask _)) as [c|e4]; cbn [and_then];
      [| eexists; reflexivity].
    destruct (lift (mask_select mask _)) as [x|e5]; cbn [and_then];
      [| eexists; reflexivity].
    destruct (lift (mask_select mask _)) as [y|e6]; cbn [and_then];
      [| eexists; reflexivity].
    destruct (lift (mask_select mask _)) as [r|e7]; cbn [and_then];
      [| eexists; reflexivity].
    apply spatial_calls_loop_raises.
    destruct (in_types "catchment" output_types
              && in_types "grid" output_types) eqn:E; [| exact Hne].
    apply andb_prop in E. destruct E as (Ec & _).
    assert (Hin : In "catchment"
                    (set_to_list
                       (filter (fun t => in_types t output_types)
                          ["point"; "catchment"]))).
    { apply Hset. apply filter_In. split; [right; left; reflexivity | exact Ec]. }
    intros Hnil. rewrite Hnil in Hin. destruct Hin.
  - intros season output_type buffer xs ys phi Hs Le Li Lx Ly Lr Hboth Hhd
      discretisation_case Hb Hxs Hys Hphi.
    unfold spatial_month_calls. rewrite Hs. cbn [and_then]. cbv zeta.
    rewrite (map2_same_length _ _ _ (eq_sym Le)). cbn [lift and_then].
    set (mask := map _ (combine (raincell_arrival (temporal_columns df))
                          (raincell_end (temporal_columns df)))).
    assert (Lm : List.length mask
                 = List.length (raincell_arrival (temporal_columns df))).
    { unfold mask. rewrite length_map, length_combine. lia. }
    rewrite (mask_select_filter mask (raincell_arrival (temporal_columns df)))
      by exact Lm.
    rewrite (mask_select_filter mask (raincell_end (temporal_columns df)))
      by congruence.
    rewrite (mask_select_filter mask
               (raincell_intensity (temporal_columns df))) by congruence.
    rewrite (mask_select_filter mask (raincell_x df)) by congruence.
    rewrite (mask_select_filter mask (raincell_y df)) by congruence.
    rewrite (mask_select_filter mask (raincell_radii_column df))
      by congruence.
    cbn [lift and_then]. rewrite Hboth.
    destruct output_types as [|t rest]; [discriminate |].
    cbn [hd_error] in Hhd.
    apply (f_equal (fun o => match o with Some s => s | None => t end)) in Hhd.
    subst t. cbn [spatial_calls_loop]. cbv zeta.
    fold discretisation_case. rewrite Hb, Hxs, Hys, Hphi. cbn [and_then].
    rewrite discretise_spatial_call_arity. reflexivity.
Qed.

End SpatialMonthFacts.

Section SpatialMonthWitness.

Import String Ascii.
Local Open Scope string_scope.

(** One raincell over two points, with buffers and metadata in place. *)
Lemma spatial_month_calls_raise_witness :
  spatial_month_calls Qsqrt_exact (fun l => l) [(1%Z, 1%Z)]
    (mkSpatialTable (mkTable [0] [3 # 2] [2]) [0] [0] [1]) ["point"] 1
    [([Str "point"; Str "x"], [0; 3]); ([Str "point"; Str "y"], [0; 4]);
     ([Str "point"; Str "phi"; Int 1], [1; 1])]
    (mkMonth 2000 1 744 0 744) [("point", zeros2 744 2)]
  = Throw (Builtin TypeError).
Proof.
  apply (proj2 (spatial_month_calls_raise Qsqrt_exact (fun l => l)
                  [(1%Z, 1%Z)]
                  (mkSpatialTable (mkTable [0] [3 # 2] [2]) [0] [0] [1])
                  ["point"] 1
                  [([Str "point"; Str "x"], [0; 3]);
                   ([Str "point"; Str "y"], [0; 4]);
                   ([Str "point"; Str "phi"; Int 1], [1; 1])]
                  (mkMonth 2000 1 744 0 744) [("point", zeros2 744 2)]
                  (fun l t H => H) ltac:(discriminate))
           1%Z "point" (zeros2 744 2) [0; 3] [0; 4] [1; 1]);
    reflexivity.
Defined.

End SpatialMonthWitness.
